(** * Karin: update orchestration for npm and git plugins

    A shallow embedding of [packages/core/src/utils/system/update.ts]
    (checkPkgUpdate, getPkgVersion, getRemotePkgVersion, updatePkg,
    updateAllPkg, checkGitPluginUpdate, getCommit, getHash, getTime,
    updateGitPlugin, updateAllGitPlugin).

    The functions are [async]: each is embedded as a tree of the requests it
    awaits ([Async]).  A single call is run against a host by [run]; the
    callbacks handed to [Promise.all] and [Promise.allSettled] are run by an
    event loop ([gather]) in which the host decides which pending request
    completes next. *)

From Stdlib Require Import String Ascii List NArith ZArith Lia Bool Permutation.
From Stdlib Require Import DecimalString.
Import ListNotations.
Open Scope string_scope.

(* ================================================================== *)
(** ** JavaScript strings and values *)
(* ================================================================== *)

(** Strings are UTF-8 byte strings: equality and substring search agree with
    those of the (well-formed) UTF-16 strings of the source. *)
Module Js.

(** Truthiness of a string: only the empty string is falsy. *)
Definition truthy (s : string) : bool :=
  match s with EmptyString => false | String _ _ => true end.

(** A value of type [string | undefined]; [None] is [undefined]. *)
Definition truthy_opt (v : option string) : bool :=
  match v with Some s => truthy s | None => false end.

(** [a || b] on [string | undefined]. *)
Definition or (a b : option string) : option string :=
  if truthy_opt a then a else b.

(** [a === b] on [string | undefined]. *)
Definition strict_eq (a b : option string) : bool :=
  match a, b with
  | Some x, Some y => String.eqb x y
  | None, None => true
  | _, _ => false
  end.

(** A value interpolated into a template literal. *)
Definition show (v : option string) : string :=
  match v with Some s => s | None => "undefined" end.

(** A natural number interpolated into a template literal. *)
Definition show_number (n : N) : string :=
  NilZero.string_of_uint (N.to_uint n).

(** [hay.includes(needle)] *)
Fixpoint includes (needle hay : string) : bool :=
  if prefix needle hay then true
  else match hay with
       | EmptyString => false
       | String _ rest => includes needle rest
       end.

Fixpoint drop (n : nat) (s : string) : string :=
  match n, s with
  | O, _ => s
  | S n', String _ rest => drop n' rest
  | S _, EmptyString => EmptyString
  end.

(** [s.replace(pat, rep)] for a string pattern: the first occurrence only. *)
Fixpoint replace (pat rep s : string) : string :=
  if prefix pat s then rep ++ drop (String.length pat) s
  else match s with
       | EmptyString => EmptyString
       | String c rest => String c (replace pat rep rest)
       end.

(** [lines.join(sep)] *)
Definition join (sep : string) (lines : list string) : string :=
  String.concat sep lines.

(** The double quote, for the command lines that contain one. *)
Definition dq : string := String (ascii_of_nat 34) EmptyString.

(** An [Error] object, as far as the code reads it. *)
Record Error := {
  error_name : string;      (* the [name] property *)
  message : string;
  stack : option string;
}.

(** [new Error(msg)].  The stack the engine captures for an error created by
    this code is never read by it. *)
Definition new_Error (msg : string) : Error :=
  {| error_name := "Error"; message := msg; stack := None |}.

(** [Error.prototype.toString] *)
Definition error_toString (e : Error) : string :=
  if negb (truthy (error_name e)) then message e
  else if negb (truthy (message e)) then error_name e
  else error_name e ++ ": " ++ message e.

(** What a [throw] carries: the code throws [Error] objects, and rethrows the
    runner's [error] field, which is [Error | null]. *)
Inductive Thrown :=
| ThrownError (e : Error)
| ThrownNull.

Definition rethrow (e : option Error) : Thrown :=
  match e with Some x => ThrownError x | None => ThrownNull end.

(** [error?.stack?.toString().includes(marker)] *)
Definition stack_includes (marker : string) (e : option Error) : bool :=
  match e with
  | Some x => match stack x with
              | Some st => includes marker st
              | None => false
              end
  | None => false
  end.

(** The [ReferenceError] of a name that is bound nowhere. *)
Definition not_defined (name : string) : Thrown :=
  ThrownError {| error_name := "ReferenceError";
                 message := name ++ " is not defined";
                 stack := None |}.

(** The [TypeError] of a property read on [undefined] or [null]. *)
Definition cannot_read (base prop : string) : Thrown :=
  ThrownError {| error_name := "TypeError";
                 message := "Cannot read properties of " ++ base
                            ++ " (reading '" ++ prop ++ "')";
                 stack := None |}.

(** How a call ends: with a value, or with a throw (a rejected promise). *)
Inductive Completion (A : Type) :=
| Returned (a : A)
| Raised (e : Thrown).
Arguments Returned {A} a.
Arguments Raised {A} e.

(** What [RegExp.prototype.exec] gives for a pattern with one group. *)
Inductive RegExpExec :=
| RxSyntaxError (e : Error)   (* [new RegExp] rejected the pattern *)
| RxNull                      (* no match *)
| RxMatch (group1 : string).

(** The built-ins of the engine whose behaviour the code relies on. *)
Class Engine := {
  (** [s.trim()] *)
  trim : string -> string;
  (** [new RegExp(`${name}@(\\d+\\.\\d+\\.\\d+)`, 'gm').exec(data)] *)
  exec_version : string -> string -> RegExpExec;
  (** [stdout.match(/Your branch is behind '.*' by (\d+) commits/)?.[1]] *)
  match_behind : string -> option string;
  (** [lines.sort(comparefn)] *)
  sort : (string -> string -> Z) -> list string -> list string;
}.

(** [Number(digits)] for a string of decimal digits (the group of
    [match_behind]); exact below 2^53. *)
Definition to_number (digits : string) : N :=
  match NilZero.uint_of_string digits with
  | Some u => N.of_uint u
  | None => 0%N
  end.

End Js.
Export Js.

(* ================================================================== *)
(** ** The collaborators: command runner, manifest, plugin registry *)
(* ================================================================== *)

(** What [exec] resolves with (it never rejects). *)
Record ExecReturn := {
  status : bool;
  error : option Error;
  stdout : string;
  stderr : string;
}.

(** A dependency map of the manifest, read by name. *)
Definition Dict := string -> option string.

(** [package.json], as far as it is read here; a map may be missing. *)
Record Package := {
  dependencies : option Dict;
  devDependencies : option Dict;
  peerDependencies : option Dict;
}.

(** [deps?.[name]] for the keys of the map itself.  A name that
    [Object.prototype] has too ([constructor], [toString], ...) reads as the
    inherited member where the map has no such key: the statements about
    what the manifest declares for a name leave these names out. *)
Definition entry (deps : option Dict) (name : string) : option string :=
  match deps with Some d => d name | None => None end.

Inductive Origin := npm | git.

(** What the code awaits from outside. *)
Inductive Request :=
| ReqExec (cmd : string) (cwd : option string)   (* exec(cmd, { cwd }) *)
| ReqRequire (force : bool)                      (* requireFile('package.json', { force }) *)
| ReqPlugins (origin : Origin).                  (* getPlugins(origin, false) *)

Definition Answer (q : Request) : Type :=
  match q with
  | ReqExec _ _ => ExecReturn
  | ReqRequire _ => Completion (option Package)
  | ReqPlugins _ => Completion (list string)
  end.

(** What is written to the logger, and the timers. *)
Inductive Logged :=
| LText (s : string)
| LValue (v : Thrown).

Inductive Event :=
| LogInfo (s : string)
| LogError (x : Logged)
| SetTimeout (ms : N)
| ClearTimeout.

(* ================================================================== *)
(** ** Asynchronous code *)
(* ================================================================== *)

(** An [async] body over the closure variables [St] it shares with its
    siblings: it ends, or waits for a request, or does a synchronous step. *)
Inductive Async (St A : Type) : Type :=
| Ret (a : A)
| Throw (e : Thrown)
| Await (q : Request) (k : Answer q -> Async St A)
| Detach (q : Request) (k : Async St A)          (* started, never awaited *)
| ExistsSync (path : string) (k : bool -> Async St A)
| Emit (ev : Event) (k : Async St A)
| Modify (f : St -> St) (k : Async St A).
Arguments Ret {St A} a.
Arguments Throw {St A} e.
Arguments Await {St A} q k.
Arguments Detach {St A} q k.
Arguments ExistsSync {St A} path k.
Arguments Emit {St A} ev k.
Arguments Modify {St A} f k.

Fixpoint bind {St A B} (t : Async St A) (f : A -> Async St B) : Async St B :=
  match t with
  | Ret a => f a
  | Throw e => Throw e
  | Await q k => Await q (fun a => bind (k a) f)
  | Detach q k => Detach q (bind k f)
  | ExistsSync p k => ExistsSync p (fun b => bind (k b) f)
  | Emit ev k => Emit ev (bind k f)
  | Modify g k => Modify g (bind k f)
  end.

(** [try { t } catch (error) { handler error }] *)
Fixpoint try_catch {St A} (t : Async St A) (handler : Thrown -> Async St A)
  : Async St A :=
  match t with
  | Ret a => Ret a
  | Throw e => handler e
  | Await q k => Await q (fun a => try_catch (k a) handler)
  | Detach q k => Detach q (try_catch k handler)
  | ExistsSync p k => ExistsSync p (fun b => try_catch (k b) handler)
  | Emit ev k => Emit ev (try_catch k handler)
  | Modify g k => Modify g (try_catch k handler)
  end.

Declare Scope async_scope.
Delimit Scope async_scope with async.
Notation "x <- t ;; u" := (bind t (fun x => u))
  (at level 61, t at next level, right associativity) : async_scope.
Notation "t ;; u" := (bind t (fun _ => u))
  (at level 61, right associativity) : async_scope.
Open Scope async_scope.

(** [await] of a promise that may reject. *)
Definition settle {St A} (c : Completion A) : Async St A :=
  match c with Returned a => Ret a | Raised e => Throw e end.

Definition exec {St} (cmd : string) (cwd : option string) : Async St ExecReturn :=
  Await (ReqExec cmd cwd) Ret.

Definition getPlugins {St} (origin : Origin) : Async St (list string) :=
  Await (ReqPlugins origin) settle.

Definition emit {St} (ev : Event) : Async St unit := Emit ev (Ret tt).
Definition modify {St} (f : St -> St) : Async St unit := Modify f (Ret tt).

(** A line feed, for the template literals that contain one. *)
Definition nl : string := String (ascii_of_nat 10) EmptyString.

(** A parameter with a default value: [None] is an omitted argument. *)
Definition default {A} (d : A) (v : option A) : A :=
  match v with Some x => x | None => d end.

(* ================================================================== *)
(** ** The source: npm packages *)
(* ================================================================== *)

Section Source.
Context {E : Engine}.

Definition getPkg {St} (isForcibly : bool) : Async St (option Package) :=
  Await (ReqRequire isForcibly) settle.

(** [pkg?.field?.[name]] *)
Definition manifest_entry (pkg : option Package)
  (field : Package -> option Dict) (name : string) : option string :=
  match pkg with Some p => entry (field p) name | None => None end.

Definition not_installed (name : string) : Thrown :=
  ThrownError (new_Error ("获取失败，" ++ name ++ " 未安装")).

(** What the [if (stdout)] block of [getPkgVersion] returns, [None] when
    control falls out of it. *)
Definition version_in_stdout {St} (name : string) (out : string)
  : Async St (option string) :=
  if truthy out then
    let data := out in
    if includes "empty" data || includes "extraneous" data
    then Throw (not_installed name)
    else match exec_version name data with
         | RxSyntaxError e => Throw (ThrownError e)
         | RxNull => Ret None
         | RxMatch g => if truthy g then Ret (Some g) else Ret None
         end
  else Ret None.

Definition list_cmd (name : string) : string :=
  "npm list " ++ name ++ " --depth=0".

Definition getPkgVersion {St} (name : string) : Async St (option string) :=
  r <- exec (list_cmd name) None ;;
  found <- version_in_stdout name (stdout r) ;;
  match found with
  | Some v => Ret (Some v)
  | None =>
    match error r with
    | Some e =>
      if stack_includes "empty" (Some e) || stack_includes "extraneous" (Some e)
      then Throw (not_installed name)
      else Throw (ThrownError e)
    | None =>
      pkg <- getPkg false ;;
      Ret (or (or (manifest_entry pkg dependencies name)
                  (manifest_entry pkg devDependencies name))
              (manifest_entry pkg peerDependencies name))
    end
  end.

Definition show_cmd (name tag : string) : string :=
  if String.eqb tag "latest"
  then "npm show " ++ name ++ " version"
  else "npm show " ++ name ++ " dist-tags." ++ tag.

Definition getRemotePkgVersion {St} (name : string) (tag : option string)
  : Async St string :=
  let tag := default "latest" tag in
  r <- exec (show_cmd name tag) None ;;
  if negb (status r) then
    if stack_includes "empty" (error r) || stack_includes "extraneous" (error r)
    then Throw (not_installed name)
    else Throw (rethrow (error r))
  else Ret (trim (stdout r)).

Inductive PkgCheck :=
| CheckYes (local : option string) (remote : string)   (* status: 'yes' *)
| CheckNo (local : option string)                      (* status: 'no' *)
| CheckError (err : Thrown).                           (* status: 'error' *)

Definition checkPkgUpdate {St} (name : string) : Async St PkgCheck :=
  try_catch
    (local <- getPkgVersion name ;;
     remote <- getRemotePkgVersion name None ;;
     if strict_eq local (Some remote) then Ret (CheckNo local)
     else Ret (CheckYes local remote))
    (fun err => emit (LogError (LValue err)) ;; Ret (CheckError err)).

(** The [data] of a failure: a message, or the value that was caught. *)
Inductive FailData :=
| FailText (s : string)
| FailValue (v : Thrown).

Inductive PkgUpdate :=
| PkgFailed (data : FailData)                                      (* status: 'failed' *)
| PkgOk (data : string) (local : option string) (remote : string). (* status: 'ok' *)

Definition upgrade_cmd (name remote : string) : string :=
  "pnpm up " ++ name ++ "@" ++ remote.

Definition no_update_line (name : string) (local remote : option string) : string :=
  "[" ++ name ++ "][无更新] " ++ show local ++ " => " ++ show remote.

Definition manual_line (name : string) (remote : option string) : string :=
  "[" ++ name ++ "][更新失败] 请尝试手动更新 pnpm up " ++ name ++ "@" ++ show remote.

Definition success_line (name : string) (local remote : option string) : string :=
  "[" ++ name ++ "][更新成功] " ++ show local ++ " => " ++ show remote.

Definition updatePkg {St} (name : string) (tag : option string)
  : Async St PkgUpdate :=
  try_catch
    (local <- getPkgVersion name ;;
     remote <- getRemotePkgVersion name (Some (default "latest" tag)) ;;
     if strict_eq local (Some remote) then
       Ret (PkgFailed (FailText (no_update_line name local (Some remote))))
     else
       r <- exec (upgrade_cmd name remote) None ;;
       match error r with
       | Some e => Ret (PkgFailed (FailValue (ThrownError e)))
       | None =>
         updatedVersion <- getPkgVersion name ;;
         if negb (strict_eq updatedVersion (Some remote)) then
           Ret (PkgFailed (FailText (manual_line name (Some remote))))
         else
           Ret (PkgOk (success_line name local (Some remote)) local remote)
       end)
    (fun err => emit (LogError (LValue err)) ;; Ret (PkgFailed (FailValue err))).

(* ================================================================== *)
(** ** The source: git repositories *)
(* ================================================================== *)

Record CommitOptions := {
  path : string;
  count : option N;
  hash : option string;
  branch : option string;
}.

Definition log_format (fmt : string) : string :=
  " --format=" ++ dq ++ fmt ++ dq ++ " --date=" ++ dq ++ "format:%m-%d %H:%M" ++ dq.

(** The three command lines of [getCommit]. *)
Definition log_last (count : N) : string :=
  "git log -" ++ show_number count ++ log_format "[%ad]%s %n".

Definition log_since (hash : string) : string :=
  "git log " ++ hash ++ "..HEAD" ++ log_format "[%ad] %s %n".

Definition log_branch (count : N) (branch : string) : string :=
  "git log -" ++ show_number count ++ " " ++ branch ++ log_format "[%ad] %s %n".

(** The command line [getCommit] builds. *)
Definition getCommit_cmd (options : CommitOptions) : string :=
  let count := default 1%N (count options) in
  let cmd := log_last count in
  let cmd := if truthy_opt (hash options) then log_since (show (hash options)) else cmd in
  let cmd := if truthy_opt (branch options)
             then log_branch count (show (branch options)) else cmd in
  cmd.

Definition getCommit {St} (options : CommitOptions) : Async St string :=
  r <- exec (getCommit_cmd options) (Some (path options)) ;;
  match error r with
  | Some e => Throw (ThrownError e)
  | None => Ret (stdout r)
  end.

Definition getHash {St} (filePath : string) (short : option bool) : Async St string :=
  let cmd := if default true short then "git rev-parse --short HEAD"
             else "git rev-parse HEAD" in
  r <- exec cmd (Some filePath) ;;
  match error r with
  | Some e => Throw (ThrownError e)
  | None => Ret (stdout r)
  end.

Definition getTime {St} (filePath : string) : Async St string :=
  let cmd := "git log -1 --format=%cd --date=format:" ++ dq ++ "%Y-%m-%d %H:%M:%S" ++ dq in
  r <- exec cmd (Some filePath) ;;
  match error r with
  | Some _ => Ret "获取最后一次提交时间失败，请重试或更新Git~"
  | None => Ret (stdout r)
  end.

Inductive GitCheck :=
| GitYes (data : string) (behind : N)   (* status: 'yes' *)
| GitNo (data : string)                 (* status: 'no' *)
| GitCheckError (data : Thrown).        (* status: 'error' *)

(** [Number(stdout.match(...)?.[1]) || 1] *)
Definition behind_count (out : string) : N :=
  match match_behind out with
  | Some digits => if N.eqb (to_number digits) 0 then 1%N else to_number digits
  | None => 1%N
  end.

Definition checkGitPluginUpdate {St} (filePath : string) (time : option N)
  : Async St GitCheck :=
  let time := default 120%N time in
  try_catch
    (ExistsSync filePath (fun there =>
     if negb there then Ret (GitCheckError (ThrownError (new_Error "路径不存在"))) else
     ExistsSync (filePath ++ "/.git") (fun repo =>
     if negb repo then Ret (GitCheckError (ThrownError (new_Error "该路径不是一个git仓库"))) else
     emit (SetTimeout (time * 1000)) ;;
     r <- exec "git fetch origin" (Some filePath) ;;
     match error r with
     | Some e => Ret (GitCheckError (ThrownError e))
     | None =>
       r' <- exec "git status -uno" (Some filePath) ;;
       emit ClearTimeout ;;
       if includes "Your branch is up to date with" (stdout r') then
         time <- getTime filePath ;;
         Ret (GitNo ("当前版本已是最新版本" ++ nl ++ "最后更新时间：" ++ time))
       else
         let count := behind_count (stdout r') in
         data <- getCommit {| path := filePath; count := Some count;
                              hash := None; branch := Some "origin" |} ;;
         emit ClearTimeout ;;
         Ret (GitYes data count)
     end)))
    (fun err => emit (LogError (LValue err)) ;; Ret (GitCheckError err)).

(** The declared result also lists a [status: 'error'] variant, which no
    path of [updateGitPlugin] builds. *)
Inductive GitUpdate :=
| GitFailed (data : FailData)                (* status: 'failed' *)
| GitOk (data : string) (commit : string).   (* status: 'ok' *)

Definition one_commit (filePath : string) : CommitOptions :=
  {| path := filePath; count := Some 1%N; hash := None; branch := None |}.

Definition pull_failed_text (e : Error) : string :=
  nl ++ "更新失败" ++ nl ++ "错误信息："
     ++ show (or (stack e) (Some (message e)))
     ++ nl ++ "请解决错误后重试或执行【#强制更新】".

(** [cmd = cmd || 'git pull'], after the default of the parameter. *)
Definition pull_cmd (cmd : option string) : string :=
  if truthy (default "git pull" cmd) then default "git pull" cmd else "git pull".

Definition unchanged_text (time : N) (commit : string) : string :=
  nl ++ "当前版本已是最新版本" ++ nl ++ "最后更新时间："
     ++ show_number time ++ nl ++ "更新详情：" ++ commit.

(** The template literal interpolates the promise [getCommit] returns, not
    the text it resolves to. *)
Definition updated_text : string :=
  nl ++ "更新成功" ++ nl ++ "更新日志：[object Promise]".

Definition updateGitPlugin {St} (filePath : string) (cmd : option string)
  (time : option N) : Async St GitUpdate :=
  let time := default 120%N time in
  try_catch
    (ExistsSync filePath (fun there =>
     if negb there then Ret (GitFailed (FailText "路径不存在")) else
     ExistsSync (filePath ++ "/.git") (fun repo =>
     if negb repo then Ret (GitFailed (FailText "该路径不是一个git仓库")) else
     emit (SetTimeout (time * 1000)) ;;
     hash <- getHash filePath None ;;
     let cmd := pull_cmd cmd in
     r <- exec cmd (Some filePath) ;;
     match error r with
     | Some e =>
       let data := pull_failed_text e in
       emit ClearTimeout ;;
       Ret (GitFailed (FailText data))
     | None =>
       updatedHash <- getHash filePath None ;;
       if String.eqb hash updatedHash then
         emit ClearTimeout ;;
         commit <- getCommit (one_commit filePath) ;;
         Ret (GitFailed (FailText (unchanged_text time commit)))
       else
         emit ClearTimeout ;;
         commit <- getCommit (one_commit filePath) ;;
         (* the template literal calls getCommit again: its command is
            started and never awaited *)
         Detach (ReqExec (getCommit_cmd (one_commit filePath)) (Some filePath))
           (Ret (GitOk updated_text commit))
     end)))
    (fun err => emit (LogError (LValue err)) ;; Ret (GitFailed (FailValue err))).

End Source.

(* ================================================================== *)
(** ** Running asynchronous code against a host *)
(* ================================================================== *)

(** The outside world, with a state [W] of its own: it sees every request
    start, answers the one that completes, chooses which of the pending
    requests completes next, holds the file system, and has the global
    [logger] set or not. *)
Record Host (W : Type) := {
  host_spawn : Request -> W -> W;
  host_answer : forall q : Request, W -> Answer q * W;
  host_pick : list Request -> W -> nat;
  host_existsSync : string -> W -> bool;
  host_logger : W -> bool;     (* is [global.logger] set *)
}.
Arguments host_spawn {W} h q w.
Arguments host_answer {W} h q w.
Arguments host_pick {W} h pending w.
Arguments host_existsSync {W} h path w.
Arguments host_logger {W} h w.

(** The world together with what the code did to it: the requests it
    started, in order, and what it logged. *)
Record Machine (W : Type) := {
  world : W;
  calls : list Request;
  journal : list Event;
}.
Arguments world {W} m.
Arguments calls {W} m.
Arguments journal {W} m.

(** A callback waiting for its request. *)
Record Parked (St : Type) := {
  parked_on : Request;
  resume : Answer parked_on -> Async St unit;
}.

Inductive Progress (St : Type) :=
| Settled (c : Completion unit)
| Waiting (p : Parked St).

Arguments parked_on {St} p.
Arguments resume {St} p a.
Arguments Settled {St} c.
Arguments Waiting {St} p.

Section Running.
Context {W : Type} (h : Host W).

Definition boot (w : W) : Machine W :=
  {| world := w; calls := []; journal := [] |}.

Definition started (q : Request) (m : Machine W) : Machine W :=
  {| world := host_spawn h q (world m); calls := calls m ++ [q];
     journal := journal m |}.

Definition noted (ev : Event) (m : Machine W) : Machine W :=
  {| world := world m; calls := calls m; journal := journal m ++ [ev] |}.

Definition moved (w : W) (m : Machine W) : Machine W :=
  {| world := w; calls := calls m; journal := journal m |}.

(** One call on its own: every request it awaits is the only one pending, and
    is answered before anything else happens. *)
Fixpoint run {St A} (t : Async St A) (s : St) (m : Machine W)
  : Completion A * St * Machine W :=
  match t with
  | Ret a => (Returned a, s, m)
  | Throw e => (Raised e, s, m)
  | Await q k =>
    let m1 := started q m in
    let (a, w) := host_answer h q (world m1) in
    run (k a) s (moved w m1)
  | Detach q k => run k s (started q m)
  | ExistsSync p k => run (k (host_existsSync h p (world m))) s m
  | Emit ev k => run k s (noted ev m)
  | Modify f k => run k (f s) m
  end.

(** The synchronous stretch of a callback: up to its end or to the request it
    waits for next, which is started. *)
Fixpoint advance {St} (t : Async St unit) (s : St) (m : Machine W)
  : Progress St * St * Machine W :=
  match t with
  | Ret a => (Settled (Returned a), s, m)
  | Throw e => (Settled (Raised e), s, m)
  | Await q k => (Waiting {| parked_on := q; resume := k |}, s, started q m)
  | Detach q k => advance k s (started q m)
  | ExistsSync p k => advance (k (host_existsSync h p (world m))) s m
  | Emit ev k => advance k s (noted ev m)
  | Modify f k => advance k (f s) m
  end.

(** [list.map(async ...)]: every callback runs, in order, up to its first
    request.  The result lists the callbacks left waiting and the throws of
    those that already ended. *)
Fixpoint launch {St} (ts : list (Async St unit)) (s : St) (m : Machine W)
  : list (Parked St) * list Thrown * St * Machine W :=
  match ts with
  | [] => ([], [], s, m)
  | t :: ts' =>
    match advance t s m with
    | (Waiting p, s1, m1) =>
      let '(ps, es, s2, m2) := launch ts' s1 m1 in (p :: ps, es, s2, m2)
    | (Settled (Returned _), s1, m1) => launch ts' s1 m1
    | (Settled (Raised e), s1, m1) =>
      let '(ps, es, s2, m2) := launch ts' s1 m1 in (ps, e :: es, s2, m2)
    end
  end.

Fixpoint replace_nth {A} (i : nat) (x : A) (l : list A) : list A :=
  match l, i with
  | [], _ => []
  | _ :: l', O => x :: l'
  | y :: l', S i' => y :: replace_nth i' x l'
  end.

Fixpoint remove_nth {A} (i : nat) (l : list A) : list A :=
  match l, i with
  | [], _ => []
  | _ :: l', O => l'
  | y :: l', S i' => y :: remove_nth i' l'
  end.

(** [Promise.all] rejects with the first throw; [Promise.allSettled] waits
    for every callback. *)
Inductive Gathering := FailFast | SettleAll.

(** The event loop while callbacks wait: the host picks the pending request
    that completes and answers it, and the callback that awaited it runs its
    next synchronous stretch.  [fuel] bounds the number of completions. *)
Fixpoint drain {St} (mode : Gathering) (fuel : nat) (ps : list (Parked St))
  (s : St) (m : Machine W) : option (Completion unit * St * Machine W) :=
  match ps with
  | [] => Some (Returned tt, s, m)
  | p0 :: _ =>
    match fuel with
    | O => None
    | S fuel' =>
      let i := Nat.modulo (host_pick h (map parked_on ps) (world m)) (length ps) in
      let p := nth i ps p0 in
      let (a, w) := host_answer h (parked_on p) (world m) in
      match advance (resume p a) s (moved w m) with
      | (Waiting p', s1, m1) => drain mode fuel' (replace_nth i p' ps) s1 m1
      | (Settled (Returned _), s1, m1) => drain mode fuel' (remove_nth i ps) s1 m1
      | (Settled (Raised e), s1, m1) =>
        match mode with
        | FailFast => Some (Raised e, s1, m1)
        | SettleAll => drain mode fuel' (remove_nth i ps) s1 m1
        end
      end
    end
  end.

(** [await Promise.all(list.map(f))] and [await Promise.allSettled(...)];
    [None] when [fuel] runs out. *)
Definition gather {St} (mode : Gathering) (fuel : nat)
  (ts : list (Async St unit)) (s : St) (m : Machine W)
  : option (Completion unit * St * Machine W) :=
  let '(ps, es, s1, m1) := launch ts s m in
  match mode, es with
  | FailFast, e :: _ => Some (Raised e, s1, m1)
  | _, _ => drain mode fuel ps s1 m1
  end.

End Running.

(* ================================================================== *)
(** ** The source: the two batch updates *)
(* ================================================================== *)

(** A plain object used as a record of entries: assignment keeps the place of
    a key that is already there. *)
Fixpoint object_set {V} (key : string) (v : V) (o : list (string * V))
  : list (string * V) :=
  match o with
  | [] => [(key, v)]
  | (k, v') :: rest =>
    if String.eqb k key then (key, v) :: rest
    else (k, v') :: object_set key v rest
  end.

(** A key that is an array index (a canonical number below 2^32 - 1). *)
Definition array_index (key : string) : option N :=
  match NilZero.uint_of_string key with
  | Some u =>
    let n := N.of_uint u in
    if String.eqb (show_number n) key && N.ltb n 4294967295 then Some n else None
  | None => None
  end.

Fixpoint insert_index {V} (n : N) (kv : string * V) (l : list (N * (string * V)))
  : list (N * (string * V)) :=
  match l with
  | [] => [(n, kv)]
  | (n', kv') :: rest =>
    if N.ltb n n' then (n, kv) :: l else (n', kv') :: insert_index n kv rest
  end.

(** The entries in the order of [Object.keys]: array indices ascending, then
    the other keys in the order they were first assigned. *)
Definition object_entries {V} (o : list (string * V)) : list (string * V) :=
  let indexed :=
    fold_left (fun acc kv =>
                 match array_index (fst kv) with
                 | Some n => insert_index n kv acc
                 | None => acc
                 end) o [] in
  map snd indexed
  ++ filter (fun kv => match array_index (fst kv) with Some _ => false | None => true end) o.

(** The closure variables the callbacks of [updateAllPkg] write to. *)
Record Plan := {
  tips : list string;
  cmd : list string;
  state : list (string * (option string * option string));   (* local, remote *)
}.

(** The closure variables the callbacks of [updateAllGitPlugin] write to. *)
Record GitReport := {
  git_tips : list string;
  git_result : list string;
}.

(** [(a) => a.includes('成功') ? -1 : 1], as [sort] calls it. *)
Definition success_first (a b : string) : Z :=
  if includes "成功" a then (-1)%Z else 1%Z.

(** [`${data}`] for the [data] of a failure. *)
Definition show_fail (d : FailData) : string :=
  match d with
  | FailText s => s
  | FailValue (ThrownError e) => error_toString e
  | FailValue ThrownNull => "null"
  end.

Definition git_line (name : string) (r : GitUpdate) : string :=
  match r with
  | GitOk data _ => "[" ++ name ++ "][更新成功] " ++ data
  | GitFailed data => "[" ++ name ++ "][更新失败] " ++ show_fail data
  end.

Definition nothing_to_update : string := "没有可更新的插件~".

Section Batch.
Context {E : Engine}.

(** [tips.push(...)] of a package that is up to date. *)
Definition keep (name : string) (local remote : option string) (pl : Plan) : Plan :=
  {| tips := tips pl ++ [no_update_line name local remote];
     cmd := cmd pl; state := state pl |}.

(** The three writes for a package to upgrade. *)
Definition plan_upgrade (name : string) (local remote : option string) (pl : Plan)
  : Plan :=
  {| tips := tips pl ++ ["更新" ++ name ++ " " ++ show local ++ " => " ++ show remote];
     cmd := cmd pl ++ [name ++ "@" ++ show remote];
     state := object_set name (local, remote) (state pl) |}.

(** [await getRemotePkgVersion(name) || pkg.dependencies[name]] *)
Definition remote_or_declared {St} (pkg : option Package) (name : string)
  : Async St (option string) :=
  published <- getRemotePkgVersion name None ;;
  if truthy published then Ret (Some published)
  else match pkg with
       | None => Throw (cannot_read "undefined" "dependencies")
       | Some p =>
         match dependencies p with
         | None => Throw (cannot_read "undefined" name)
         | Some d => Ret (d name)
         end
       end.

(** The callback of [list.map] in [updateAllPkg]. *)
Definition probe (pkg : option Package) (name : string) : Async Plan unit :=
  let name := replace "npm:" EmptyString name in
  local <- getPkgVersion name ;;
  remote <- remote_or_declared pkg name ;;
  if strict_eq local remote then modify (keep name local remote)
  else modify (plan_upgrade name local remote).

Definition plan0 : Plan :=
  {| tips := [nl ++ "------- 更新npm插件 --------"]; cmd := ["pnpm up"]; state := [] |}.

(** The line of one planned package in the second [forEach] of
    [updateAllPkg]. *)
Definition verdict (updatedPkg : Package)
  (planned : string * (option string * option string)) : string :=
  let '(name, (local, remote)) := planned in
  let updatedVersion :=
    or (or (entry (dependencies updatedPkg) name) (entry (devDependencies updatedPkg) name))
       (entry (peerDependencies updatedPkg) name) in
  if negb (strict_eq updatedVersion remote)
  then manual_line name remote
  else success_line name local remote.

Definition verdicts (updatedPkg : option Package)
  (entries : list (string * (option string * option string)))
  : Async unit (list string) :=
  match entries, updatedPkg with
  | [], _ => Ret []
  | _ :: _, None => Throw (cannot_read "undefined" "dependencies")
  | _ :: _, Some up => Ret (map (verdict up) entries)
  end.

(** [updateAllPkg] after [await Promise.all(...)]. *)
Definition upgrade_planned (pl : Plan) : Async unit string :=
  if Nat.eqb (length (cmd pl)) 1 then
    let tips := (tips pl ++ [nothing_to_update; "---------------------------"])%list in
    emit (LogInfo (join nl tips)) ;;
    Ret nothing_to_update
  else
    let tips := (tips pl ++ ["----------------------------"])%list in
    emit (LogInfo (join nl tips)) ;;
    let shell := join " " (cmd pl) in
    emit (LogInfo ("开始更新: " ++ shell)) ;;
    r <- exec shell None ;;
    match error r with
    | Some e =>
      let result := map (fun '(name, (_, remote)) => manual_line name remote)
                        (object_entries (state pl)) in
      let result := ("[更新失败] 更新数量: " ++ show_number (N.of_nat (length result)))
                    :: result in
      emit (LogError (LText (join nl result))) ;;
      emit (LogError (LValue (ThrownError e))) ;;
      Ret (join nl result)
    | None =>
      updatedPkg <- getPkg true ;;
      result <- verdicts updatedPkg (object_entries (state pl)) ;;
      let result := sort success_first result in
      emit (LogInfo (join nl result)) ;;
      Ret (join nl result)
    end.

(** The [catch] of both batch updates, with a [logger] in reach. *)
Definition report_error (err : Thrown) : Async unit string :=
  emit (LogError (LValue err)) ;;
  match err with
  | ThrownError e =>
    Ret (if truthy (message e) then message e else "更新失败，请查看日志")
  | ThrownNull => Throw (cannot_read "null" "message")
  end.

(** [tips.push(line)] and [result.push(line)] *)
Definition push_line (line : string) (g : GitReport) : GitReport :=
  {| git_tips := git_tips g ++ [line]; git_result := git_result g ++ [line] |}.

(** The callback of [list.map] in [updateAllGitPlugin]. *)
Definition pull (cmd : string) (time : N) (name : string) : Async GitReport unit :=
  let name := replace "git:" EmptyString name in
  let filePath := "./plugins/" ++ name in
  r <- updateGitPlugin filePath (Some cmd) (Some time) ;;
  modify (push_line (git_line name r)).

Definition git_report0 : GitReport :=
  {| git_tips := [nl ++ "------- 更新git插件 --------"]; git_result := [] |}.

Context {W : Type} (h : Host W).

Definition conclude {A} (r : Completion A * unit * Machine W)
  : Completion A * Machine W :=
  (fst (fst r), snd r).

(** [None] when [fuel] is too small for the callbacks to finish. *)
Definition updateAllPkg (fuel : nat) (m : Machine W)
  : option (Completion string * Machine W) :=
  match run h (list <- getPlugins npm ;;
               pkg <- getPkg false ;;
               Ret ((list ++ ["node-karin"])%list, pkg)) tt m with
  | (Raised err, _, m1) => Some (conclude (run h (report_error err) tt m1))
  | (Returned (list, pkg), _, m1) =>
    match gather h FailFast fuel (map (probe pkg) list) plan0 m1 with
    | None => None
    | Some (Raised err, _, m2) => Some (conclude (run h (report_error err) tt m2))
    | Some (Returned _, pl, m2) =>
      Some (conclude (run h (try_catch (upgrade_planned pl) report_error) tt m2))
    end
  end.

(** [logger] is declared inside the [try] block here: the [catch] block
    reads the global [logger], and throws when there is none. *)
Definition updateAllGitPlugin (cmd : option string) (time : option N)
  (fuel : nat) (m : Machine W) : option (Completion string * Machine W) :=
  let cmd := default "git pull" cmd in
  let time := default 120%N time in
  match run h (getPlugins git) tt m with
  | (Raised err, _, m1) =>
    if host_logger h (world m1)
    then Some (conclude (run h (report_error err) tt m1))
    else Some (Raised (not_defined "logger"), m1)
  | (Returned list, _, m1) =>
    match list with
    | [] =>
      Some (conclude (run h
        (emit (LogInfo (join nl (git_tips git_report0
                                 ++ [nothing_to_update; "----------------------------"])%list)) ;;
         Ret nothing_to_update) tt m1))
    | _ :: _ =>
      match gather h SettleAll fuel (map (pull cmd time) list) git_report0 m1 with
      | None => None
      | Some (_, g, m2) =>
        Some (conclude (run h
          (emit (LogInfo (join nl (git_tips g ++ ["----------------------------"])%list)) ;;
           Ret (join nl (git_result g))) tt m2))
      end
    end
  end.

End Batch.

(* ================================================================== *)
(** ** The engine of Node.js *)
(* ================================================================== *)

Module Node.

Definition is_digit (c : ascii) : bool :=
  let n := nat_of_ascii c in Nat.leb 48 n && Nat.leb n 57.

Definition is_space (c : ascii) : bool :=
  let n := nat_of_ascii c in (Nat.leb 9 n && Nat.leb n 13) || Nat.eqb n 32.

Definition is_line_end (c : ascii) : bool :=
  let n := nat_of_ascii c in Nat.eqb n 10 || Nat.eqb n 13.

(** The longest run of digits at the head of a string, and what follows. *)
Fixpoint digits_prefix (s : string) : string * string :=
  match s with
  | String c rest =>
    if is_digit c then let (d, r) := digits_prefix rest in (String c d, r)
    else (EmptyString, s)
  | EmptyString => (EmptyString, EmptyString)
  end.

(** [\d+\.\d+\.\d+] at the head of a string. *)
Definition semver_here (s : string) : option string :=
  let (a, r1) := digits_prefix s in
  match a, r1 with
  | String _ _, String "." r2 =>
    let (b, r3) := digits_prefix r2 in
    match b, r3 with
    | String _ _, String "." r4 =>
      let (c, _) := digits_prefix r4 in
      match c with
      | String _ _ => Some (a ++ "." ++ b ++ "." ++ c)
      | EmptyString => None
      end
    | _, _ => None
    end
  | _, _ => None
  end.

(** The first match of [name@(\d+\.\d+\.\d+)] for a [name] that holds no
    character special in a regular expression. *)
Fixpoint find_version (name data : string) : option string :=
  match (if prefix (name ++ "@") data
         then semver_here (drop (String.length name + 1) data)
         else None) with
  | Some v => Some v
  | None => match data with
            | EmptyString => None
            | String _ rest => find_version name rest
            end
  end.

(** ['] by (\d+) commits] at the head of a string. *)
Definition by_commits_here (s : string) : option string :=
  if prefix "' by " s then
    let (d, r) := digits_prefix (drop 5 s) in
    match d with
    | String _ _ => if prefix " commits" r then Some d else None
    | EmptyString => None
    end
  else None.

(** [.*] is greedy and stops at the end of the line: the last place of the
    line where the rest of the pattern matches. *)
Fixpoint last_by_commits (s : string) (best : option string) : option string :=
  let best := match by_commits_here s with Some d => Some d | None => best end in
  match s with
  | EmptyString => best
  | String c rest => if is_line_end c then best else last_by_commits rest best
  end.

Fixpoint find_behind (s : string) : option string :=
  match (if prefix "Your branch is behind '" s
         then last_by_commits (drop 23 s) None
         else None) with
  | Some d => Some d
  | None => match s with
            | EmptyString => None
            | String _ rest => find_behind rest
            end
  end.

Fixpoint trim_start (s : string) : string :=
  match s with
  | String c rest => if is_space c then trim_start rest else s
  | EmptyString => EmptyString
  end.

Fixpoint trim_end (s : string) : string :=
  match s with
  | String c rest =>
    match trim_end rest with
    | EmptyString => if is_space c then EmptyString else String c EmptyString
    | kept => String c kept
    end
  | EmptyString => EmptyString
  end.

(** *** [Array.prototype.sort]

    V8 sorts with TimSort.  For an array shorter than 64 elements the minimum
    run length is the length of the array: the run found at the start
    (reversed when it descends) is extended to the whole array by binary
    insertion, and nothing is merged.  [comparefn] is called with the later
    element first. *)

(** The rest of the run after its first two elements, and what is left. *)
Fixpoint run_tail {A} (cmp : A -> A -> Z) (descending : bool) (previous : A)
  (rest : list A) : list A * list A :=
  match rest with
  | [] => ([], [])
  | current :: rest' =>
    let order := cmp current previous in
    if (if descending then Z.ltb order 0 else Z.leb 0 order)
    then let (r, others) := run_tail cmp descending current rest' in
         (current :: r, others)
    else ([], rest)
  end.

(** The binary search of the insertion: [gap] bounds the number of halvings. *)
Fixpoint bisect {A} (cmp : A -> A -> Z) (pivot : A) (sorted : list A)
  (gap left right : nat) : nat :=
  match gap with
  | O => left
  | S gap' =>
    if Nat.ltb left right then
      let mid := left + Nat.div2 (right - left) in
      if Z.ltb (cmp pivot (nth mid sorted pivot)) 0
      then bisect cmp pivot sorted gap' left mid
      else bisect cmp pivot sorted gap' (mid + 1) right
    else left
  end.

Definition binary_insert {A} (cmp : A -> A -> Z) (sorted : list A) (pivot : A)
  : list A :=
  let place := bisect cmp pivot sorted (length sorted) 0 (length sorted) in
  firstn place sorted ++ pivot :: skipn place sorted.

Definition array_sort {A} (cmp : A -> A -> Z) (l : list A) : list A :=
  match l with
  | x0 :: x1 :: rest =>
    let descending := Z.ltb (cmp x1 x0) 0 in
    let (r, others) := run_tail cmp descending x1 rest in
    let first_run := x0 :: x1 :: r in
    fold_left (binary_insert cmp)
              others
              (if descending then rev first_run else first_run)
  | _ => l
  end.

(** The engine: [trim] for ASCII white space, the version pattern for names
    without special characters, [sort] for arrays shorter than 64 elements. *)
Definition engine : Engine :=
  {| trim := fun s => trim_end (trim_start s);
     exec_version := fun name data =>
       match find_version name data with
       | Some v => RxMatch v
       | None => RxNull
       end;
     match_behind := find_behind;
     sort := array_sort |}.

End Node.

(* ================================================================== *)
(** ** Hosts for the examples *)
(* ================================================================== *)

Module Example.

Definition succeeded (out : string) : ExecReturn :=
  {| status := true; error := None; stdout := out; stderr := EmptyString |}.

Definition failed (msg : string) : ExecReturn :=
  {| status := false;
     error := Some {| error_name := "Error"; message := msg;
                      stack := Some ("Error: " ++ msg) |};
     stdout := EmptyString; stderr := msg |}.

Definition manifest (deps : list (string * string)) : Package :=
  {| dependencies :=
       Some (fun name => option_map snd (find (fun kv => String.eqb (fst kv) name) deps));
     devDependencies := None;
     peerDependencies := None |}.

(** A host whose state counts the requests completed so far. *)
Definition host (commands : string -> nat -> ExecReturn)
  (pkg : Completion (option Package)) (plugins : Origin -> list string)
  (pick : list Request -> nat -> nat) (files : list string) : Host nat :=
  {| host_spawn := fun _ w => w;
     host_answer := fun q =>
       match q return nat -> Answer q * nat with
       | ReqExec c _ => fun w => (commands c w, S w)
       | ReqRequire _ => fun w => (pkg, S w)
       | ReqPlugins o => fun w => (Returned (plugins o), S w)
       end;
     host_pick := pick;
     host_existsSync := fun p _ => existsb (String.eqb p) files;
     host_logger := fun _ => true |}.

(** The output of [npm list]: the project, then the lines of its tree. *)
Definition tree (lines : list string) : string :=
  String.concat nl ("bot@1.0.0 /srv/bot" :: lines) ++ nl.

Fixpoint lookup (table : list (string * ExecReturn)) (c : string) : ExecReturn :=
  match table with
  | [] => failed ("Command failed: " ++ c)
  | (c', r) :: rest => if String.eqb c' c then r else lookup rest c
  end.

Definition first_pending (_ : list Request) (_ : nat) : nat := 0.

Definition last_pending (pending : list Request) (_ : nat) : nat :=
  length pending - 1.

(** Nothing is installed and every command prints nothing. *)
Definition silent (files : list string) : Host nat :=
  host (fun _ _ => succeeded EmptyString) (Returned None) (fun _ => [])
       first_pending files.

(** [foo] is installed at 1.2.3, and at 1.3.0 once three requests completed;
    the registry has 1.3.0. *)
Definition upgrading : Host nat :=
  host (fun c w =>
          lookup [("npm list foo --depth=0",
                   succeeded (tree ["└── foo@" ++ (if Nat.ltb w 3 then "1.2.3" else "1.3.0")]));
                  ("npm show foo version", succeeded ("1.3.0" ++ nl));
                  ("pnpm up foo@1.3.0", succeeded "Done in 2.1s")] c)
       (Returned (Some (manifest []))) (fun _ => []) first_pending [].

(** [foo] is listed as extraneous, and the runner reports no error. *)
Definition extraneous : Host nat :=
  host (fun c _ =>
          lookup [("npm list foo --depth=0", succeeded (tree ["└── foo@ extraneous"]));
                  ("npm show foo version", succeeded ("1.3.0" ++ nl))] c)
       (Returned (Some (manifest []))) (fun _ => []) first_pending [].

(** The list command names no [foo], and the manifest has none. *)
Definition unlisted : Host nat :=
  host (fun c _ =>
          lookup [("npm list foo --depth=0", succeeded (tree []));
                  ("npm show foo version", succeeded ("1.3.0" ++ nl))] c)
       (Returned (Some (manifest []))) (fun _ => []) first_pending [].

(** The repository [./plugins/alpha], whose HEAD moves once [moves_after]
    requests completed; [log] is the answer to the commit log. *)
Definition repository (plugins : list string) (log : ExecReturn) (moves_after : nat)
  : Host nat :=
  host (fun c w =>
          lookup [("git rev-parse --short HEAD",
                   succeeded ((if Nat.ltb w moves_after then "1a2b3c4" else "5d6e7f8") ++ nl));
                  ("git pull", succeeded "Updating 1a2b3c4..5d6e7f8");
                  (getCommit_cmd (one_commit "./plugins/alpha"), log)] c)
       (Returned None) (fun _ => plugins) first_pending
       ["./plugins/alpha"; "./plugins/alpha/.git"].

Definition one_entry : ExecReturn := succeeded ("[11-03 10:00]fix typo " ++ nl).

Definition log_failure : ExecReturn := failed "stdout maxBuffer length exceeded".

(** [foo] is not installed; the host package is behind. *)
Definition missing_foo (pick : list Request -> nat -> nat) : Host nat :=
  host (fun c _ =>
          lookup [("npm list foo --depth=0",
                   {| status := false;
                      error := Some {| error_name := "Error";
                                       message := "Command failed: npm list foo --depth=0";
                                       stack := None |};
                      stdout := tree ["└── (empty)"]; stderr := EmptyString |});
                  ("npm list node-karin --depth=0", succeeded (tree ["└── node-karin@1.4.0"]));
                  ("npm show foo version", succeeded ("1.3.0" ++ nl));
                  ("npm show node-karin version", succeeded ("1.4.1" ++ nl))] c)
       (Returned (Some (manifest []))) (fun _ => ["npm:foo"]) pick [].

(** Every package is at the version of the registry. *)
Definition current (pick : list Request -> nat -> nat) : Host nat :=
  host (fun c _ =>
          lookup [("npm list foo --depth=0", succeeded (tree ["└── foo@1.2.3"]));
                  ("npm list node-karin --depth=0", succeeded (tree ["└── node-karin@1.4.1"]));
                  ("npm show foo version", succeeded ("1.2.3" ++ nl));
                  ("npm show node-karin version", succeeded ("1.4.1" ++ nl))] c)
       (Returned (Some (manifest []))) (fun _ => ["npm:foo"]) pick [].

(** [alpha] and [beta] are behind and the upgrade brings both up. *)
Definition two_upgrades : Host nat :=
  host (fun c _ =>
          lookup [("npm list alpha --depth=0", succeeded (tree ["└── alpha@1.0.0"]));
                  ("npm list beta --depth=0", succeeded (tree ["└── beta@2.0.0"]));
                  ("npm list node-karin --depth=0", succeeded (tree ["└── node-karin@1.4.1"]));
                  ("npm show alpha version", succeeded ("1.0.1" ++ nl));
                  ("npm show beta version", succeeded ("2.0.1" ++ nl));
                  ("npm show node-karin version", succeeded ("1.4.1" ++ nl));
                  ("pnpm up alpha@1.0.1 beta@2.0.1", succeeded "Done in 3.4s")] c)
       (Returned (Some (manifest [("alpha", "1.0.1"); ("beta", "2.0.1")])))
       (fun _ => ["npm:alpha"; "npm:beta"]) first_pending [].

(** What the callbacks of [updateAllPkg] leave for [two_upgrades]. *)
Definition two_planned : Plan :=
  {| tips := [];
     cmd := ["pnpm up"; "alpha@1.0.1"; "beta@2.0.1"];
     state := [("alpha", (Some "1.0.0", Some "1.0.1"));
               ("beta", (Some "2.0.0", Some "2.0.1"))] |}.

(** A call of [getCommit] with a hash and a branch. *)
Definition both_selected : CommitOptions :=
  {| path := "./plugins/alpha"; count := None;
     hash := Some "abc1234"; branch := Some "origin" |}.

(** What a host answers whatever its state, for the hosts that do not
    change. *)
Definition answers_of (h : Host nat) (q : Request) : Answer q :=
  fst (host_answer h q 0).

End Example.

(* ================================================================== *)
(** ** Vocabulary of the statements *)
(* ================================================================== *)

(** The names of the members of [Object.prototype], which every map of the
    manifest inherits. *)
Definition prototype_member (name : string) : bool :=
  existsb (String.eqb name)
          ["constructor"; "hasOwnProperty"; "isPrototypeOf"; "propertyIsEnumerable";
           "toLocaleString"; "toString"; "valueOf"; "__proto__";
           "__defineGetter__"; "__defineSetter__"; "__lookupGetter__";
           "__lookupSetter__"].

(** The upgrade commands: [pnpm up ...]. *)
Definition is_upgrade (q : Request) : bool :=
  match q with
  | ReqExec c _ => prefix "pnpm up" c
  | _ => false
  end.

Definition not_upgrade (q : Request) : Prop := is_upgrade q = false.

(** Every request a body can start satisfies [P]. *)
Fixpoint only_requests {St A} (P : Request -> Prop) (t : Async St A) : Prop :=
  match t with
  | Ret _ | Throw _ => True
  | Await q k => P q /\ forall a, only_requests P (k a)
  | Detach q k => P q /\ only_requests P k
  | ExistsSync _ k => forall b, only_requests P (k b)
  | Emit _ k | Modify _ k => only_requests P k
  end.

(** At most [n] requests are awaited on any path. *)
Fixpoint awaits_at_most {St A} (n : nat) (t : Async St A) : Prop :=
  match t with
  | Ret _ | Throw _ => True
  | Await q k => match n with
                 | O => False
                 | S n' => forall a, awaits_at_most n' (k a)
                 end
  | Detach _ k => awaits_at_most n k
  | ExistsSync _ k => forall b, awaits_at_most n (k b)
  | Emit _ k | Modify _ k => awaits_at_most n k
  end.

(** [a] is a value some run of the body returns. *)
Fixpoint may_return {St A} (t : Async St A) (a : A) : Prop :=
  match t with
  | Ret x => x = a
  | Throw _ => False
  | Await q k => exists ans, may_return (k ans) a
  | Detach _ k => may_return k a
  | ExistsSync _ k => exists b, may_return (k b) a
  | Emit _ k | Modify _ k => may_return k a
  end.

(** The body neither throws nor writes to the closure variables. *)
Fixpoint quiet {St A} (t : Async St A) : Prop :=
  match t with
  | Ret _ => True
  | Throw _ => False
  | Await q k => forall a, quiet (k a)
  | Detach _ k => quiet k
  | ExistsSync _ k => forall b, quiet (k b)
  | Emit _ k => quiet k
  | Modify _ _ => False
  end.

(** The body does not write to the closure variables. *)
Fixpoint no_modify {St A} (t : Async St A) : Prop :=
  match t with
  | Ret _ | Throw _ => True
  | Await q k => forall a, no_modify (k a)
  | Detach _ k => no_modify k
  | ExistsSync _ k => forall b, no_modify (k b)
  | Emit _ k => no_modify k
  | Modify _ _ => False
  end.

(** On every path the callback pushes one line, which satisfies [P], as its
    last step, and neither throws nor writes anything else. *)
Fixpoint reports (P : string -> Prop) (t : Async GitReport unit) : Prop :=
  match t with
  | Ret _ | Throw _ => False
  | Await q k => forall a, reports P (k a)
  | Detach _ k => reports P k
  | ExistsSync _ k => forall b, reports P (k b)
  | Emit _ k => reports P k
  | Modify f k => (exists line, P line /\ forall g, f g = push_line line g) /\ k = Ret tt
  end.

(** The plugin names as the callbacks use them. *)
Definition bare (prefix : string) (listing : list string) : list string :=
  map (replace prefix EmptyString) listing.

(** The call of [updateGitPlugin] the callback of plugin [name] makes. *)
Definition update_of (cmd : string) (time : N) (name : string)
  : Async GitReport GitUpdate :=
  updateGitPlugin ("./plugins/" ++ name) (Some cmd) (Some time).

(** A plugin with the outcome of its update, and the line for it. *)
Definition outcome_line (o : string * GitUpdate) : string :=
  git_line (fst o) (snd o).

(** The lines the comparator of [updateAllPkg] puts first. *)
Definition has_success (line : string) : bool := includes "成功" line.

(** What [updateAllPkg] gives for a throw it caught. *)
Definition error_report (e : Thrown) : Completion string :=
  match e with
  | ThrownError x =>
    Returned (if truthy (message x) then message x else "更新失败，请查看日志")
  | ThrownNull => Raised (cannot_read "null" "message")
  end.

(** Both readings of HEAD succeed and differ, the command between them
    reports no error, and the commit log read afterwards is [commit]. *)
Definition heads_differ_and_logged {W} (h : Host W) {St} (filePath : string)
  (cmd : option string) (time : option N) (s : St) (m : Machine W)
  (commit : string) (s' : St) (m' : Machine W) : Prop :=
  exists hash s1 m1 r w2 updatedHash s3 m3 m4,
    let q := ReqExec (pull_cmd cmd) (Some filePath) in
    run h (getHash filePath None) s (noted (SetTimeout (default 120%N time * 1000)) m)
      = (Returned hash, s1, m1)
    /\ host_answer h q (world (started h q m1)) = (r, w2)
    /\ error r = None
    /\ run h (getHash filePath None) s1 (moved w2 (started h q m1))
       = (Returned updatedHash, s3, m3)
    /\ hash <> updatedHash
    /\ run h (getCommit (one_commit filePath)) s3 (noted ClearTimeout m3)
       = (Returned commit, s', m4)
    /\ m' = started h (ReqExec (getCommit_cmd (one_commit filePath)) (Some filePath)) m4.

(** A world that answers a request the same way whenever it is asked, and
    whose files stay: what "the version of a package" refers to. *)
Definition Answers : Type := forall q : Request, Answer q.

Definition answers_by {W} (h : Host W) (ans : Answers) (files : string -> bool) : Prop :=
  (forall q w, fst (host_answer h q w) = ans q)
  /\ (forall p w, host_existsSync h p w = files p).

(** How a body ends in such a world. *)
Fixpoint eval {St A} (ans : Answers) (files : string -> bool) (t : Async St A)
  : Completion A :=
  match t with
  | Ret a => Returned a
  | Throw e => Raised e
  | Await q k => eval ans files (k (ans q))
  | Detach _ k => eval ans files k
  | ExistsSync p k => eval ans files (k (files p))
  | Emit _ k | Modify _ k => eval ans files k
  end.

(** In such a world the callback ends without a throw and leaves [cmd] as it
    is. *)
Fixpoint keeps_cmd (ans : Answers) (files : string -> bool) (t : Async Plan unit)
  : Prop :=
  match t with
  | Ret _ => True
  | Throw _ => False
  | Await q k => keeps_cmd ans files (k (ans q))
  | Detach _ k => keeps_cmd ans files k
  | ExistsSync p k => keeps_cmd ans files (k (files p))
  | Emit _ k => keeps_cmd ans files k
  | Modify f k => (forall pl, cmd (f pl) = cmd pl) /\ keeps_cmd ans files k
  end.

(** In such a world the local version of the package is the remote one, as
    [updateAllPkg] compares them. *)
Definition up_to_date {E : Engine} (ans : Answers) (files : string -> bool)
  (pkg : option Package) (name : string) : Prop :=
  exists v : option string,
    eval ans files (getPkgVersion (St:=Plan) name) = Returned v
    /\ eval ans files (remote_or_declared (St:=Plan) pkg name) = Returned v.

(** In such a world one of the two resolutions of the package throws [e]. *)
Definition resolution_throws {E : Engine} (ans : Answers) (files : string -> bool)
  (pkg : option Package) (name : string) (e : Thrown) : Prop :=
  eval ans files (getPkgVersion (St:=Plan) name) = Raised e
  \/ (exists local,
        eval ans files (getPkgVersion (St:=Plan) name) = Returned local
        /\ eval ans files (remote_or_declared (St:=Plan) pkg name) = Raised e).

(** The completions the callbacks that wait may still need: one for the
    request each waits for, and [wt] more. *)
Definition load {G} (wt : G -> nat) (gs : list G) : nat :=
  list_sum (map (fun g => S (wt g)) gs).

(** A comparator that looks at its first argument only. *)
Definition one_sided {A} (first : A -> bool) (a b : A) : Z :=
  if first a then (-1)%Z else 1%Z.

(* ================================================================== *)
(** ** Intermediate results and invariants *)
(* ================================================================== *)

Section Caught.
Context {W : Type} {St : Type}.

(** What the [catch] blocks of the single calls return. *)
Definition caught_check (e : Thrown) (s : St) (m : Machine W)
  : Completion PkgCheck * St * Machine W :=
  (Returned (CheckError e), s, noted (LogError (LValue e)) m).

Definition caught_update (e : Thrown) (s : St) (m : Machine W)
  : Completion PkgUpdate * St * Machine W :=
  (Returned (PkgFailed (FailValue e)), s, noted (LogError (LValue e)) m).

Definition caught_pull (e : Thrown) (s : St) (m : Machine W)
  : Completion GitUpdate * St * Machine W :=
  (Returned (GitFailed (FailValue e)), s, noted (LogError (LValue e)) m).

End Caught.

Section Tails.
Context {E : Engine} {W : Type} (h : Host W) {St : Type}.

(** [updatePkg] after the upgrade command completed without an error. *)
Definition verify_upgrade (name : string) (local : option string) (remote : string)
  (s : St) (m : Machine W) : Completion PkgUpdate * St * Machine W :=
  match run h (getPkgVersion name) s m with
  | (Raised e, s4, m4) => caught_update e s4 m4
  | (Returned updated, s4, m4) =>
    (Returned (if negb (strict_eq updated (Some remote))
               then PkgFailed (FailText (manual_line name (Some remote)))
               else PkgOk (success_line name local (Some remote)) local remote),
     s4, m4)
  end.

(** [updateGitPlugin] from the second reading of HEAD on. *)
Definition compare_heads (filePath : string) (time : N) (hash : string)
  (s : St) (m : Machine W) : Completion GitUpdate * St * Machine W :=
  match run h (getHash filePath None) s m with
  | (Raised e, s3, m3) => caught_pull e s3 m3
  | (Returned updatedHash, s3, m3) =>
    match run h (getCommit (one_commit filePath)) s3 (noted ClearTimeout m3) with
    | (Raised e, s4, m4) => caught_pull e s4 m4
    | (Returned commit, s4, m4) =>
      if String.eqb hash updatedHash
      then (Returned (GitFailed (FailText (unchanged_text time commit))), s4, m4)
      else (Returned (GitOk updated_text commit), s4,
            started h (ReqExec (getCommit_cmd (one_commit filePath)) (Some filePath)) m4)
    end
  end.

End Tails.

(** The rules of the event loop.  [PR g p] is what is known of a callback
    that waits, [T g t] of one before it starts, [J gs s m] of the closure
    variables and the machine while callbacks [gs] are not settled, and
    [Q e s m] of a throw that ends the wait. *)
Section LoopRules.
Context {W : Type} (h : Host W) {St : Type}.
Variables (G : Type) (mode : Gathering).
Variable PR : G -> Parked St -> Prop.
Variable wt : G -> nat.
Variable J : list G -> St -> Machine W -> Prop.
Variable Q : Thrown -> St -> Machine W -> Prop.
Variable T : G -> Async St unit -> Prop.

Definition step_ok : Prop :=
  forall gs1 g gs2 p s m a w,
    PR g p -> J (gs1 ++ g :: gs2) s m ->
    host_answer h (parked_on p) (world m) = (a, w) ->
    match advance h (resume p a) s (moved w m) with
    | (Waiting p', s1, m1) =>
      exists g', PR g' p' /\ wt g' < wt g /\ J (gs1 ++ g' :: gs2) s1 m1
    | (Settled (Returned _), s1, m1) => J (gs1 ++ gs2) s1 m1
    | (Settled (Raised e), s1, m1) =>
      match mode with
      | FailFast => Q e s1 m1
      | SettleAll => J (gs1 ++ gs2) s1 m1
      end
    end.

Definition start_ok : Prop :=
  forall gs1 g gs2 t s m,
    T g t -> J (gs1 ++ g :: gs2) s m ->
    match advance h t s m with
    | (Waiting p, s1, m1) =>
      exists g', PR g' p /\ wt g' <= wt g /\ J (gs1 ++ g' :: gs2) s1 m1
    | (Settled (Returned _), s1, m1) => J (gs1 ++ gs2) s1 m1
    | (Settled (Raised _), _, _) => False
    end.

End LoopRules.

(** The callbacks of [updateAllGitPlugin]: a callback is tagged with the
    name of its plugin and the number of requests it may still await. *)
Section Pulling.
Context {W : Type}.
Variables (cmd : string) (time : N) (names : list string).

Definition line_of (name line : string) : Prop :=
  exists r, may_return (update_of cmd time name) r /\ line = git_line name r.

Definition pulling (g : string * nat) (t : Async GitReport unit) : Prop :=
  reports (line_of (fst g)) t /\ awaits_at_most (S (snd g)) t.

Definition pulling_parked (g : string * nat) (p : Parked GitReport) : Prop :=
  forall a, reports (line_of (fst g)) (resume p a) /\ awaits_at_most (snd g) (resume p a).

End Pulling.

(** The calls of [updateGitPlugin] that [updateAllGitPlugin] makes, watched:
    the notes hold each plugin with what its call returned, in the order in
    which the calls ended. *)
Definition Outcomes : Type := list (string * GitUpdate).

Definition note (name : string) (r : GitUpdate) (done : Outcomes) : Outcomes :=
  (done ++ [(name, r)])%list.

(** The call for the plugin listed as [name], and the note of what it
    returned. *)
Definition watched (cmd : string) (time : N) (name : string) : Async Outcomes unit :=
  let name := replace "git:" EmptyString name in
  r <- updateGitPlugin ("./plugins/" ++ name) (Some cmd) (Some time) ;;
  modify (note name r).

(** The report holds the lines of the outcomes noted, in their order. *)
Definition reported (g : GitReport) (done : Outcomes) : Prop :=
  git_result g = map outcome_line done.

(** Two callbacks that go the same way, request by request, and whose writes
    keep [R] between the closure variables of the one and of the other. *)
Inductive shadows {S S' : Type} (R : S -> S' -> Prop)
  : Async S unit -> Async S' unit -> Prop :=
| shadows_ret : shadows R (Ret tt) (Ret tt)
| shadows_throw e : shadows R (Throw e) (Throw e)
| shadows_await q k k' :
    (forall a, shadows R (k a) (k' a)) -> shadows R (Await q k) (Await q k')
| shadows_detach q k k' :
    shadows R k k' -> shadows R (Detach q k) (Detach q k')
| shadows_exists p k k' :
    (forall b, shadows R (k b) (k' b)) -> shadows R (ExistsSync p k) (ExistsSync p k')
| shadows_emit ev k k' :
    shadows R k k' -> shadows R (Emit ev k) (Emit ev k')
| shadows_modify f f' k k' :
    (forall s s', R s s' -> R (f s) (f' s')) -> shadows R k k' ->
    shadows R (Modify f k) (Modify f' k').

Inductive parked_shadows {S S' : Type} (R : S -> S' -> Prop)
  : Parked S -> Parked S' -> Prop :=
| parked_shadows_on q k k' :
    (forall a, shadows R (k a) (k' a)) ->
    parked_shadows R {| parked_on := q; resume := k |} {| parked_on := q; resume := k' |}.

(** On every path the callback notes one outcome of the plugin [name], as
    its last step, and neither throws nor writes anything else. *)
Fixpoint notes (name : string) (t : Async Outcomes unit) : Prop :=
  match t with
  | Ret _ | Throw _ => False
  | Await q k => forall a, notes name (k a)
  | Detach _ k => notes name k
  | ExistsSync _ k => forall b, notes name (k b)
  | Emit _ k => notes name k
  | Modify f k => (exists r, forall done, f done = note name r done) /\ k = Ret tt
  end.

Definition watching (g : string * nat) (t : Async Outcomes unit) : Prop :=
  notes (fst g) t /\ awaits_at_most (S (snd g)) t.

Definition watching_parked (g : string * nat) (p : Parked Outcomes) : Prop :=
  forall a, notes (fst g) (resume p a) /\ awaits_at_most (snd g) (resume p a).

(** The outcomes noted after those of [before] are of the plugins of
    [names] whose calls ended; the others still wait. *)
Definition noted_after {W} (before : Outcomes) (names : list string)
  (gs : list (string * nat)) (done : Outcomes) (m : Machine W) : Prop :=
  exists later,
    done = (before ++ later)%list
    /\ Permutation (map fst later ++ map fst gs) names.

(** What [updateGitPlugin] returns before it runs a command, for a plugin
    whose path is missing or is no repository. *)
Definition precheck (files : string -> bool) (name : string) : option GitUpdate :=
  let filePath := "./plugins/" ++ name in
  if negb (files filePath) then Some (GitFailed (FailText "路径不存在"))
  else if negb (files (filePath ++ "/.git"))
       then Some (GitFailed (FailText "该路径不是一个git仓库"))
       else None.

(** The plugins whose call ends at once, with its outcome, and those that
    have to run a command, both in the order of the listing. *)
Definition at_once (files : string -> bool) (names : list string) : Outcomes :=
  flat_map (fun name => match precheck files name with
                        | Some r => [(name, r)]
                        | None => []
                        end) names.

Definition has_to_run (files : string -> bool) (names : list string) : list string :=
  filter (fun name => match precheck files name with
                      | Some _ => false
                      | None => true
                      end) names.

(** The callbacks of [updateAllPkg] in a world that does not change. *)
Section Probing.
Context {E : Engine} {W : Type}.
Variables (ans : Answers) (files : string -> bool).
Variables (pkg : option Package) (names : list string) (calls0 : list Request).

(** While every package is up to date: a callback is tagged with the number
    of requests it may still await. *)
Definition idle (n : nat) (t : Async Plan unit) : Prop :=
  keeps_cmd ans files t /\ awaits_at_most (S n) t /\ only_requests not_upgrade t.

Definition idle_parked (n : nat) (p : Parked Plan) : Prop :=
  keeps_cmd ans files (resume p (ans (parked_on p)))
  /\ (forall a, awaits_at_most n (resume p a))
  /\ (forall a, only_requests not_upgrade (resume p a)).

Definition nothing_planned (gs : list nat) (s : Plan) (m : Machine W) : Prop :=
  cmd s = cmd plan0 /\ filter is_upgrade (calls m) = calls0.

(** While some resolution throws: a callback is tagged with the listed name
    of its package and the number of requests it may still await. *)
Definition probing (g : string * nat) (t : Async Plan unit) : Prop :=
  t = probe pkg (fst g) /\ snd g = 2.

Definition probing_parked (g : string * nat) (p : Parked Plan) : Prop :=
  eval ans files (resume p (ans (parked_on p))) = eval ans files (probe pkg (fst g))
  /\ (forall a, awaits_at_most (snd g) (resume p a))
  /\ (forall a, only_requests not_upgrade (resume p a)).

(** One of the callbacks that wait will throw. *)
Definition doomed (gs : list (string * nat)) (s : Plan) (m : Machine W) : Prop :=
  (exists name e, In name (map fst gs) /\ eval ans files (probe pkg name) = Raised e)
  /\ Forall (fun name => In name names) (map fst gs)
  /\ filter is_upgrade (calls m) = calls0.

Definition rejected (e : Thrown) (s : Plan) (m : Machine W) : Prop :=
  (exists name, In name names /\ eval ans files (probe pkg name) = Raised e)
  /\ filter is_upgrade (calls m) = calls0.

End Probing.

(** Walks a body whose shape is known, case by case. *)
Ltac walk :=
  repeat (simpl; intros;
          match goal with
          | |- _ /\ _ => split
          | |- True => exact I
          | |- context [match error ?r with _ => _ end] => destruct (error r)
          | |- context [if ?b then _ else _] => destruct b
          end);
  auto.


(* ================================================================== *)
(** ** Vocabulary of the further statements *)
(* ================================================================== *)

(** A command run in the directory [dir]. *)
Definition in_directory (dir : string) (q : Request) : Prop :=
  exists c, q = ReqExec c (Some dir).

(** The command of [getTime]. *)
Definition time_cmd : string :=
  "git log -1 --format=%cd --date=format:" ++ dq ++ "%Y-%m-%d %H:%M:%S" ++ dq.

(** The requests of [checkGitPluginUpdate]: it fetches, asks for the status
    and reads the log, in the directory of the plugin. *)
Definition inspects (filePath : string) (q : Request) : Prop :=
  q = ReqExec "git fetch origin" (Some filePath)
  \/ q = ReqExec "git status -uno" (Some filePath)
  \/ q = ReqExec time_cmd (Some filePath)
  \/ exists n, (1 <= n)%N /\ q = ReqExec (log_branch n "origin") (Some filePath).

(** The requests of a version check of package [name] with tag [tag]. *)
Definition resolves (name tag : string) (q : Request) : Prop :=
  q = ReqExec (list_cmd name) None
  \/ q = ReqExec (show_cmd name tag) None
  \/ q = ReqRequire false.

(** The requests a call started: what [calls] holds after it, beyond what
    it held before. *)
Definition started_by {W} (m m' : Machine W) (new : list Request) : Prop :=
  calls m' = (calls m ++ new)%list.

(** The first and the last character of a string. *)
Definition first_char (s : string) : option ascii :=
  match s with String c _ => Some c | EmptyString => None end.

Fixpoint last_char (s : string) : option ascii :=
  match s with
  | EmptyString => None
  | String c EmptyString => Some c
  | String _ rest => last_char rest
  end.

(** The string begins or ends with white space. *)
Definition padded (s : string) : bool :=
  match first_char s, last_char s with
  | Some a, Some b => Node.is_space a || Node.is_space b
  | _, _ => false
  end.

(** The whole string is three numbers with dots between them. *)
Definition three_numbers (v : string) : bool :=
  match Node.semver_here v with
  | Some found => String.eqb found v
  | None => false
  end.

(** The characters with a meaning of their own in a regular expression. *)
Definition regex_special (c : ascii) : bool :=
  existsb (Ascii.eqb c)
          ["\"; "^"; "$"; "."; "|"; "?"; "*"; "+"; "("; ")"; "["; "]"; "{"; "}"]%char.

(** A package name the version pattern matches letter by letter. *)
Fixpoint literal (name : string) : bool :=
  match name with
  | EmptyString => true
  | String c rest => negb (regex_special c) && literal rest
  end.

(** The requests of [updatePkg]: those of the version check, and the
    upgrade of the package to some version. *)
Definition upgrades (name tag : string) (q : Request) : Prop :=
  resolves name tag q \/ exists remote, q = ReqExec (upgrade_cmd name remote) None.

(** The [data] of [checkGitPluginUpdate] for a repository that is up to
    date, and what stands for the time when it cannot be read. *)
Definition latest_text (time : string) : string :=
  "当前版本已是最新版本" ++ nl ++ "最后更新时间：" ++ time.

Definition time_unknown : string := "获取最后一次提交时间失败，请重试或更新Git~".

(** The last request started. *)
Definition last_call {W} (m : Machine W) : option Request :=
  last (map Some (calls m)) None.

(** The first line of the report of [updateAllPkg] when the upgrade command
    failed. *)
Definition failure_count_line (n : nat) : string :=
  "[更新失败] 更新数量: " ++ show_number (N.of_nat n).

(** The list command of a plugin as the registry names it. *)
Definition list_request (listed : string) : Request :=
  ReqExec (list_cmd (replace "npm:" EmptyString listed)) None.

(** A waiting callback, tagged with the number of requests it may still
    await once the one it waits for completes. *)
Definition awaiting {St} (g : string * nat) (p : Parked St) : Prop :=
  forall a, awaits_at_most (snd g) (resume p a).

(** A waiting callback that will start no upgrade. *)
Definition resolving {St} (g : string * nat) (p : Parked St) : Prop :=
  awaiting g p /\ forall a, only_requests not_upgrade (resume p a).

(** No upgrade was started beyond those of [calls0]. *)
Definition upgrades_are {W St} (calls0 : list Request)
  (gs : list (string * nat)) (s : St) (m : Machine W) : Prop :=
  filter is_upgrade (calls m) = calls0.

(** The lines kept for the log of [updateAllGitPlugin] are its heading and
    the lines of the report. *)
Definition tips_follow {W} (gs : list (string * nat)) (g : GitReport) (m : Machine W)
  : Prop :=
  git_tips g = (git_tips git_report0 ++ git_result g)%list.

(* ================================================================== *)
(** ** More hosts for the examples *)
(* ================================================================== *)

Module Scene.
Import Example.

(** Every command fails. *)
Definition offline (files : list string) : Host nat :=
  host (fun c _ => failed ("Command failed: " ++ c))
       (Returned (Some (manifest []))) (fun _ => []) first_pending files.

(** [foo] is not in the tree the list command prints; the manifest declares
    it. *)
Definition declared : Host nat :=
  host (fun c _ =>
          lookup [("npm list foo --depth=0", succeeded (tree []));
                  ("npm show foo version", succeeded ("1.3.0" ++ nl))] c)
       (Returned (Some (manifest [("foo", "^1.2.0")]))) (fun _ => []) first_pending [].

(** [foo] is behind, and the upgrade command fails. *)
Definition blocked : Host nat :=
  host (fun c _ =>
          lookup [("npm list foo --depth=0", succeeded (tree ["└── foo@1.2.3"]));
                  ("npm show foo version", succeeded ("1.3.0" ++ nl))] c)
       (Returned (Some (manifest []))) (fun _ => []) first_pending [].

(** The package [is-empty] is installed. *)
Definition named_empty : Host nat :=
  host (fun c _ =>
          lookup [("npm list is-empty --depth=0", succeeded (tree ["└── is-empty@1.2.0"]));
                  ("npm show is-empty version", succeeded ("1.2.0" ++ nl))] c)
       (Returned (Some (manifest [("is-empty", "^1.2.0")]))) (fun _ => [])
       first_pending [].

(** The repository [./plugins/alpha] with the status [status_text]. *)
Definition inspected (status_text : string) : Host nat :=
  host (fun c _ =>
          lookup [("git fetch origin", succeeded EmptyString);
                  ("git status -uno", succeeded status_text);
                  (time_cmd, succeeded "2024-11-03 10:00:00");
                  (log_branch 3 "origin", succeeded ("[11-03 10:00] fix typo " ++ nl))] c)
       (Returned None) (fun _ => []) first_pending
       ["./plugins/alpha"; "./plugins/alpha/.git"].

Definition status_synced : string :=
  "On branch main" ++ nl ++ "Your branch is up to date with 'origin/main'." ++ nl.

Definition status_behind : string :=
  "On branch main" ++ nl
  ++ "Your branch is behind 'origin/main' by 3 commits, and can be fast-forwarded." ++ nl.

(** The list of plugins cannot be read. *)
Definition no_registry : Host nat :=
  {| host_spawn := fun _ w => w;
     host_answer := fun q =>
       match q return nat -> Answer q * nat with
       | ReqExec c _ => fun w => (failed ("Command failed: " ++ c), S w)
       | ReqRequire _ => fun w => (Returned None, S w)
       | ReqPlugins _ => fun w => (Raised (ThrownError (new_Error "EACCES")), S w)
       end;
     host_pick := first_pending;
     host_existsSync := fun _ _ => false;
     host_logger := fun _ => true |}.

(** The list of plugins cannot be read, and no global [logger] is set. *)
Definition no_registry_no_logger : Host nat :=
  {| host_spawn := host_spawn no_registry;
     host_answer := host_answer no_registry;
     host_pick := host_pick no_registry;
     host_existsSync := host_existsSync no_registry;
     host_logger := fun _ => false |}.

End Scene.

(* ================================================================== *)
(** ** Running: general facts *)
(* ================================================================== *)

Lemma strict_eq_true (a b : option string) : strict_eq a b = true <-> a = b.
Proof.
  destruct a as [x|], b as [y|]; simpl; split; intros H;
    try discriminate; try reflexivity.
  - apply String.eqb_eq in H. now subst.
  - injection H as ->. apply String.eqb_refl.
Qed.

Lemma strict_eq_false (a b : option string) : strict_eq a b = false <-> a <> b.
Proof.
  rewrite <- strict_eq_true. destruct (strict_eq a b); split; congruence.
Qed.

Section RunFacts.
Context {W : Type} (h : Host W).

Lemma run_bind {St A B} (t : Async St A) (f : A -> Async St B) s m :
  run h (bind t f) s m =
  match run h t s m with
  | (Returned a, s1, m1) => run h (f a) s1 m1
  | (Raised e, s1, m1) => (Raised e, s1, m1)
  end.
Proof.
  revert s m. induction t as [a|e|q k IH|q k IH|p k IH|ev k IH|g k IH];
    intros s m; simpl; auto.
  destruct (host_answer h q _) as [a w]. apply IH.
Qed.

Lemma run_try_catch {St A} (t : Async St A) (handler : Thrown -> Async St A) s m :
  run h (try_catch t handler) s m =
  match run h t s m with
  | (Returned a, s1, m1) => (Returned a, s1, m1)
  | (Raised e, s1, m1) => run h (handler e) s1 m1
  end.
Proof.
  revert s m. induction t as [a|e|q k IH|q k IH|p k IH|ev k IH|g k IH];
    intros s m; simpl; auto.
  destruct (host_answer h q _) as [a w]. apply IH.
Qed.

Lemma only_requests_bind {St A B} P (t : Async St A) (f : A -> Async St B) :
  only_requests P t -> (forall a, only_requests P (f a)) ->
  only_requests P (bind t f).
Proof.
  intros Ht Hf. induction t; simpl in *; intuition.
Qed.

Lemma only_requests_try_catch {St A} P (t : Async St A) handler :
  only_requests P t -> (forall e, only_requests P (handler e)) ->
  only_requests P (try_catch t handler).
Proof.
  intros Ht Hf. induction t; simpl in *; intuition.
Qed.

(** A body that starts no request selected by [f] leaves the selected calls
    as they were. *)
Lemma run_keeps_calls {St A} (f : Request -> bool) (t : Async St A) s m :
  only_requests (fun q => f q = false) t ->
  filter f (calls (snd (run h t s m))) = filter f (calls m).
Proof.
  revert s m. induction t as [a|e|q k IH|q k IH|p k IH|ev k IH|g k IH];
    intros s m Ht; simpl in *; auto.
  - destruct Ht as [Hq Hk].
    destruct (host_answer h q _) as [a w].
    rewrite IH by auto. simpl. rewrite filter_app. simpl. rewrite Hq.
    apply app_nil_r.
  - destruct Ht as [Hq Hk]. rewrite IH by auto. simpl.
    rewrite filter_app. simpl. rewrite Hq. apply app_nil_r.
  - now rewrite IH.
Qed.

Lemma run_exec_bind {St B} c cwd (f : ExecReturn -> Async St B) s m :
  run h (bind (exec c cwd) f) s m =
  let q := ReqExec c cwd in
  let (r, w) := host_answer h q (world (started h q m)) in
  run h (f r) s (moved w (started h q m)).
Proof. reflexivity. Qed.

Lemma run_existsSync {St A} p (k : bool -> Async St A) s m :
  run h (ExistsSync p k) s m = run h (k (host_existsSync h p (world m))) s m.
Proof. reflexivity. Qed.

Lemma run_emit_bind {St A} ev (f : unit -> Async St A) s m :
  run h (bind (emit ev) f) s m = run h (f tt) s (noted ev m).
Proof. reflexivity. Qed.

End RunFacts.

(* ================================================================== *)
(** ** Precondition checks of the git functions *)
(* ================================================================== *)

(** C7.  On a path that does not exist [checkGitPluginUpdate] returns
    [{status: 'error', data: Error("路径不存在")}], and on an existing path
    without a [.git] directory [{status: 'error', data: Error("该路径不是一个git仓库")}];
    [updateGitPlugin] makes the same two checks and returns
    [{status: 'failed'}] with the same message as its [data]. *)
Theorem git_precondition_checks {E : Engine} {W} (h : Host W) {St}
  (filePath : string) (cmd : option string) (time : option N)
  (s : St) (m : Machine W) :
  (host_existsSync h filePath (world m) = false ->
   run h (checkGitPluginUpdate filePath time) s m
     = (Returned (GitCheckError (ThrownError (new_Error "路径不存在"))), s, m)
   /\ run h (updateGitPlugin filePath cmd time) s m
     = (Returned (GitFailed (FailText "路径不存在")), s, m))
  /\
  (host_existsSync h filePath (world m) = true ->
   host_existsSync h (filePath ++ "/.git") (world m) = false ->
   run h (checkGitPluginUpdate filePath time) s m
     = (Returned (GitCheckError (ThrownError (new_Error "该路径不是一个git仓库"))), s, m)
   /\ run h (updateGitPlugin filePath cmd time) s m
     = (Returned (GitFailed (FailText "该路径不是一个git仓库")), s, m)).
Proof.
  split.
  - intros Hno. unfold checkGitPluginUpdate, updateGitPlugin. simpl.
    rewrite Hno. simpl. auto.
  - intros Hyes Hno. unfold checkGitPluginUpdate, updateGitPlugin. simpl.
    rewrite Hyes. simpl. rewrite Hno. simpl. auto.
Qed.

Lemma git_precondition_checks_witness :
  (run (Example.silent []) (checkGitPluginUpdate (E:=Node.engine) "./plugins/gone" None) tt (boot 0)
     = (Returned (GitCheckError (ThrownError (new_Error "路径不存在"))), tt, boot 0)
   /\ run (Example.silent []) (@updateGitPlugin unit "./plugins/gone" None None) tt (boot 0)
     = (Returned (GitFailed (FailText "路径不存在")), tt, boot 0))
  /\
  (run (Example.silent ["./plugins/notes"]) (checkGitPluginUpdate (E:=Node.engine) "./plugins/notes" None) tt (boot 0)
     = (Returned (GitCheckError (ThrownError (new_Error "该路径不是一个git仓库"))), tt, boot 0)
   /\ run (Example.silent ["./plugins/notes"]) (@updateGitPlugin unit "./plugins/notes" None None) tt (boot 0)
     = (Returned (GitFailed (FailText "该路径不是一个git仓库")), tt, boot 0)).
Proof.
  split.
  - apply (git_precondition_checks (E:=Node.engine) (Example.silent []) "./plugins/gone" None None tt (boot 0)).
    reflexivity.
  - apply (git_precondition_checks (E:=Node.engine) (Example.silent ["./plugins/notes"]) "./plugins/notes" None None tt (boot 0));
      reflexivity.
Defined.

(* ================================================================== *)
(** ** The command line of getCommit *)
(* ================================================================== *)

Lemma run_getCommit_calls {W} (h : Host W) {St} (options : CommitOptions)
  (s : St) (m : Machine W) :
  calls (snd (run h (getCommit options) s m))
  = (calls m ++ [ReqExec (getCommit_cmd options) (Some (path options))])%list.
Proof.
  unfold getCommit. simpl.
  destruct (host_answer h _ _) as [r w].
  destruct (error r); reflexivity.
Qed.

(** C8, as the code has it.  When both a hash and a branch are supplied, the
    branch test comes second and overwrites the command: the command that
    runs is the query for the last [count] commits of the branch.  The query
    for the range from the hash to HEAD runs when a hash is supplied and no
    branch is. *)
Theorem getCommit_branch_overrides_hash {W} (h : Host W) {St}
  (options : CommitOptions) (s : St) (m : Machine W) :
  (truthy_opt (hash options) = true -> truthy_opt (branch options) = true ->
   calls (snd (run h (getCommit options) s m))
   = (calls m ++ [ReqExec (log_branch (default 1%N (count options)) (show (branch options)))
                          (Some (path options))])%list)
  /\
  (truthy_opt (hash options) = true -> truthy_opt (branch options) = false ->
   calls (snd (run h (getCommit options) s m))
   = (calls m ++ [ReqExec (log_since (show (hash options))) (Some (path options))])%list).
Proof.
  rewrite run_getCommit_calls. unfold getCommit_cmd.
  split; intros Hh Hb; rewrite Hh, Hb; reflexivity.
Qed.

Lemma getCommit_branch_overrides_hash_witness :
  calls (snd (run (Example.silent []) (getCommit Example.both_selected) tt (boot 0)))
  = [ReqExec (log_branch 1 "origin") (Some "./plugins/alpha")].
Proof.
  apply (proj1 (getCommit_branch_overrides_hash (Example.silent []) Example.both_selected tt (boot 0)));
    reflexivity.
Defined.

(** C8 as stated fails: with hash [abc1234] and branch [origin] the command
    that runs is not the range query from the hash to HEAD. *)
Lemma getCommit_hash_precedence_fails :
  calls (snd (run (Example.silent []) (getCommit Example.both_selected) tt (boot 0)))
  <> [ReqExec (log_since "abc1234") (Some "./plugins/alpha")].
Proof.
  vm_compute. discriminate.
Qed.

(* ================================================================== *)
(** ** npm packages: one package *)
(* ================================================================== *)

Section OnePackage.
Context {E : Engine} {W : Type} (h : Host W) {St : Type}.
Implicit Types (s : St) (m : Machine W).

Lemma run_checkPkgUpdate name s m :
  run h (checkPkgUpdate name) s m =
  match run h (getPkgVersion name) s m with
  | (Raised e, s1, m1) => caught_check e s1 m1
  | (Returned local, s1, m1) =>
    match run h (getRemotePkgVersion name None) s1 m1 with
    | (Raised e, s2, m2) => caught_check e s2 m2
    | (Returned remote, s2, m2) =>
      (Returned (if strict_eq local (Some remote) then CheckNo local
                 else CheckYes local remote), s2, m2)
    end
  end.
Proof.
  unfold checkPkgUpdate. rewrite run_try_catch, run_bind.
  destruct (run h (getPkgVersion name) s m) as [[[local|e] s1] m1]; [|reflexivity].
  rewrite run_bind.
  destruct (run h (getRemotePkgVersion name None) s1 m1) as [[[remote|e] s2] m2];
    [|reflexivity].
  destruct (strict_eq local (Some remote)); reflexivity.
Qed.

(** C2.  [checkPkgUpdate] always returns: a throw of either resolution comes
    back as [{status: 'error', error}]; when both resolve the answer is
    [{status: 'no', local}] exactly when the two strings are equal, and
    [{status: 'yes', local, remote}] exactly when they are not. *)
Theorem checkPkgUpdate_contract name s m :
  (exists r s' m', run h (checkPkgUpdate name) s m = (Returned r, s', m'))
  /\ (forall e s1 m1,
        run h (getPkgVersion name) s m = (Raised e, s1, m1) ->
        run h (checkPkgUpdate name) s m
        = (Returned (CheckError e), s1, noted (LogError (LValue e)) m1))
  /\ (forall local s1 m1 e s2 m2,
        run h (getPkgVersion name) s m = (Returned local, s1, m1) ->
        run h (getRemotePkgVersion name None) s1 m1 = (Raised e, s2, m2) ->
        run h (checkPkgUpdate name) s m
        = (Returned (CheckError e), s2, noted (LogError (LValue e)) m2))
  /\ (forall local remote s1 m1 s2 m2,
        run h (getPkgVersion name) s m = (Returned local, s1, m1) ->
        run h (getRemotePkgVersion name None) s1 m1 = (Returned remote, s2, m2) ->
        (run h (checkPkgUpdate name) s m = (Returned (CheckNo local), s2, m2)
         <-> local = Some remote)
        /\ (run h (checkPkgUpdate name) s m = (Returned (CheckYes local remote), s2, m2)
            <-> local <> Some remote)).
Proof.
  rewrite run_checkPkgUpdate. unfold caught_check.
  split; [|split; [|split]].
  - destruct (run h (getPkgVersion name) s m) as [[[local|e] s1] m1]; eauto.
    destruct (run h (getRemotePkgVersion name None) s1 m1) as [[[remote|e] s2] m2]; eauto.
  - intros e s1 m1 ->. reflexivity.
  - intros local s1 m1 e s2 m2 -> ->. reflexivity.
  - intros local remote s1 m1 s2 m2 -> ->.
    destruct (strict_eq local (Some remote)) eqn:Heq.
    + apply strict_eq_true in Heq. split; split; intros; congruence.
    + apply strict_eq_false in Heq. split; split; intros; congruence.
Qed.

Lemma run_updatePkg name tag s m :
  run h (updatePkg name tag) s m =
  match run h (getPkgVersion name) s m with
  | (Raised e, s1, m1) => caught_update e s1 m1
  | (Returned local, s1, m1) =>
    match run h (getRemotePkgVersion name (Some (default "latest" tag))) s1 m1 with
    | (Raised e, s2, m2) => caught_update e s2 m2
    | (Returned remote, s2, m2) =>
      if strict_eq local (Some remote) then
        (Returned (PkgFailed (FailText (no_update_line name local (Some remote)))), s2, m2)
      else
        let q := ReqExec (upgrade_cmd name remote) None in
        let (r, w3) := host_answer h q (world (started h q m2)) in
        match error r with
        | Some e => (Returned (PkgFailed (FailValue (ThrownError e))), s2,
                     moved w3 (started h q m2))
        | None => verify_upgrade h name local remote s2 (moved w3 (started h q m2))
        end
    end
  end.
Proof.
  unfold updatePkg, verify_upgrade, caught_update.
  rewrite run_try_catch, run_bind.
  destruct (run h (getPkgVersion name) s m) as [[[local|e] s1] m1]; [|reflexivity].
  rewrite run_bind.
  destruct (run h (getRemotePkgVersion name _) s1 m1) as [[[remote|e] s2] m2];
    [|reflexivity].
  destruct (strict_eq local (Some remote)); [reflexivity|].
  cbv iota. rewrite run_exec_bind. cbv zeta.
  destruct (host_answer h _ _) as [r w3].
  destruct (error r); [reflexivity|].
  rewrite run_bind.
  destruct (run h (getPkgVersion name) s2 _) as [[[updated|e] s4] m4]; [|reflexivity].
  destruct (negb (strict_eq updated (Some remote))); reflexivity.
Qed.

Lemma getPkgVersion_requests name :
  only_requests (fun q => is_upgrade q = false) (getPkgVersion (St:=St) name).
Proof.
  unfold getPkgVersion. simpl. split; [reflexivity|]. intros r.
  apply only_requests_bind.
  - unfold version_in_stdout.
    destruct (truthy (stdout r)); simpl; auto.
    destruct (_ || _); simpl; auto.
    destruct (exec_version name (stdout r)); simpl; auto.
    destruct (truthy group1); simpl; auto.
  - intros [v|]; simpl; auto.
    destruct (error r); simpl.
    + destruct (_ || _); simpl; auto.
    + split; [reflexivity|]. intros [p|e]; simpl; auto.
Qed.

Lemma getRemotePkgVersion_requests name tag :
  only_requests (fun q => is_upgrade q = false) (getRemotePkgVersion (St:=St) name tag).
Proof.
  unfold getRemotePkgVersion, show_cmd. simpl. split.
  - destruct (String.eqb _ _); reflexivity.
  - intros r. destruct (negb (status r)); simpl; auto.
    destruct (_ || _); simpl; auto.
Qed.

(** C1.  With local and remote resolved: when they are equal the result is
    [failed] and no upgrade command was started; when they differ and the
    upgrade command reports no error, the result is [ok] if the version
    resolved afterwards equals the remote one fetched before, and [failed]
    with the manual-update hint if it does not; and [ok] is returned in no
    other way. *)
Theorem updatePkg_contract name tag s m :
  (forall local remote s1 m1 s2 m2,
     run h (getPkgVersion name) s m = (Returned local, s1, m1) ->
     run h (getRemotePkgVersion name (Some (default "latest" tag))) s1 m1
       = (Returned remote, s2, m2) ->
     (local = Some remote ->
      run h (updatePkg name tag) s m
        = (Returned (PkgFailed (FailText (no_update_line name local (Some remote)))), s2, m2)
      /\ filter is_upgrade (calls m2) = filter is_upgrade (calls m))
     /\
     (local <> Some remote ->
      forall r w3 updated s4 m4,
        let q := ReqExec (upgrade_cmd name remote) None in
        host_answer h q (world (started h q m2)) = (r, w3) ->
        error r = None ->
        run h (getPkgVersion name) s2 (moved w3 (started h q m2))
          = (Returned updated, s4, m4) ->
        (updated = Some remote ->
         run h (updatePkg name tag) s m
           = (Returned (PkgOk (success_line name local (Some remote)) local remote), s4, m4))
        /\
        (updated <> Some remote ->
         run h (updatePkg name tag) s m
           = (Returned (PkgFailed (FailText (manual_line name (Some remote)))), s4, m4))))
  /\
  (forall data local remote s' m',
     run h (updatePkg name tag) s m = (Returned (PkgOk data local remote), s', m') ->
     exists s1 m1 s2 m2 r w3,
       let q := ReqExec (upgrade_cmd name remote) None in
       run h (getPkgVersion name) s m = (Returned local, s1, m1)
       /\ run h (getRemotePkgVersion name (Some (default "latest" tag))) s1 m1
          = (Returned remote, s2, m2)
       /\ local <> Some remote
       /\ host_answer h q (world (started h q m2)) = (r, w3)
       /\ error r = None
       /\ run h (getPkgVersion name) s2 (moved w3 (started h q m2))
          = (Returned (Some remote), s', m')).
Proof.
  rewrite run_updatePkg. split.
  - intros local remote s1 m1 s2 m2 Hl Hr. rewrite Hl, Hr. split.
    + intros Heq. apply strict_eq_true in Heq. rewrite Heq. split; [reflexivity|].
      pose proof (run_keeps_calls h is_upgrade (getPkgVersion name) s m
                    (getPkgVersion_requests name)) as K1.
      pose proof (run_keeps_calls h is_upgrade
                    (getRemotePkgVersion name (Some (default "latest" tag))) s1 m1
                    (getRemotePkgVersion_requests name _)) as K2.
      rewrite Hl in K1. rewrite Hr in K2. simpl in K1, K2. congruence.
    + intros Hne r w3 updated s4 m4 q Ha He Hu.
      apply strict_eq_false in Hne. rewrite Hne. cbv zeta. fold q.
      rewrite Ha, He. unfold verify_upgrade. rewrite Hu. split; intros Hup.
      * apply strict_eq_true in Hup. now rewrite Hup.
      * apply strict_eq_false in Hup. now rewrite Hup.
  - intros data local remote s' m'. unfold caught_update.
    destruct (run h (getPkgVersion name) s m) as [[[l|e] s1] m1] eqn:Hl; [|discriminate].
    destruct (run h (getRemotePkgVersion name _) s1 m1) as [[[rm|e] s2] m2] eqn:Hr;
      [|discriminate].
    destruct (strict_eq l (Some rm)) eqn:Heq; [discriminate|].
    cbv zeta.
    destruct (host_answer h _ _) as [r w3] eqn:Ha.
    destruct (error r) eqn:He; [discriminate|].
    unfold verify_upgrade, caught_update.
    destruct (run h (getPkgVersion name) s2 _) as [[[updated|e] s4] m4] eqn:Hu;
      [|discriminate].
    destruct (strict_eq updated (Some rm)) eqn:Hup; simpl; [|discriminate].
    intros H. injection H as <- <- <- <- <-.
    apply strict_eq_true in Hup. subst updated.
    apply strict_eq_false in Heq.
    exists s1, m1, s2, m2, r, w3. cbv zeta. auto 10.
Qed.

(** C10, as the code has it.  For a name that is not the name of a member
    of [Object.prototype]: when the output of the list command holds neither
    of the markers [empty] and [extraneous] and no version match, the runner
    reports no error, and the name is in none of the three maps of the
    manifest, [getPkgVersion] resolves to [undefined]; [checkPkgUpdate] then
    returns [{status: 'yes', local: undefined, remote}] whenever the remote
    version resolves. *)
Theorem getPkgVersion_undefined name s m r w1 pkg w2 :
  let q := ReqExec (list_cmd name) None in
  let m1 := moved w1 (started h q m) in
  let m2 := moved w2 (started h (ReqRequire false) m1) in
  prototype_member name = false ->
  host_answer h q (world (started h q m)) = (r, w1) ->
  error r = None ->
  includes "empty" (stdout r) = false ->
  includes "extraneous" (stdout r) = false ->
  exec_version name (stdout r) = RxNull ->
  host_answer h (ReqRequire false) (world (started h (ReqRequire false) m1))
    = (Returned pkg, w2) ->
  manifest_entry pkg dependencies name = None ->
  manifest_entry pkg devDependencies name = None ->
  manifest_entry pkg peerDependencies name = None ->
  run h (getPkgVersion name) s m = (Returned None, s, m2)
  /\ forall remote s3 m3,
       run h (getRemotePkgVersion name None) s m2 = (Returned remote, s3, m3) ->
       run h (checkPkgUpdate name) s m = (Returned (CheckYes None remote), s3, m3).
Proof.
  intros q m1 m2 _ Ha He Hempty Hextra Hrx Hp Hd Hv Hpe.
  assert (Hrun : run h (getPkgVersion name) s m = (Returned None, s, m2)).
  { unfold getPkgVersion. rewrite run_exec_bind. cbv zeta.
    fold q. rewrite Ha.
    unfold version_in_stdout. rewrite Hempty, Hextra, Hrx, He.
    subst m2 m1. simpl in Hp.
    destruct (truthy (stdout r)); simpl; rewrite Hp; simpl;
      rewrite Hd, Hv, Hpe; reflexivity. }
  split; [exact Hrun|].
  intros remote s3 m3 Hr. rewrite run_checkPkgUpdate, Hrun, Hr. reflexivity.
Qed.

End OnePackage.

(* ================================================================== *)
(** ** git repositories: one repository *)
(* ================================================================== *)

Section OneRepository.
Context {W : Type} (h : Host W) {St : Type}.
Implicit Types (s : St) (m : Machine W).

Lemma run_updateGitPlugin filePath cmd time s m :
  host_existsSync h filePath (world m) = true ->
  host_existsSync h (filePath ++ "/.git") (world m) = true ->
  run h (updateGitPlugin filePath cmd time) s m =
  match run h (getHash filePath None) s
            (noted (SetTimeout (default 120%N time * 1000)) m) with
  | (Raised e, s1, m1) => caught_pull e s1 m1
  | (Returned hash, s1, m1) =>
    let q := ReqExec (pull_cmd cmd) (Some filePath) in
    let (r, w2) := host_answer h q (world (started h q m1)) in
    match error r with
    | Some e => (Returned (GitFailed (FailText (pull_failed_text e))), s1,
                 noted ClearTimeout (moved w2 (started h q m1)))
    | None => compare_heads h filePath (default 120%N time) hash s1
                            (moved w2 (started h q m1))
    end
  end.
Proof.
  intros Hthere Hrepo. unfold updateGitPlugin.
  rewrite run_try_catch, run_existsSync, Hthere. cbv beta iota delta [negb].
  rewrite run_existsSync, Hrepo. cbv beta iota delta [negb].
  rewrite run_emit_bind, run_bind.
  destruct (run h (getHash filePath None) s _) as [[[hash|e] s1] m1]; [|reflexivity].
  rewrite run_exec_bind. cbv zeta.
  destruct (host_answer h _ _) as [r w2].
  destruct (error r) as [e|]; [reflexivity|].
  unfold compare_heads, caught_pull. rewrite run_bind.
  destruct (run h (getHash filePath None) s1 _) as [[[updatedHash|e] s3] m3];
    [|reflexivity].
  destruct (String.eqb hash updatedHash).
  - rewrite run_emit_bind, run_bind.
    destruct (run h (getCommit (one_commit filePath)) s3 _) as [[[commit|e] s4] m4];
      reflexivity.
  - rewrite run_emit_bind, run_bind.
    destruct (run h (getCommit (one_commit filePath)) s3 _) as [[[commit|e] s4] m4];
      reflexivity.
Qed.

(** C3, as the code has it.  For an existing repository [updateGitPlugin]
    returns [ok] exactly when the two short hashes of HEAD, read before and
    after the update command, differ and the commit log read after them
    reports no error.  It returns [failed] when the update command reports an
    error and when the two hashes are equal. *)
Theorem updateGitPlugin_ok_iff filePath cmd time s m :
  host_existsSync h filePath (world m) = true ->
  host_existsSync h (filePath ++ "/.git") (world m) = true ->
  (forall data commit s' m',
     run h (updateGitPlugin filePath cmd time) s m = (Returned (GitOk data commit), s', m')
     <-> data = updated_text /\ heads_differ_and_logged h filePath cmd time s m commit s' m')
  /\
  (forall hash s1 m1 r w2,
     let q := ReqExec (pull_cmd cmd) (Some filePath) in
     run h (getHash filePath None) s (noted (SetTimeout (default 120%N time * 1000)) m)
       = (Returned hash, s1, m1) ->
     host_answer h q (world (started h q m1)) = (r, w2) ->
     (forall e, error r = Some e ->
        run h (updateGitPlugin filePath cmd time) s m
        = (Returned (GitFailed (FailText (pull_failed_text e))), s1,
           noted ClearTimeout (moved w2 (started h q m1))))
     /\
     (error r = None ->
      forall s3 m3,
        run h (getHash filePath None) s1 (moved w2 (started h q m1))
          = (Returned hash, s3, m3) ->
        exists data s' m',
          run h (updateGitPlugin filePath cmd time) s m = (Returned (GitFailed data), s', m'))).
Proof.
  intros Hthere Hrepo. rewrite (run_updateGitPlugin _ _ _ _ _ Hthere Hrepo).
  split.
  - intros data commit s' m'. unfold heads_differ_and_logged. split.
    + destruct (run h (getHash filePath None) s _) as [[[hash|e] s1] m1] eqn:H1;
        [|discriminate].
      cbv zeta. destruct (host_answer h _ _) as [r w2] eqn:H2.
      destruct (error r) eqn:H3; [discriminate|].
      unfold compare_heads, caught_pull.
      destruct (run h (getHash filePath None) s1 _) as [[[updatedHash|e] s3] m3] eqn:H4;
        [|discriminate].
      destruct (run h (getCommit _) s3 _) as [[[c|e] s4] m4] eqn:H5; [|discriminate].
      destruct (String.eqb hash updatedHash) eqn:H6; [discriminate|].
      intros H. injection H as <- <- <- <-. split; [reflexivity|].
      apply String.eqb_neq in H6.
      exists hash, s1, m1, r, w2, updatedHash, s3, m3, m4. cbv zeta. auto 10.
    + intros [-> (hash & s1 & m1 & r & w2 & updatedHash & s3 & m3 & m4 & H)].
      cbv zeta in H. destruct H as (H1 & H2 & H3 & H4 & H6 & H5 & ->).
      rewrite H1. cbv zeta. rewrite H2, H3. unfold compare_heads. rewrite H4, H5.
      apply String.eqb_neq in H6. rewrite H6. reflexivity.
  - intros hash s1 m1 r w2 q H1 H2. rewrite H1. cbv zeta. fold q. rewrite H2.
    split.
    + intros e ->. reflexivity.
    + intros -> s3 m3 H4. unfold compare_heads, caught_pull. rewrite H4.
      destruct (run h (getCommit _) s3 _) as [[[c|e] s4] m4]; eauto.
      rewrite String.eqb_refl. eauto.
Qed.

End OneRepository.

(* ================================================================== *)
(** ** The event loop: general facts *)
(* ================================================================== *)

Lemma nth_middle_of {P} (ps1 : list P) p ps2 d :
  nth (length ps1) (ps1 ++ p :: ps2) d = p.
Proof. induction ps1; simpl; auto. Qed.

Lemma replace_nth_middle {P} (ps1 : list P) p ps2 x :
  replace_nth (length ps1) x (ps1 ++ p :: ps2) = (ps1 ++ x :: ps2)%list.
Proof. induction ps1; simpl; congruence. Qed.

Lemma remove_nth_middle {P} (ps1 : list P) p ps2 :
  remove_nth (length ps1) (ps1 ++ p :: ps2) = (ps1 ++ ps2)%list.
Proof. induction ps1; simpl; congruence. Qed.

Lemma Forall2_pick {G P} (R : G -> P -> Prop) (i : nat) :
  forall gs ps, Forall2 R gs ps -> i < length ps ->
  exists gs1 g gs2 ps1 p ps2,
    gs = (gs1 ++ g :: gs2)%list /\ ps = (ps1 ++ p :: ps2)%list
    /\ length ps1 = i
    /\ Forall2 R gs1 ps1 /\ R g p /\ Forall2 R gs2 ps2.
Proof.
  induction i as [|i IH]; intros gs ps HF Hlt.
  - destruct HF as [|g p gs ps Hgp HF]; [simpl in Hlt; lia|].
    exists [], g, gs, [], p, ps. simpl. repeat split; auto.
  - destruct HF as [|g0 p0 gs ps Hgp HF]; [simpl in Hlt; lia|].
    simpl in Hlt. destruct (IH gs ps HF ltac:(lia))
      as (gs1 & g & gs2 & ps1 & p & ps2 & -> & -> & H0 & H1 & H2 & H3).
    exists (g0 :: gs1), g, gs2, (p0 :: ps1), p, ps2. simpl.
    rewrite H0. repeat split; auto.
Qed.

Lemma load_app {G} (wt : G -> nat) gs1 gs2 :
  load wt (gs1 ++ gs2) = load wt gs1 + load wt gs2.
Proof. unfold load. now rewrite map_app, list_sum_app. Qed.

Lemma load_cons {G} (wt : G -> nat) g gs :
  load wt (g :: gs) = S (wt g) + load wt gs.
Proof. reflexivity. Qed.

Section Pool.
Context {W : Type} (h : Host W) {St : Type}.

Section Rules.
Variables (G : Type) (mode : Gathering).
Variable PR : G -> Parked St -> Prop.
Variable wt : G -> nat.
Variable J : list G -> St -> Machine W -> Prop.
Variable Q : Thrown -> St -> Machine W -> Prop.
Variable T : G -> Async St unit -> Prop.

Lemma drain_rule (step : step_ok h G mode PR wt J Q) fuel :
  forall gs ps s m,
    Forall2 PR gs ps -> J gs s m -> load wt gs <= fuel ->
    exists c s' m',
      drain h mode fuel ps s m = Some (c, s', m')
      /\ match c with
         | Returned _ => J [] s' m'
         | Raised e => mode = FailFast /\ Q e s' m'
         end.
Proof.
  induction fuel as [|fuel IH]; intros gs ps s m HF HJ Hfuel.
  - destruct HF as [|g p gs ps Hgp HF].
    + exists (Returned tt), s, m. simpl. auto.
    + rewrite load_cons in Hfuel. lia.
  - destruct ps as [|p0 ps0].
    + inversion HF; subst. exists (Returned tt), s, m. simpl. auto.
    + cbn [drain].
      set (ps := p0 :: ps0) in *.
      set (i := Nat.modulo (host_pick h (map parked_on ps) (world m)) (length ps)).
      assert (Hi : i < length ps).
      { apply Nat.mod_upper_bound. subst ps. simpl. lia. }
      destruct (Forall2_pick PR i gs ps HF Hi)
        as (gs1 & g & gs2 & ps1 & p & ps2 & Egs & Eps & Hlen & H1 & H2 & H3).
      rewrite Eps, <- Hlen. cbv zeta.
      rewrite nth_middle_of.
      destruct (host_answer h (parked_on p) (world m)) as [a w] eqn:Ha.
      subst gs.
      pose proof (step gs1 g gs2 p s m a w H2 HJ Ha) as Hs.
      rewrite load_app, load_cons in Hfuel.
      destruct (advance h (resume p a) s (moved w m)) as [[[c|p'] s1] m1];
        rewrite ?replace_nth_middle, ?remove_nth_middle.
      * assert (Hrest : Forall2 PR (gs1 ++ gs2) (ps1 ++ ps2)).
        { apply Forall2_app; auto. }
        assert (Hload : load wt (gs1 ++ gs2) <= fuel).
        { rewrite load_app. lia. }
        destruct c as [u|e].
        -- apply (IH _ _ _ _ Hrest Hs Hload).
        -- destruct mode.
           ++ exists (Raised e), s1, m1. auto.
           ++ apply (IH _ _ _ _ Hrest Hs Hload).
      * destruct Hs as (g' & Hg' & Hwt & HJ').
        assert (Hrest : Forall2 PR (gs1 ++ g' :: gs2) (ps1 ++ p' :: ps2)).
        { apply Forall2_app; auto. }
        apply (IH _ _ _ _ Hrest HJ').
        rewrite load_app, load_cons. lia.
Qed.

Lemma launch_rule (start : start_ok h G PR wt J T) :
  forall ts gs waiting s m,
    Forall2 T gs ts -> J (waiting ++ gs) s m ->
    exists ps gs' s1 m1,
      launch h ts s m = (ps, [], s1, m1)
      /\ Forall2 PR gs' ps /\ J (waiting ++ gs') s1 m1
      /\ load wt gs' <= load wt gs.
Proof.
  induction ts as [|t ts IH]; intros gs waiting s m HF HJ.
  - inversion HF; subst. exists [], [], s, m. simpl. auto.
  - destruct gs as [|g gs]; [inversion HF|].
    apply Forall2_cons_iff in HF. destruct HF as [Ht HF].
    pose proof (start waiting g gs t s m Ht HJ) as Hs.
    cbn [launch].
    destruct (advance h t s m) as [[[c|p] s1] m1].
    + destruct c as [u|e]; [|contradiction].
      destruct (IH gs waiting s1 m1 HF Hs) as (ps & gs' & s2 & m2 & E & HP & HJ' & Hl).
      exists ps, gs', s2, m2. rewrite load_cons. repeat split; auto. lia.
    + destruct Hs as (g' & Hg' & Hwt & HJ1).
      replace (waiting ++ g' :: gs)%list with ((waiting ++ [g']) ++ gs)%list in HJ1
        by now rewrite <- app_assoc.
      destruct (IH gs (waiting ++ [g'])%list s1 m1 HF HJ1)
        as (ps & gs' & s2 & m2 & E & HP & HJ' & Hl).
      exists (p :: ps), (g' :: gs'), s2, m2. rewrite E.
      rewrite <- app_assoc in HJ'. rewrite !load_cons.
      repeat split; auto. lia.
Qed.

(** The rule of [gather]: with enough fuel it ends, with every callback
    settled or, under [Promise.all], with a throw. *)
Lemma gather_rule (start : start_ok h G PR wt J T)
  (step : step_ok h G mode PR wt J Q) fuel ts gs s m :
  Forall2 T gs ts -> J gs s m -> load wt gs <= fuel ->
  exists c s' m',
    gather h mode fuel ts s m = Some (c, s', m')
    /\ match c with
       | Returned _ => J [] s' m'
       | Raised e => mode = FailFast /\ Q e s' m'
       end.
Proof.
  intros HF HJ Hfuel.
  destruct (launch_rule start ts gs [] s m HF HJ)
    as (ps & gs' & s1 & m1 & E & HP & HJ' & Hl).
  unfold gather. rewrite E.
  replace (match mode with FailFast | _ => drain h mode fuel ps s1 m1 end)
    with (drain h mode fuel ps s1 m1) by now destruct mode.
  apply (drain_rule step fuel gs' ps s1 m1 HP HJ'). lia.
Qed.

End Rules.
End Pool.

(* ================================================================== *)
(** ** git repositories: all of them *)
(* ================================================================== *)

Lemma no_modify_bind {St A B} (t : Async St A) (f : A -> Async St B) :
  no_modify t -> (forall a, no_modify (f a)) -> no_modify (bind t f).
Proof. intros Ht Hf. induction t; simpl in *; auto. Qed.

Lemma quiet_try_catch {St A} (t : Async St A) handler :
  no_modify t -> (forall e, quiet (handler e)) -> quiet (try_catch t handler).
Proof. intros Ht Hh. induction t; simpl in *; auto; contradiction. Qed.

Lemma reports_bind {A} P (u : Async GitReport A) (f : A -> Async GitReport unit) :
  quiet u -> (forall r, may_return u r -> reports P (f r)) -> reports P (bind u f).
Proof.
  intros Hq Hf. induction u as [a|e|q k IH|q k IH|p k IH|ev k IH|g k IH];
    simpl in *; try contradiction; eauto.
Qed.

Lemma awaits_at_most_bind {St A B} n (t : Async St A) (f : A -> Async St B) :
  awaits_at_most n t -> (forall a, awaits_at_most 0 (f a)) ->
  awaits_at_most n (bind t f).
Proof.
  revert n. induction t as [a|e|q k IH|q k IH|p k IH|ev k IH|g k IH];
    intros n Ht Hf; simpl in *; auto.
  - specialize (Hf a). revert Hf. generalize (f a). clear.
    intros t. revert n. induction t; intros n Ht; simpl in *; auto; contradiction.
  - destruct n; [contradiction|]. auto.
Qed.

Lemma updateGitPlugin_quiet {St} filePath cmd time :
  quiet (updateGitPlugin (St:=St) filePath cmd time).
Proof.
  unfold updateGitPlugin, getHash, getCommit, exec, emit. walk.
Qed.

Lemma updateGitPlugin_awaits {St} filePath cmd time :
  awaits_at_most 4 (updateGitPlugin (St:=St) filePath cmd time).
Proof.
  unfold updateGitPlugin, getHash, getCommit, exec, emit. walk.
Qed.

Section AllRepositories.
Context {W : Type} (h : Host W).

Lemma advance_reports P n (t : Async GitReport unit) s m :
  reports P t -> awaits_at_most n t ->
  match advance h t s m with
  | (Waiting p, s1, m1) =>
    s1 = s /\ exists n', n = S n'
                         /\ forall a, reports P (resume p a)
                                      /\ awaits_at_most n' (resume p a)
  | (Settled (Returned _), s1, m1) => exists line, P line /\ s1 = push_line line s
  | (Settled (Raised _), _, _) => False
  end.
Proof.
  revert s m. induction t as [a|e|q k IH|q k IH|p k IH|ev k IH|g k IH];
    intros s m Hr Hb; simpl in *.
  - contradiction.
  - contradiction.
  - destruct n as [|n']; [contradiction|]. split; [reflexivity|].
    exists n'. split; [reflexivity|]. intros a. split; auto.
  - apply IH; auto.
  - apply IH; auto.
  - apply IH; auto.
  - destruct Hr as [(line & Hline & Hg) ->]. simpl.
    exists line. split; auto.
Qed.

Lemma pull_pulling cmd time name :
  pulling cmd time (replace "git:" EmptyString name, 3) (pull cmd time name).
Proof.
  split; simpl fst; simpl snd.
  - unfold pull. apply reports_bind.
    + apply updateGitPlugin_quiet.
    + intros r Hr. simpl. split; [|reflexivity].
      exists (git_line (replace "git:" EmptyString name) r). split; [|reflexivity].
      exists r. split; [exact Hr|reflexivity].
  - unfold pull. apply awaits_at_most_bind.
    + apply updateGitPlugin_awaits.
    + intros r. exact I.
Qed.

End AllRepositories.

(* ------------------------------------------------------------------ *)
(** *** Two loops in step *)

Lemma nth_at {P} i (ps1 : list P) p ps2 d :
  length ps1 = i -> nth i (ps1 ++ p :: ps2) d = p.
Proof. intros <-. apply nth_middle_of. Qed.

Lemma replace_nth_at {P} i (ps1 : list P) p ps2 x :
  length ps1 = i -> replace_nth i x (ps1 ++ p :: ps2) = (ps1 ++ x :: ps2)%list.
Proof. intros <-. apply replace_nth_middle. Qed.

Lemma remove_nth_at {P} i (ps1 : list P) p ps2 :
  length ps1 = i -> remove_nth i (ps1 ++ p :: ps2) = (ps1 ++ ps2)%list.
Proof. intros <-. apply remove_nth_middle. Qed.

Section Lockstep.
Context {W : Type} (h : Host W) {S S' : Type} (R : S -> S' -> Prop).

Lemma advance_shadows t t' :
  shadows R t t' ->
  forall s s' m, R s s' ->
    match advance h t s m, advance h t' s' m with
    | (Settled c, s1, m1), (Settled c', s1', m1') => c = c' /\ m1 = m1' /\ R s1 s1'
    | (Waiting p, s1, m1), (Waiting p', s1', m1') =>
      parked_shadows R p p' /\ m1 = m1' /\ R s1 s1'
    | _, _ => False
    end.
Proof.
  induction 1 as [|e|q k k' Hk IH|q k k' Hk IH|p k k' Hk IH|ev k k' Hk IH
                  |f f' k k' Hf Hk IH]; intros s s' m HR; simpl.
  - auto.
  - auto.
  - split; [constructor; exact Hk|auto].
  - apply IH, HR.
  - apply IH, HR.
  - apply IH, HR.
  - apply IH, Hf, HR.
Qed.

Lemma launch_shadows ts ts' :
  Forall2 (shadows R) ts ts' ->
  forall s s' m, R s s' ->
    match launch h ts s m, launch h ts' s' m with
    | (ps, es, s1, m1), (ps', es', s1', m1') =>
      Forall2 (parked_shadows R) ps ps' /\ es = es' /\ m1 = m1' /\ R s1 s1'
    end.
Proof.
  induction 1 as [|t t' ts ts' Ht HF IH]; intros s s' m HR; cbn [launch].
  - auto.
  - pose proof (advance_shadows t t' Ht s s' m HR) as Ha.
    destruct (advance h t s m) as [[[c|p] s1] m1];
      destruct (advance h t' s' m) as [[[c'|p'] s1'] m1']; try contradiction.
    + destruct Ha as (<- & <- & HR1).
      specialize (IH s1 s1' m1 HR1).
      destruct c as [u|e].
      * exact IH.
      * destruct (launch h ts s1 m1) as [[[ps es] s2] m2].
        destruct (launch h ts' s1' m1) as [[[ps' es'] s2'] m2'].
        destruct IH as (H1 & -> & H3 & H4). auto.
    + destruct Ha as (Hp & <- & HR1).
      specialize (IH s1 s1' m1 HR1).
      destruct (launch h ts s1 m1) as [[[ps es] s2] m2].
      destruct (launch h ts' s1' m1) as [[[ps' es'] s2'] m2'].
      destruct IH as (H1 & H2 & H3 & H4). auto.
Qed.

Lemma parked_shadows_on_same ps ps' :
  Forall2 (parked_shadows R) ps ps' -> map parked_on ps = map parked_on ps'.
Proof.
  induction 1 as [|p p' ps ps' Hp HF IH]; [reflexivity|].
  simpl. rewrite IH. destruct Hp. reflexivity.
Qed.

Lemma drain_shadows mode fuel :
  forall ps ps' s s' m,
    Forall2 (parked_shadows R) ps ps' -> R s s' ->
    match drain h mode fuel ps s m, drain h mode fuel ps' s' m with
    | Some (c, s1, m1), Some (c', s1', m1') => c = c' /\ m1 = m1' /\ R s1 s1'
    | None, None => True
    | _, _ => False
    end.
Proof.
  induction fuel as [|fuel IH]; intros ps ps' s s' m HF HR.
  - destruct HF; simpl; auto.
  - destruct HF as [|p0 p0' ps0 ps0' Hp0 HF0]; [simpl; auto|].
    assert (HF : Forall2 (parked_shadows R) (p0 :: ps0) (p0' :: ps0'))
      by (constructor; assumption).
    cbn [drain].
    rewrite <- (parked_shadows_on_same _ _ HF).
    rewrite <- (Forall2_length HF).
    set (ps := p0 :: ps0) in *. set (ps' := p0' :: ps0') in *.
    set (i := Nat.modulo (host_pick h (map parked_on ps) (world m)) (length ps)).
    assert (Hi : i < length ps').
    { rewrite <- (Forall2_length HF). apply Nat.mod_upper_bound.
      subst ps. simpl. lia. }
    destruct (Forall2_pick (parked_shadows R) i ps ps' HF Hi)
      as (ps1 & p & ps2 & ps1' & p' & ps2' & Eps & Eps' & Hlen & H1 & H2 & H3).
    assert (Hlen1 : length ps1 = i) by (rewrite (Forall2_length H1); exact Hlen).
    rewrite Eps, Eps'. cbv zeta.
    rewrite (nth_at i ps1 p ps2 p0 Hlen1), (nth_at i ps1' p' ps2' p0' Hlen).
    destruct H2 as [q k k' Hk]. cbn [parked_on resume].
    destruct (host_answer h q (world m)) as [a w].
    pose proof (advance_shadows (k a) (k' a) (Hk a) s s' (moved w m) HR) as Ha.
    destruct (advance h (k a) s (moved w m)) as [[[c|r] s1] m1];
      destruct (advance h (k' a) s' (moved w m)) as [[[c'|r'] s1'] m1'];
      try contradiction.
    + destruct Ha as (<- & <- & HR1).
      rewrite (remove_nth_at i ps1 _ ps2 Hlen1), (remove_nth_at i ps1' _ ps2' Hlen).
      assert (Hrest : Forall2 (parked_shadows R) (ps1 ++ ps2) (ps1' ++ ps2'))
        by (apply Forall2_app; assumption).
      destruct c as [u|e].
      * apply IH; assumption.
      * destruct mode.
        -- auto.
        -- apply IH; assumption.
    + destruct Ha as (Hr & <- & HR1).
      rewrite (replace_nth_at i ps1 _ ps2 r Hlen1),
              (replace_nth_at i ps1' _ ps2' r' Hlen).
      apply IH; [|assumption].
      apply Forall2_app; [assumption|]. constructor; assumption.
Qed.

Lemma gather_shadows mode fuel ts ts' s s' m :
  Forall2 (shadows R) ts ts' -> R s s' ->
  match gather h mode fuel ts s m, gather h mode fuel ts' s' m with
  | Some (c, s1, m1), Some (c', s1', m1') => c = c' /\ m1 = m1' /\ R s1 s1'
  | None, None => True
  | _, _ => False
  end.
Proof.
  intros HF HR. unfold gather.
  pose proof (launch_shadows ts ts' HF s s' m HR) as Hl.
  destruct (launch h ts s m) as [[[ps es] s1] m1].
  destruct (launch h ts' s' m) as [[[ps' es'] s1'] m1'].
  destruct Hl as (Hps & <- & <- & HR1).
  destruct mode.
  - destruct es as [|e es].
    + apply drain_shadows; assumption.
    + auto.
  - apply drain_shadows; assumption.
Qed.

End Lockstep.

(* ------------------------------------------------------------------ *)
(** *** The calls of updateGitPlugin, watched *)

Lemma notes_bind {A} name (u : Async Outcomes A) (f : A -> Async Outcomes unit) :
  quiet u -> (forall r, notes name (f r)) -> notes name (bind u f).
Proof.
  intros Hq Hf. induction u as [a|e|q k IH|q k IH|p k IH|ev k IH|g k IH];
    simpl in *; try contradiction; eauto.
Qed.

Lemma watched_watching cmd time name :
  watching (replace "git:" EmptyString name, 3) (watched cmd time name).
Proof.
  split; simpl fst; simpl snd.
  - unfold watched. apply notes_bind.
    + apply updateGitPlugin_quiet.
    + intros r. simpl. split; [|reflexivity]. exists r. reflexivity.
  - unfold watched. apply awaits_at_most_bind.
    + apply updateGitPlugin_awaits.
    + intros r. exact I.
Qed.

(** The callback of [updateAllGitPlugin] goes the way of the watched call,
    and pushes the line of the outcome where that one notes the outcome. *)
Lemma pull_shadows cmd time name :
  shadows reported (pull cmd time name) (watched cmd time name).
Proof.
  unfold pull, watched, updateGitPlugin, getHash, getCommit, exec, emit, modify.
  repeat (simpl;
          match goal with
          | |- shadows _ (Ret _) (Ret _) => constructor
          | |- shadows _ (ExistsSync _ _) (ExistsSync _ _) => constructor; intros
          | |- shadows _ (Await _ _) (Await _ _) => constructor; intros
          | |- shadows _ (Detach _ _) (Detach _ _) => constructor
          | |- shadows _ (Emit _ _) (Emit _ _) => constructor
          | |- shadows _ (Modify _ _) (Modify _ _) =>
            constructor; [intros g done Hg; unfold reported, push_line, note in *;
                          cbn [git_result]; rewrite Hg, map_app; reflexivity|]
          | |- context [match error ?r with _ => _ end] => destruct (error r)
          | |- context [if ?b then _ else _] => destruct b
          end).
Qed.

Section Watching.
Context {W : Type} (h : Host W).

Lemma advance_notes name n (t : Async Outcomes unit) s m :
  notes name t -> awaits_at_most n t ->
  match advance h t s m with
  | (Waiting p, s1, m1) =>
    s1 = s /\ exists n', n = S n'
                         /\ forall a, notes name (resume p a)
                                      /\ awaits_at_most n' (resume p a)
  | (Settled (Returned _), s1, m1) => exists r, s1 = note name r s
  | (Settled (Raised _), _, _) => False
  end.
Proof.
  revert s m. induction t as [a|e|q k IH|q k IH|p k IH|ev k IH|g k IH];
    intros s m Hr Hb; simpl in *.
  - contradiction.
  - contradiction.
  - destruct n as [|n']; [contradiction|]. split; [reflexivity|].
    exists n'. split; [reflexivity|]. intros a. split; auto.
  - apply IH; auto.
  - apply IH; auto.
  - apply IH; auto.
  - destruct Hr as [(r & Hg) ->]. simpl. exists r. apply Hg.
Qed.

Section Invariant.
Variables (before : Outcomes) (names : list string).

Lemma noted_settle gs1 g gs2 s (m m' : Machine W) r :
  noted_after before names (gs1 ++ g :: gs2) s m ->
  noted_after before names (gs1 ++ gs2) (note (fst g) r s) m'.
Proof.
  intros (later & -> & Hperm).
  exists (later ++ [(fst g, r)])%list. split.
  - unfold note. now rewrite app_assoc.
  - rewrite !map_app in *. simpl in *. rewrite <- app_assoc. simpl.
    etransitivity; [|exact Hperm].
    apply Permutation_app_head.
    apply (Permutation_middle (map fst gs1) (map fst gs2) (fst g)).
Qed.

Lemma watching_start :
  start_ok h (string * nat) watching_parked snd (noted_after before names) watching.
Proof.
  intros gs1 g gs2 t s m [Hr Hb] HJ.
  pose proof (advance_notes _ _ t s m Hr Hb) as H.
  destruct (advance h t s m) as [[[c|p] s1] m1].
  - destruct c as [u|e]; [|contradiction].
    destruct H as (r & ->). eapply noted_settle; eauto.
  - destruct H as (-> & n' & Hn & Ha). injection Hn as <-.
    exists g. split; [exact Ha|]. split; [lia|].
    destruct HJ as (later & ? & ?). exists later. auto.
Qed.

Lemma watching_step :
  step_ok h (string * nat) SettleAll watching_parked snd (noted_after before names)
          (fun _ _ _ => False).
Proof.
  intros gs1 g gs2 p s m a w Hp HJ Ha.
  destruct (Hp a) as [Hr Hb].
  pose proof (advance_notes _ _ (resume p a) s (moved w m) Hr Hb) as H.
  destruct (advance h (resume p a) s (moved w m)) as [[[c|p'] s1] m1].
  - destruct c as [u|e]; [|contradiction].
    destruct H as (r & ->). eapply noted_settle; eauto.
  - destruct H as (-> & n' & Hn & Ha').
    exists (fst g, n'). simpl. split; [exact Ha'|]. split; [lia|].
    destruct HJ as (later & ? & Hperm). exists later.
    rewrite !map_app in *. simpl in *. auto.
Qed.

End Invariant.

(** The watched calls come to an end, whatever the commands answer and in
    whatever order they complete, with one note for each plugin. *)
Lemma gather_watched cmd time listing fuel (m : Machine W) :
  4 * length listing <= fuel ->
  exists done m',
    gather h SettleAll fuel (map (watched cmd time) listing) [] m
      = Some (Returned tt, done, m')
    /\ Permutation (map fst done) (bare "git:" listing).
Proof.
  intros Hfuel.
  set (gs := map (fun name => (replace "git:" EmptyString name, 3)) listing).
  assert (HF : Forall2 watching gs (map (watched cmd time) listing)).
  { subst gs. clear Hfuel. induction listing as [|x l IH]; simpl; constructor.
    - apply watched_watching.
    - apply IH. }
  assert (HJ : noted_after [] (bare "git:" listing) gs [] m).
  { exists []. split; [reflexivity|]. simpl.
    subst gs. unfold bare. rewrite map_map. simpl. apply Permutation_refl. }
  assert (Hload : load snd gs <= fuel).
  { assert (Hl : load snd gs = 4 * length listing).
    { subst gs. unfold load. rewrite map_map. simpl.
      clear. induction listing as [|x l IH]; simpl in *; lia. }
    lia. }
  destruct (gather_rule h _ SettleAll _ _ _ _ _
              (watching_start [] (bare "git:" listing))
              (watching_step [] (bare "git:" listing))
              fuel _ gs [] m HF HJ Hload)
    as (c & s' & m' & E & Hpost).
  destruct c as [[]|e]; [|destruct Hpost as [Hm _]; discriminate].
  destruct Hpost as (later & -> & Hperm).
  exists later, m'. simpl in Hperm. rewrite app_nil_r in Hperm. auto.
Qed.

(** With a file system that stays as it is, the calls of the plugins whose
    path is missing or is no repository end before any request completes, in
    the order of the listing; the others wait for their first command. *)
Lemma launch_watched cmd time (files : string -> bool) :
  (forall p w, host_existsSync h p w = files p) ->
  forall listing s (m : Machine W),
  exists ps gs m1,
    launch h (map (watched cmd time) listing) s m
      = (ps, [], (s ++ at_once files (bare "git:" listing))%list, m1)
    /\ Forall2 watching_parked gs ps
    /\ map fst gs = has_to_run files (bare "git:" listing)
    /\ load snd gs <= 4 * length listing.
Proof.
  intros Hfiles. induction listing as [|name listing IH]; intros s m.
  - exists [], [], m. simpl. rewrite app_nil_r. repeat split; auto.
  - unfold bare, at_once, has_to_run in *.
    cbn [map launch flat_map filter].
    pose proof (watched_watching cmd time name) as [Hr Hb]. simpl fst in Hr. simpl snd in Hb.
    pose proof (advance_notes _ _ (watched cmd time name) s m Hr Hb) as Ha.
    assert (Hcase :
      match precheck files (replace "git:" EmptyString name) with
      | Some r => exists m1, advance h (watched cmd time name) s m
                             = (Settled (Returned tt),
                                note (replace "git:" EmptyString name) r s, m1)
      | None => exists p s1 m1, advance h (watched cmd time name) s m = (Waiting p, s1, m1)
      end).
    { unfold precheck, watched, updateGitPlugin. simpl. rewrite !Hfiles.
      destruct (files _); simpl; [|eauto].
      rewrite !Hfiles. destruct (files _); simpl; eauto. }
    destruct (precheck files (replace "git:" EmptyString name)) as [r|] eqn:Hpre.
    + destruct Hcase as [m1 E]. rewrite E.
      destruct (IH (note (replace "git:" EmptyString name) r s) m1)
        as (ps & gs & m2 & El & HF & Hgs & Hload).
      exists ps, gs, m2. split; [|split; [exact HF|split; [exact Hgs|simpl; lia]]].
      rewrite El. unfold note. now rewrite <- app_assoc.
    + destruct Hcase as (p & s1 & m1 & E). rewrite E in *.
      destruct Ha as (-> & n' & [= <-] & Hp).
      destruct (IH s m1) as (ps & gs & m2 & El & HF & Hgs & Hload).
      exists (p :: ps), ((replace "git:" EmptyString name, 3) :: gs), m2.
      split; [|split; [|split]].
      * rewrite El. reflexivity.
      * constructor; [exact Hp|exact HF].
      * simpl. f_equal. exact Hgs.
      * rewrite load_cons. simpl. lia.
Qed.

(** C4, as the code has it.  For a listing of N >= 1 git plugins
    [updateAllGitPlugin] comes to an end, after at most four completions for
    each plugin, and returns N outcome lines joined by line feeds: one for
    each plugin, the success or failure line of what that plugin's own call
    of [updateGitPlugin] returned in this run, no call ending the wait of
    the others.  The lines stand in the order in which the calls ended, which
    is a permutation of the listing and need not be its order: with a file
    system that stays as it is, the plugins whose path is missing or is no
    repository come first, in the order of the listing, and after them the
    plugins that have to run a command. *)
Theorem updateAllGitPlugin_reports_each_once cmd time fuel m first rest w :
  let listing := first :: rest in
  let calls_watched :=
    map (watched (default "git pull" cmd) (default 120%N time)) listing in
  host_answer h (ReqPlugins git) (world (started h (ReqPlugins git) m))
    = (Returned listing, w) ->
  4 * length listing <= fuel ->
  exists (done : Outcomes) m2 ev,
    gather h SettleAll fuel calls_watched [] (moved w (started h (ReqPlugins git) m))
      = Some (Returned tt, done, m2)
    /\ updateAllGitPlugin h cmd time fuel m
       = Some (Returned (join nl (map outcome_line done)), noted ev m2)
    /\ length done = length listing
    /\ Permutation (map fst done) (bare "git:" listing)
    /\ forall files,
         (forall p w, host_existsSync h p w = files p) ->
         exists later,
           done = (at_once files (bare "git:" listing) ++ later)%list
           /\ Permutation (map fst later) (has_to_run files (bare "git:" listing)).
Proof.
  intros listing calls_watched Hlist Hfuel.
  set (cmd' := default "git pull" cmd) in *.
  set (time' := default 120%N time) in *.
  set (m1 := moved w (started h (ReqPlugins git) m)).
  destruct (gather_watched cmd' time' listing fuel m1 Hfuel) as (done & m2 & Eg & Hperm).
  assert (HF : Forall2 (shadows reported) (map (pull cmd' time') listing) calls_watched).
  { subst calls_watched. generalize listing. intros l.
    induction l as [|x l IH]; simpl; constructor; [apply pull_shadows|exact IH]. }
  pose proof (gather_shadows h reported SettleAll fuel _ _ git_report0 [] m1 HF eq_refl)
    as Hs.
  fold calls_watched in Eg. rewrite Eg in Hs.
  destruct (gather h SettleAll fuel (map (pull cmd' time') listing) git_report0 m1)
    as [[[c g] m2']|] eqn:Ep; [|contradiction].
  destruct Hs as (-> & -> & Hrep).
  exists done, m2. eexists. split; [exact Eg|]. split; [|split; [|split]].
  - unfold updateAllGitPlugin, getPlugins. cbn [run]. rewrite Hlist.
    cbn [settle run]. fold listing cmd' time' m1.
    subst listing. cbv zeta. rewrite Ep. cbn [emit bind run conclude fst snd].
    rewrite Hrep. reflexivity.
  - apply Permutation_length in Hperm. unfold bare in Hperm.
    now rewrite !length_map in Hperm.
  - exact Hperm.
  - intros files Hfiles.
    destruct (launch_watched cmd' time' files Hfiles listing [] m1)
      as (ps & gs & ml & El & HPR & Hgs & Hload).
    assert (Egd : gather h SettleAll fuel calls_watched [] m1
                  = drain h SettleAll fuel ps (at_once files (bare "git:" listing)) ml).
    { unfold gather. subst calls_watched. rewrite El. reflexivity. }
    rewrite Egd in Eg.
    assert (HJ : noted_after (at_once files (bare "git:" listing))
                             (has_to_run files (bare "git:" listing)) gs
                             (at_once files (bare "git:" listing)) ml).
    { exists []. rewrite app_nil_r. split; [reflexivity|]. simpl. rewrite Hgs.
      apply Permutation_refl. }
    assert (Hl : load snd gs <= fuel) by lia.
    destruct (drain_rule h _ SettleAll _ _ _ _
                (watching_step (at_once files (bare "git:" listing))
                               (has_to_run files (bare "git:" listing)))
                fuel gs ps _ ml HPR HJ Hl)
      as (c & s' & m' & Ed & Hpost).
    rewrite Ed in Eg. injection Eg as -> -> ->.
    destruct Hpost as (later & -> & Hp).
    exists later. split; [reflexivity|].
    simpl in Hp. now rewrite app_nil_r in Hp.
Qed.

End Watching.


(* ================================================================== *)
(** ** npm packages: all of them *)
(* ================================================================== *)

Section Stable.
Variables (ans : Answers) (files : string -> bool).

Lemma eval_bind {St A B} (t : Async St A) (f : A -> Async St B) :
  eval ans files (bind t f) =
  match eval ans files t with
  | Returned a => eval ans files (f a)
  | Raised e => Raised e
  end.
Proof. induction t; simpl; auto. Qed.

Lemma keeps_cmd_bind {A} (u : Async Plan A) (f : A -> Async Plan unit) a :
  no_modify u -> eval ans files u = Returned a -> keeps_cmd ans files (f a) ->
  keeps_cmd ans files (bind u f).
Proof.
  intros Hn He Hk. induction u; simpl in *; auto; try discriminate; try contradiction.
  now injection He as ->.
Qed.

Context {W : Type} (h : Host W).
Hypothesis stable : answers_by h ans files.

Lemma stable_answer q w a w' : host_answer h q w = (a, w') -> a = ans q.
Proof. intros H. rewrite <- (proj1 stable q w), H. reflexivity. Qed.

Lemma advance_eval {St} (t : Async St unit) s m :
  match advance h t s m with
  | (Settled c, _, _) => eval ans files t = c
  | (Waiting p, _, _) => eval ans files t = eval ans files (resume p (ans (parked_on p)))
  end.
Proof.
  revert s m. induction t as [a|e|q k IH|q k IH|p k IH|ev k IH|g k IH];
    intros s m; simpl.
  - reflexivity.
  - reflexivity.
  - reflexivity.
  - apply IH.
  - rewrite (proj2 stable). apply IH.
  - apply IH.
  - apply IH.
Qed.

Lemma advance_keeps (t : Async Plan unit) s m :
  keeps_cmd ans files t ->
  match advance h t s m with
  | (Settled (Returned _), s1, _) => cmd s1 = cmd s
  | (Settled (Raised _), _, _) => False
  | (Waiting p, s1, _) =>
    cmd s1 = cmd s /\ keeps_cmd ans files (resume p (ans (parked_on p)))
  end.
Proof.
  revert s m. induction t as [a|e|q k IH|q k IH|p k IH|ev k IH|g k IH];
    intros s m Hk; simpl in *.
  - reflexivity.
  - contradiction.
  - auto.
  - apply IH, Hk.
  - rewrite (proj2 stable). apply IH, Hk.
  - apply IH, Hk.
  - destruct Hk as [Hf Hk]. specialize (IH (g s) m Hk).
    destruct (advance h k (g s) m) as [[[[u|e]|p] s1] m1]; auto.
    + now rewrite IH.
    + destruct IH as [-> ?]. auto.
Qed.

End Stable.

Section Advance.
Context {W : Type} (h : Host W) {St : Type}.

Lemma advance_awaits n (t : Async St unit) s m :
  awaits_at_most n t ->
  match advance h t s m with
  | (Waiting p, _, _) => exists n', n = S n' /\ forall a, awaits_at_most n' (resume p a)
  | (Settled _, _, _) => True
  end.
Proof.
  revert s m. induction t as [a|e|q k IH|q k IH|p k IH|ev k IH|g k IH];
    intros s m Hb; simpl in *; auto.
  - destruct n as [|n']; [contradiction|]. eauto.
  - apply IH, Hb.
  - apply IH, Hb.
  - apply IH, Hb.
  - apply IH, Hb.
Qed.

Lemma advance_calls (f : Request -> bool) (t : Async St unit) s m :
  only_requests (fun q => f q = false) t ->
  match advance h t s m with
  | (Waiting p, _, m1) =>
    filter f (calls m1) = filter f (calls m)
    /\ forall a, only_requests (fun q => f q = false) (resume p a)
  | (Settled _, _, m1) => filter f (calls m1) = filter f (calls m)
  end.
Proof.
  revert s m. induction t as [a|e|q k IH|q k IH|p k IH|ev k IH|g k IH];
    intros s m Ht; simpl in *; auto.
  - destruct Ht as [Hq Hk]. split; auto.
    rewrite filter_app. simpl. rewrite Hq. apply app_nil_r.
  - destruct Ht as [Hq Hk]. specialize (IH s (started h q m) Hk).
    assert (E : filter f (calls (started h q m)) = filter f (calls m)).
    { simpl. rewrite filter_app. simpl. rewrite Hq. apply app_nil_r. }
    destruct (advance h k s (started h q m)) as [[[c|p] s1] m1]; rewrite <- E; auto.
  - apply IH, Ht.
  - apply (IH s (noted ev m) Ht).
  - apply IH, Ht.
Qed.

End Advance.

Section ProbeFacts.
Context {E : Engine}.

Lemma getPkgVersion_no_modify {St} name : no_modify (getPkgVersion (St:=St) name).
Proof.
  unfold getPkgVersion, version_in_stdout, getPkg, exec, settle. simpl. intros r.
  destruct (truthy (stdout r)); simpl.
  - destruct (_ || _); simpl; auto.
    destruct (exec_version name (stdout r)); simpl; auto.
    + destruct (error r); simpl; auto.
      * destruct (_ || _); simpl; auto.
      * intros [p|e]; simpl; auto.
    + destruct (truthy group1); simpl; auto.
      destruct (error r); simpl; auto.
      * destruct (_ || _); simpl; auto.
      * intros [p|e]; simpl; auto.
  - destruct (error r); simpl; auto.
    + destruct (_ || _); simpl; auto.
    + intros [p|e]; simpl; auto.
Qed.

Lemma remote_or_declared_no_modify {St} pkg name :
  no_modify (remote_or_declared (St:=St) pkg name).
Proof.
  unfold remote_or_declared, getRemotePkgVersion, exec. simpl. intros r.
  destruct (negb (status r)); simpl.
  - destruct (_ || _); simpl; auto.
  - destruct (truthy _); simpl; auto.
    destruct pkg as [p|]; simpl; auto. destruct (dependencies p); simpl; auto.
Qed.

Lemma getPkgVersion_awaits {St} name : awaits_at_most 2 (getPkgVersion (St:=St) name).
Proof.
  unfold getPkgVersion, version_in_stdout, getPkg, exec, settle. simpl. intros r.
  destruct (truthy (stdout r)); simpl.
  - destruct (_ || _); simpl; auto.
    destruct (exec_version name (stdout r)); simpl; auto.
    + destruct (error r); simpl; auto.
      * destruct (_ || _); simpl; auto.
      * intros [p|e]; simpl; auto.
    + destruct (truthy group1); simpl; auto.
      destruct (error r); simpl; auto.
      * destruct (_ || _); simpl; auto.
      * intros [p|e]; simpl; auto.
  - destruct (error r); simpl; auto.
    + destruct (_ || _); simpl; auto.
    + intros [p|e]; simpl; auto.
Qed.

Lemma remote_or_declared_requests {St} pkg name :
  only_requests not_upgrade (remote_or_declared (St:=St) pkg name).
Proof.
  unfold remote_or_declared. apply only_requests_bind.
  - apply getRemotePkgVersion_requests.
  - intros published. destruct (truthy published); simpl; auto.
    destruct pkg as [p|]; simpl; auto. destruct (dependencies p); simpl; auto.
Qed.

Lemma probe_requests pkg name : only_requests not_upgrade (probe pkg name).
Proof.
  unfold probe. apply only_requests_bind; [apply getPkgVersion_requests|].
  intros local. apply only_requests_bind; [apply remote_or_declared_requests|].
  intros remote. destruct (strict_eq local remote); simpl; auto.
Qed.

End ProbeFacts.

Lemma awaits_at_most_le {St A} (t : Async St A) :
  forall n n', awaits_at_most n t -> n <= n' -> awaits_at_most n' t.
Proof.
  induction t as [a|e|q k IH|q k IH|p k IH|ev k IH|g k IH];
    intros n n' Ht Hle; simpl in *; eauto.
  destruct n as [|n0]; [contradiction|]. destruct n' as [|n1]; [lia|].
  intros a. apply (IH a n0); auto. lia.
Qed.

Lemma awaits_at_most_bind_add {St A B} (t : Async St A) (f : A -> Async St B) k :
  (forall a, awaits_at_most k (f a)) ->
  forall n, awaits_at_most n t -> awaits_at_most (n + k) (bind t f).
Proof.
  intros Hf. induction t as [a|e|q c IH|q c IH|p c IH|ev c IH|g c IH];
    intros n Ht; simpl in *; auto.
  - apply (awaits_at_most_le _ k); [apply Hf|lia].
  - destruct n as [|n0]; [contradiction|]. simpl. intros a. apply IH, Ht.
Qed.

Section ProbeBound.
Context {E : Engine}.

Lemma remote_or_declared_awaits {St} pkg name :
  awaits_at_most 1 (remote_or_declared (St:=St) pkg name).
Proof.
  unfold remote_or_declared, getRemotePkgVersion, exec. simpl. intros r.
  destruct (negb (status r)); simpl.
  - destruct (_ || _); simpl; auto.
  - destruct (truthy _); simpl; auto.
    destruct pkg as [p|]; simpl; auto. destruct (dependencies p); simpl; auto.
Qed.

Lemma probe_awaits pkg name : awaits_at_most 3 (probe pkg name).
Proof.
  unfold probe. change 3 with (2 + 1). apply awaits_at_most_bind_add.
  - intros local. change 1 with (1 + 0). apply awaits_at_most_bind_add.
    + intros remote. destruct (strict_eq local remote); exact I.
    + apply remote_or_declared_awaits.
  - apply getPkgVersion_awaits.
Qed.

End ProbeBound.

(* ------------------------------------------------------------------ *)

Section NothingToUpdate.
Context {E : Engine} {W : Type} (h : Host W).
Variables (ans : Answers) (files : string -> bool).
Hypothesis stable : answers_by h ans files.

Lemma probe_keeps_cmd pkg name :
  up_to_date ans files pkg (replace "npm:" EmptyString name) ->
  keeps_cmd ans files (probe pkg name).
Proof.
  intros (v & Hl & Hr). unfold probe.
  eapply keeps_cmd_bind; [apply getPkgVersion_no_modify|exact Hl|].
  eapply keeps_cmd_bind; [apply remote_or_declared_no_modify|exact Hr|].
  rewrite (proj2 (strict_eq_true v v) eq_refl). simpl. auto.
Qed.

Variable calls0 : list Request.

Lemma idle_advance n t s m :
  keeps_cmd ans files t -> awaits_at_most n t -> only_requests not_upgrade t ->
  cmd s = cmd plan0 -> filter is_upgrade (calls m) = calls0 ->
  match advance h t s m with
  | (Waiting p, s1, m1) =>
    (exists n', n = S n' /\ idle_parked ans files n' p)
    /\ cmd s1 = cmd plan0 /\ filter is_upgrade (calls m1) = calls0
  | (Settled (Returned _), s1, m1) =>
    cmd s1 = cmd plan0 /\ filter is_upgrade (calls m1) = calls0
  | (Settled (Raised _), _, _) => False
  end.
Proof.
  intros Hk Hb Hq Hs Hm.
  pose proof (advance_keeps ans files h stable t s m Hk) as H1.
  pose proof (advance_awaits h n t s m Hb) as H2.
  pose proof (advance_calls h is_upgrade t s m Hq) as H3.
  destruct (advance h t s m) as [[[[u|e]|p] s1] m1].
  - split; congruence.
  - contradiction.
  - destruct H1 as [H1 H1']. destruct H2 as (n' & Hn & H2).
    destruct H3 as [H3 H3']. split; [|split; congruence].
    exists n'. split; [exact Hn|]. repeat split; auto.
Qed.

Lemma idle_start :
  start_ok h nat (idle_parked ans files) (fun n => n) (nothing_planned calls0)
           (idle ans files).
Proof.
  intros gs1 g gs2 t s m (Hk & Hb & Hq) [Hs Hm].
  pose proof (idle_advance (S g) t s m Hk Hb Hq Hs Hm) as H.
  destruct (advance h t s m) as [[[[u|e]|p] s1] m1].
  - exact H.
  - exact H.
  - destruct H as ((n' & Hn & Hp) & H1 & H2). injection Hn as <-. exists g.
    split; [exact Hp|]. split; [simpl; lia|]. split; assumption.
Qed.

Lemma idle_step mode :
  step_ok h nat mode (idle_parked ans files) (fun n => n) (nothing_planned calls0)
          (fun _ _ _ => False).
Proof.
  intros gs1 g gs2 p s m a w (Hk & Hb & Hq) [Hs Hm] Ha.
  apply (stable_answer ans files h stable) in Ha. subst a.
  pose proof (idle_advance g _ s (moved w m) Hk (Hb _) (Hq _) Hs Hm) as H.
  destruct (advance h _ s (moved w m)) as [[[[u|e]|p'] s1] m1].
  - exact H.
  - destruct mode; contradiction.
  - destruct H as ((n' & Hn & Hp) & H1 & H2). exists n'.
    split; [exact Hp|]. split; [simpl; lia|]. split; assumption.
Qed.

End NothingToUpdate.

Section AllPackages.
Context {E : Engine} {W : Type} (h : Host W).
Variables (ans : Answers) (files : string -> bool).
Hypothesis stable : answers_by h ans files.

(** The start of [updateAllPkg]: the listing, with the host package, and the
    manifest. *)
Lemma run_listing listing pkg m :
  ans (ReqPlugins npm) = Returned listing ->
  ans (ReqRequire false) = Returned pkg ->
  exists m1,
    run h (list <- getPlugins npm ;;
           pkg <- getPkg false ;;
           Ret ((list ++ ["node-karin"])%list, pkg)) tt m
    = (Returned ((listing ++ ["node-karin"])%list, pkg), tt, m1)
    /\ filter is_upgrade (calls m1) = filter is_upgrade (calls m).
Proof.
  intros Hl Hp. unfold getPlugins, getPkg. cbn [bind run].
  destruct (host_answer h (ReqPlugins npm) _) as [a w] eqn:Ha.
  apply (stable_answer ans files h stable) in Ha. rewrite Hl in Ha. subst a.
  cbn [settle bind run].
  destruct (host_answer h (ReqRequire false) _) as [a' w'] eqn:Ha'.
  apply (stable_answer ans files h stable) in Ha'. rewrite Hp in Ha'. subst a'.
  cbn [settle bind run].
  eexists. split; [reflexivity|].
  simpl. rewrite !filter_app. simpl. now rewrite !app_nil_r.
Qed.

(** C9.  When no listed package is outdated, the local version of each
    being the remote one, [updateAllPkg] returns the sentinel and starts no
    upgrade command, in whatever order the probes complete. *)
Theorem updateAllPkg_nothing_to_update listing pkg fuel m :
  ans (ReqPlugins npm) = Returned listing ->
  ans (ReqRequire false) = Returned pkg ->
  (forall name, In name (listing ++ ["node-karin"]) ->
                up_to_date ans files pkg (replace "npm:" EmptyString name)) ->
  3 * length (listing ++ ["node-karin"]) <= fuel ->
  exists m',
    updateAllPkg h fuel m = Some (Returned nothing_to_update, m')
    /\ filter is_upgrade (calls m') = filter is_upgrade (calls m).
Proof.
  intros Hl Hp Hup Hfuel.
  destruct (run_listing listing pkg m Hl Hp) as (m1 & Hrun & Hcalls).
  unfold updateAllPkg. rewrite Hrun. cbv iota beta.
  remember (listing ++ ["node-karin"])%list as names eqn:En. clear En Hrun.
  set (gs := map (fun _ : string => 2) names).
  assert (HF : Forall2 (idle ans files) gs (map (probe pkg) names)).
  { subst gs. clear Hfuel. induction names as [|x l IH]; simpl; constructor.
    - split; [|split].
      + apply probe_keeps_cmd, Hup. now left.
      + apply probe_awaits.
      + apply probe_requests.
    - apply IH. intros name Hin. apply Hup. now right. }
  assert (HJ : nothing_planned (filter is_upgrade (calls m)) gs plan0 m1).
  { split; auto. }
  assert (Hload : load (fun n => n) gs <= fuel).
  { assert (Hq : load (fun n => n) gs = 3 * length names).
    { subst gs. unfold load. rewrite map_map. clear.
      induction names as [|x l IH]; simpl in *; lia. }
    lia. }
  destruct (gather_rule h nat FailFast _ _ _ _ _
              (idle_start h ans files stable (filter is_upgrade (calls m)))
              (idle_step h ans files stable (filter is_upgrade (calls m)) FailFast)
              fuel _ gs plan0 m1 HF HJ Hload)
    as (c & pl & m2 & Eg & Hpost).
  rewrite Eg. destruct c as [[]|e]; [|destruct Hpost as [_ []]].
  destruct Hpost as [Hcmd Hm2].
  unfold upgrade_planned. rewrite Hcmd. cbn.
  eexists. split; [reflexivity|]. exact Hm2.
Qed.

Lemma probe_eval pkg name e :
  eval ans files (probe pkg name) = Raised e
  <-> resolution_throws ans files pkg (replace "npm:" EmptyString name) e.
Proof.
  unfold probe, resolution_throws. rewrite eval_bind.
  destruct (eval ans files (getPkgVersion _)) as [local|e1].
  - rewrite eval_bind.
    destruct (eval ans files (remote_or_declared pkg _)) as [remote|e2].
    + assert (Hend : eval ans files
                (if strict_eq local remote
                 then modify (keep (replace "npm:" EmptyString name) local remote)
                 else modify (plan_upgrade (replace "npm:" EmptyString name) local remote))
              = Returned tt).
      { destruct (strict_eq local remote); reflexivity. }
      rewrite Hend. split.
      * intros H. discriminate H.
      * intros [H|(l & _ & H)]; discriminate H.
    + split.
      * intros H. right. exists local. split; [reflexivity|congruence].
      * intros [H|(l & _ & H)]; [discriminate H|congruence].
  - split.
    + intros H. left. congruence.
    + intros [H|(l & H & _)]; [congruence|discriminate H].
Qed.

Lemma probe_waits pkg name s m :
  exists p s1 m1, advance h (probe pkg name) s m = (Waiting p, s1, m1).
Proof. unfold probe, getPkgVersion, exec. simpl. eauto. Qed.

Section Rejecting.
Variables (pkg : option Package) (names : list string) (calls0 : list Request).

Lemma probing_advance n name t s m :
  eval ans files t = eval ans files (probe pkg name) ->
  awaits_at_most n t -> only_requests not_upgrade t ->
  filter is_upgrade (calls m) = calls0 ->
  match advance h t s m with
  | (Waiting p, s1, m1) =>
    (exists n', n = S n' /\ probing_parked ans files pkg (name, n') p)
    /\ filter is_upgrade (calls m1) = calls0
  | (Settled c, s1, m1) =>
    eval ans files (probe pkg name) = c /\ filter is_upgrade (calls m1) = calls0
  end.
Proof.
  intros He Hb Hq Hm.
  pose proof (advance_eval ans files h stable t s m) as H1.
  pose proof (advance_awaits h n t s m Hb) as H2.
  pose proof (advance_calls h is_upgrade t s m Hq) as H3.
  destruct (advance h t s m) as [[[c|p] s1] m1].
  - split; congruence.
  - destruct H2 as (n' & Hn & H2). destruct H3 as [H3 H3'].
    split; [|congruence]. exists n'. split; [exact Hn|].
    split; [cbn [fst]; rewrite <- H1; exact He|]. split; assumption.
Qed.

Lemma doomed_settle gs1 g gs2 s (m : Machine W) s1 (m1 : Machine W) u :
  doomed ans files pkg names calls0 (gs1 ++ g :: gs2) s m ->
  eval ans files (probe pkg (fst g)) = Returned u ->
  filter is_upgrade (calls m1) = calls0 ->
  doomed ans files pkg names calls0 (gs1 ++ gs2) s1 m1.
Proof.
  intros ((name & e & Hin & He) & Hall & _) Hret Hm.
  rewrite map_app, map_cons in Hin, Hall.
  split; [|split; auto].
  - exists name, e. split; [|exact He]. rewrite map_app.
    apply in_app_or in Hin. apply in_or_app.
    destruct Hin as [Hin|[Hin|Hin]]; auto.
    subst name. rewrite Hret in He. discriminate He.
  - rewrite map_app. apply Forall_app in Hall. destruct Hall as [H1 H2].
    apply Forall_app. split; auto. now inversion H2.
Qed.

Lemma probing_start :
  start_ok h (string * nat) (probing_parked ans files pkg) snd
           (doomed ans files pkg names calls0) (probing pkg).
Proof.
  intros gs1 g gs2 t s m [-> Hg] HJ.
  pose proof (probing_advance 3 (fst g) (probe pkg (fst g)) s m eq_refl
                (probe_awaits pkg (fst g)) (probe_requests pkg (fst g))
                (proj2 (proj2 HJ))) as H.
  destruct (probe_waits pkg (fst g) s m) as (p & s1 & m1 & Ew).
  rewrite Ew in *. destruct H as ((n' & Hn & Hp) & Hm).
  injection Hn as <-. exists g. split; [|split].
  - destruct g as [nm n]. simpl in *. subst n. exact Hp.
  - lia.
  - destruct HJ as (H1 & H2 & _). split; [exact H1|]. split; assumption.
Qed.

Lemma probing_step :
  step_ok h (string * nat) FailFast (probing_parked ans files pkg) snd
          (doomed ans files pkg names calls0) (rejected ans files pkg names calls0).
Proof.
  intros gs1 g gs2 p s m a w (He & Hb & Hq) HJ Ha.
  apply (stable_answer ans files h stable) in Ha. subst a.
  pose proof (probing_advance (snd g) (fst g) _ s (moved w m) He (Hb _) (Hq _)
                (proj2 (proj2 HJ))) as H.
  destruct (advance h _ s (moved w m)) as [[[[u|e]|p'] s1] m1].
  - destruct H as [H Hm]. eapply doomed_settle; eauto.
  - destruct H as [H Hm]. split; [|exact Hm].
    exists (fst g). split; [|exact H].
    destruct HJ as (_ & Hall & _). rewrite map_app, map_cons in Hall.
    apply Forall_app in Hall. destruct Hall as [_ Hall]. now inversion Hall.
  - destruct H as ((n' & Hn & Hp) & Hm). exists (fst g, n').
    split; [exact Hp|]. split; [simpl; lia|].
    destruct HJ as (H1 & H2 & _). unfold doomed.
    rewrite map_app, map_cons in *. cbn [fst].
    split; [exact H1|]. split; assumption.
Qed.

End Rejecting.

(** C5, as the code has it.  The callbacks of [updateAllPkg] have no
    try/catch of their own.  When the resolution of some listed package
    throws, [Promise.all] rejects with the throw of such a package, in
    whatever order the probes complete, and the outer catch returns the
    message of that error (or the fallback text): the result is no report
    of the other packages, and no upgrade command is started. *)
Theorem updateAllPkg_rejects_with_first_throw listing pkg fuel m :
  let names := (listing ++ ["node-karin"])%list in
  ans (ReqPlugins npm) = Returned listing ->
  ans (ReqRequire false) = Returned pkg ->
  (exists name e, In name names
                  /\ resolution_throws ans files pkg (replace "npm:" EmptyString name) e) ->
  3 * length names <= fuel ->
  exists name e m',
    In name names
    /\ resolution_throws ans files pkg (replace "npm:" EmptyString name) e
    /\ updateAllPkg h fuel m = Some (error_report e, m')
    /\ filter is_upgrade (calls m') = filter is_upgrade (calls m).
Proof.
  intros names Hl Hp (name0 & e0 & Hin0 & Hthrow0) Hfuel.
  destruct (run_listing listing pkg m Hl Hp) as (m1 & Hrun & Hcalls).
  unfold updateAllPkg. rewrite Hrun. cbv iota beta. fold names. clear Hrun.
  set (gs := map (fun name : string => (name, 2)) names).
  assert (Hfst : map fst gs = names).
  { subst gs. rewrite map_map. simpl. apply map_id. }
  assert (HF : Forall2 (probing pkg) gs (map (probe pkg) names)).
  { subst gs. clear. induction names as [|x l IH]; simpl; constructor; auto.
    split; reflexivity. }
  assert (HJ : doomed ans files pkg names (filter is_upgrade (calls m)) gs plan0 m1).
  { split; [|split; auto].
    - exists name0, e0. rewrite Hfst. split; [exact Hin0|]. now apply probe_eval.
    - rewrite Hfst. apply Forall_forall. auto. }
  assert (Hload : load snd gs <= fuel).
  { assert (Hq : load snd gs = 3 * length names).
    { subst gs. unfold load. rewrite map_map. simpl. clear.
      induction names as [|x l IH]; simpl in *; lia. }
    lia. }
  destruct (gather_rule h _ FailFast _ _ _ _ _
              (probing_start pkg names (filter is_upgrade (calls m)))
              (probing_step pkg names (filter is_upgrade (calls m)))
              fuel _ gs plan0 m1 HF HJ Hload)
    as (c & pl & m2 & Eg & Hpost).
  rewrite Eg. destruct c as [[]|e].
  - destruct Hpost as ((name & e & [] & _) & _).
  - destruct Hpost as (_ & (name & Hin & He) & Hm2).
    exists name, e.
    destruct e as [x|];
      (eexists; split; [exact Hin|]; split; [now apply probe_eval|];
       split; [reflexivity|exact Hm2]).
Qed.

End AllPackages.

(* ================================================================== *)
(** ** The order of the report of updateAllPkg *)
(* ================================================================== *)

Section TwoBuckets.
Variable A : Type.
Variable first : A -> bool.

Lemma bisect_front pivot sorted : first pivot = true ->
  forall gap right, Node.bisect (one_sided first) pivot sorted gap 0 right = 0.
Proof.
  intros Hp. induction gap as [|gap IH]; intros right; simpl; auto.
  destruct (Nat.ltb 0 right); auto.
  unfold one_sided at 1. rewrite Hp. simpl. apply IH.
Qed.

Lemma bisect_back pivot sorted : first pivot = false ->
  forall gap left right, left <= right -> right - left <= gap ->
  Node.bisect (one_sided first) pivot sorted gap left right = right.
Proof.
  intros Hp. induction gap as [|gap IH]; intros left right Hle Hgap;
    cbn [Node.bisect].
  - lia.
  - destruct (Nat.ltb left right) eqn:Hlt.
    + apply Nat.ltb_lt in Hlt. unfold one_sided at 1. rewrite Hp.
      change (Z.ltb 1 0) with false. cbv iota.
      assert (Hd' : Nat.div2 (right - left) < right - left).
      { apply Nat.lt_div2. lia. }
      generalize dependent (Nat.div2 (right - left)). intros d Hd'.
      apply IH; lia.
    + apply Nat.ltb_ge in Hlt. lia.
Qed.

Lemma binary_insert_one_sided sorted pivot :
  Node.binary_insert (one_sided first) sorted pivot
  = if first pivot then pivot :: sorted else (sorted ++ [pivot])%list.
Proof.
  unfold Node.binary_insert. destruct (first pivot) eqn:Hp.
  - rewrite bisect_front by exact Hp. reflexivity.
  - rewrite bisect_back by (auto; lia).
    rewrite firstn_all, skipn_all. reflexivity.
Qed.

Lemma insert_all others : forall sorted,
  fold_left (Node.binary_insert (one_sided first)) others sorted
  = (rev (filter first others) ++ sorted
       ++ filter (fun a => negb (first a)) others)%list.
Proof.
  induction others as [|x others IH]; intros sorted; simpl.
  - now rewrite app_nil_r.
  - rewrite IH, binary_insert_one_sided. destruct (first x); simpl.
    + now rewrite <- app_assoc.
    + now rewrite <- app_assoc.
Qed.

Lemma one_sided_lt a b : Z.ltb ((one_sided first) a b) 0 = first a.
Proof. unfold one_sided. destruct (first a); reflexivity. Qed.

Lemma one_sided_le a b : Z.leb 0 ((one_sided first) a b) = negb (first a).
Proof. unfold one_sided. destruct (first a); reflexivity. Qed.

Lemma run_tail_one_sided descending : forall rest previous r others,
  Node.run_tail (one_sided first) descending previous rest = (r, others) ->
  rest = (r ++ others)%list /\ Forall (fun a => first a = descending) r.
Proof.
  induction rest as [|x rest IH]; intros previous r others H; cbn [Node.run_tail] in H.
  - inversion H; subst. split; [reflexivity|constructor].
  - rewrite one_sided_lt, one_sided_le in H.
    destruct descending, (first x) eqn:Hx; cbn [negb] in H.
    + destruct (Node.run_tail (one_sided first) true x rest) as [r' o'] eqn:E.
      inversion H; subst. destruct (IH _ _ _ E) as [-> HF].
      split; [reflexivity|constructor; auto].
    + inversion H; subst. split; [reflexivity|constructor].
    + inversion H; subst. split; [reflexivity|constructor].
    + destruct (Node.run_tail (one_sided first) false x rest) as [r' o'] eqn:E.
      inversion H; subst. destruct (IH _ _ _ E) as [-> HF].
      split; [reflexivity|constructor; auto].
Qed.

Lemma filter_all (f : A -> bool) l : Forall (fun a => f a = true) l -> filter f l = l.
Proof. induction 1; simpl; [|rewrite H]; congruence. Qed.

Lemma filter_none (f : A -> bool) l : Forall (fun a => f a = false) l -> filter f l = [].
Proof. induction 1; simpl; [|rewrite H]; congruence. Qed.

(** With such a comparator the sort of Node.js puts the elements the
    comparator favours first, in reverse order, and leaves the others in
    their order. *)
Lemma array_sort_one_sided l :
  Node.array_sort (one_sided first) l
  = (rev (filter first l) ++ filter (fun a => negb (first a)) l)%list.
Proof.
  destruct l as [|x0 [|x1 rest]].
  - reflexivity.
  - simpl. destruct (first x0); reflexivity.
  - unfold Node.array_sort.
    destruct (Node.run_tail (one_sided first) (Z.ltb ((one_sided first) x1 x0) 0) x1 rest)
      as [r others] eqn:E.
    apply run_tail_one_sided in E. destruct E as [-> HF].
    rewrite insert_all.
    rewrite one_sided_lt in *.
    change (x0 :: x1 :: r ++ others)%list with ((x0 :: x1 :: r) ++ others)%list.
    rewrite !filter_app, rev_app_distr, <- !app_assoc. f_equal.
    rewrite !app_assoc. f_equal.
    destruct (first x1) eqn:H1.
    + assert (Hr : filter first r = r) by now apply filter_all.
      assert (Hn : filter (fun a => negb (first a)) r = []).
      { apply filter_none. eapply Forall_impl; [|exact HF].
        intros a Ha. simpl in Ha. now rewrite Ha. }
      simpl. rewrite H1. simpl. rewrite Hr, Hn.
      destruct (first x0); simpl; rewrite ?app_nil_r; auto.
    + assert (Hr : filter first r = []) by now apply filter_none.
      assert (Hn : filter (fun a => negb (first a)) r = r).
      { apply filter_all. eapply Forall_impl; [|exact HF].
        intros a Ha. simpl in Ha. now rewrite Ha. }
      simpl. rewrite H1. simpl. rewrite Hr, Hn.
      destruct (first x0); simpl; auto.
Qed.

End TwoBuckets.

Lemma success_first_one_sided : success_first = one_sided has_success.
Proof. reflexivity. Qed.

Lemma includes_app_r needle a b :
  includes needle b = true -> includes needle (a ++ b) = true.
Proof.
  intros H. induction a as [|c a IH]; [exact H|].
  cbn [append includes]. destruct (prefix needle _); auto.
Qed.

(** Every success line holds the word the comparator looks for. *)
Lemma success_line_has_success name local remote :
  has_success (success_line name local remote) = true.
Proof.
  unfold has_success, success_line.
  change ("[" ++ name ++ "][更新成功] " ++ show local ++ " => " ++ show remote)
    with (("[" ++ name) ++ "][更新成功] " ++ show local ++ " => " ++ show remote).
  apply includes_app_r. reflexivity.
Qed.

Section ReportOrder.
Context {W : Type} (h : Host W).

(** C6, as the code has it on Node.js, for a report of fewer than 64 lines.
    After the upgrade command and the reading of the manifest succeed, the
    report of [updateAllPkg] lists the lines that hold [成功] (every success
    line does) before the others; the others keep their order, and the
    lines that hold [成功] stand in the reverse of theirs. *)
Theorem updateAllPkg_report_order (pl : Plan) (m : Machine W) r w1 up w2 :
  let q := ReqExec (join " " (cmd pl)) None in
  let lines := map (verdict up) (object_entries (state pl)) in
  Nat.eqb (length (cmd pl)) 1 = false ->
  host_answer h q (host_spawn h q (world m)) = (r, w1) ->
  error r = None ->
  host_answer h (ReqRequire true) (host_spawn h (ReqRequire true) w1)
    = (Returned (Some up), w2) ->
  length lines < 64 ->
  fst (fst (run h (try_catch (upgrade_planned (E:=Node.engine) pl) report_error) tt m))
  = Returned (join nl (rev (filter has_success lines)
                       ++ filter (fun line => negb (has_success line)) lines)%list).
Proof.
  intros q lines Hcmd Hq Hr Hp Hlen.
  unfold upgrade_planned. rewrite Hcmd. unfold emit, exec, getPkg.
  cbn [bind try_catch run]. cbn [world noted started moved].
  fold q. rewrite Hq. cbn [bind try_catch run]. rewrite Hr.
  cbn [bind try_catch run]. cbn [world noted started moved].
  rewrite Hp. cbn [settle bind try_catch run].
  unfold verdicts. fold lines.
  assert (Hs : sort (Engine:=Node.engine) success_first lines
               = (rev (filter has_success lines)
                  ++ filter (fun line => negb (has_success line)) lines)%list).
  { cbn [sort Node.engine]. rewrite success_first_one_sided.
    apply array_sort_one_sided. }
  destruct (object_entries (state pl)) as [|kv rest] eqn:Hent.
  - subst lines. cbn. reflexivity.
  - cbn [bind try_catch run fst]. fold lines. rewrite Hs. reflexivity.
Qed.

End ReportOrder.
(* ================================================================== *)
(** ** The statements on the example hosts *)
(* ================================================================== *)

Lemma updatePkg_contract_witness :
  fst (fst (run Example.upgrading (updatePkg (E:=Node.engine) "foo" None) tt (boot 0)))
  = Returned (PkgOk (success_line "foo" (Some "1.2.3") (Some "1.3.0"))
                    (Some "1.2.3") "1.3.0").
Proof.
  destruct (updatePkg_contract (E:=Node.engine) Example.upgrading "foo" None tt (boot 0))
    as [H _].
  edestruct (H (Some "1.2.3") "1.3.0") as [_ H2]; [reflexivity|reflexivity|].
  edestruct H2 as [Hok _];
    [discriminate|reflexivity|reflexivity|reflexivity|].
  rewrite Hok; reflexivity.
Defined.

Lemma checkPkgUpdate_contract_witness :
  fst (fst (run Example.upgrading (checkPkgUpdate (E:=Node.engine) "foo") tt (boot 0)))
  = Returned (CheckYes (Some "1.2.3") "1.3.0").
Proof.
  destruct (checkPkgUpdate_contract (E:=Node.engine) Example.upgrading "foo" tt (boot 0))
    as (_ & _ & _ & H).
  edestruct (H (Some "1.2.3") "1.3.0") as [_ [_ Hyes]]; [reflexivity|reflexivity|].
  rewrite Hyes; [reflexivity|discriminate].
Defined.

Lemma getPkgVersion_undefined_witness :
  fst (fst (run Example.unlisted (getPkgVersion (E:=Node.engine) "foo") tt (boot 0)))
    = Returned None
  /\ fst (fst (run Example.unlisted (checkPkgUpdate (E:=Node.engine) "foo") tt (boot 0)))
     = Returned (CheckYes None "1.3.0").
Proof.
  edestruct (getPkgVersion_undefined (E:=Node.engine) Example.unlisted "foo" tt (boot 0))
    as [Hv Hc]; try reflexivity.
  split.
  - rewrite Hv. reflexivity.
  - erewrite Hc; reflexivity.
Defined.

(** C10 as stated fails: the list command prints [foo@ extraneous], which
    is no version match, the runner reports no error, and the manifest has
    no [foo]; yet [getPkgVersion] throws, and [checkPkgUpdate] returns
    [{status: 'error'}]. *)
Lemma getPkgVersion_extraneous_throws :
  let r := fst (host_answer Example.extraneous (ReqExec (list_cmd "foo") None) 0) in
  exec_version (Engine:=Node.engine) "foo" (stdout r) = RxNull
  /\ error r = None
  /\ manifest_entry (Some (Example.manifest [])) dependencies "foo" = None
  /\ manifest_entry (Some (Example.manifest [])) devDependencies "foo" = None
  /\ manifest_entry (Some (Example.manifest [])) peerDependencies "foo" = None
  /\ fst (fst (run Example.extraneous (getPkgVersion (E:=Node.engine) "foo") tt (boot 0)))
     = Raised (not_installed "foo")
  /\ fst (fst (run Example.extraneous (checkPkgUpdate (E:=Node.engine) "foo") tt (boot 0)))
     = Returned (CheckError (not_installed "foo")).
Proof. repeat split; reflexivity. Qed.

Lemma updateGitPlugin_ok_iff_witness :
  exists s' m',
    run (Example.repository [] Example.one_entry 2)
        (updateGitPlugin "./plugins/alpha" None None) tt (boot 0)
    = (Returned (GitOk updated_text ("[11-03 10:00]fix typo " ++ nl)), s', m').
Proof.
  destruct (updateGitPlugin_ok_iff (Example.repository [] Example.one_entry 2)
              "./plugins/alpha" None None tt (boot 0) eq_refl eq_refl) as [Hok _].
  eexists _, _. apply Hok. split; [reflexivity|].
  unfold heads_differ_and_logged. do 9 eexists. cbv zeta.
  repeat split; try reflexivity. discriminate.
Defined.

(** C3 as stated fails: the two hashes differ and the update command reports
    no error, but the commit log read afterwards fails, and the result is
    [failed]. *)
Lemma updateGitPlugin_changed_but_failed :
  let h := Example.repository [] Example.log_failure 2 in
  let filePath := "./plugins/alpha" in
  let before := run h (getHash filePath None) tt (noted (SetTimeout 120000) (boot 0)) in
  let pull := ReqExec "git pull" (Some filePath) in
  let pulled := host_answer h pull (world (started h pull (snd before))) in
  let after := run h (getHash filePath None) tt
                   (moved (snd pulled) (started h pull (snd before))) in
  host_existsSync h filePath 0 = true
  /\ host_existsSync h (filePath ++ "/.git") 0 = true
  /\ fst (fst before) = Returned ("1a2b3c4" ++ nl)
  /\ error (fst pulled) = None
  /\ fst (fst after) = Returned ("5d6e7f8" ++ nl)
  /\ fst (fst (run h (updateGitPlugin filePath None None) tt (boot 0)))
     = Returned (GitFailed (FailValue (rethrow (error Example.log_failure)))).
Proof. repeat split; reflexivity. Qed.

Lemma updateAllGitPlugin_reports_each_once_witness :
  let h := Example.repository ["git:alpha"; "git:beta"] Example.one_entry 3 in
  let listing := ["git:alpha"; "git:beta"] in
  exists (done : Outcomes) m2 ev,
    gather h SettleAll 8 (map (watched "git pull" 120) listing) []
           (moved 1 (started h (ReqPlugins git) (boot 0)))
      = Some (Returned tt, done, m2)
    /\ updateAllGitPlugin h None None 8 (boot 0)
       = Some (Returned (join nl (map outcome_line done)), noted ev m2)
    /\ length done = 2
    /\ Permutation (map fst done) ["alpha"; "beta"]
    /\ forall files,
         (forall p w, host_existsSync h p w = files p) ->
         exists later,
           done = (at_once files ["alpha"; "beta"] ++ later)%list
           /\ Permutation (map fst later) (has_to_run files ["alpha"; "beta"]).
Proof.
  apply (updateAllGitPlugin_reports_each_once
           (Example.repository ["git:alpha"; "git:beta"] Example.one_entry 3)
           None None 8 (boot 0) "git:alpha" ["git:beta"] 1).
  - reflexivity.
  - simpl. lia.
Defined.

(** C4 as stated fails: [alpha] is listed before [beta], whose path does not
    exist; the line of [beta] comes first in the report, because its callback
    ends before the first command of [alpha] completes. *)
Lemma updateAllGitPlugin_not_in_listing_order :
  let h := Example.repository ["git:alpha"; "git:beta"] Example.one_entry 3 in
  fst (host_answer h (ReqPlugins git) 0) = Returned ["git:alpha"; "git:beta"]
  /\ option_map fst (updateAllGitPlugin h None None 8 (boot 0))
     = Some (Returned
               (join nl [git_line "beta" (GitFailed (FailText "路径不存在"));
                         git_line "alpha" (GitOk updated_text
                                                 ("[11-03 10:00]fix typo " ++ nl))])).
Proof. split; reflexivity. Qed.

Lemma missing_foo_stable pick :
  answers_by (Example.missing_foo pick)
             (Example.answers_of (Example.missing_foo pick)) (fun _ => false).
Proof.
  split.
  - intros [c cwd|force|origin] w; reflexivity.
  - intros p w. reflexivity.
Qed.

Lemma current_stable pick :
  answers_by (Example.current pick)
             (Example.answers_of (Example.current pick)) (fun _ => false).
Proof.
  split.
  - intros [c cwd|force|origin] w; reflexivity.
  - intros p w. reflexivity.
Qed.

Lemma updateAllPkg_rejects_with_first_throw_witness :
  let h := Example.missing_foo Example.last_pending in
  exists name e m',
    In name ["npm:foo"; "node-karin"]
    /\ resolution_throws (E:=Node.engine) (Example.answers_of h) (fun _ => false)
                         (Some (Example.manifest []))
                         (replace "npm:" EmptyString name) e
    /\ updateAllPkg (E:=Node.engine) h 6 (boot 0) = Some (error_report e, m')
    /\ filter is_upgrade (calls m') = filter is_upgrade (calls (boot 0)).
Proof.
  intros h.
  apply (updateAllPkg_rejects_with_first_throw (E:=Node.engine) h
           (Example.answers_of h) (fun _ => false)
           (missing_foo_stable Example.last_pending)
           ["npm:foo"] (Some (Example.manifest [])) 6 (boot 0)).
  - reflexivity.
  - reflexivity.
  - exists "npm:foo", (not_installed "foo"). split.
    + left. reflexivity.
    + left. reflexivity.
  - simpl. lia.
Defined.

(** C5 as stated fails: the resolution of [foo] throws and that of the host
    package does not; in either order of completion [updateAllPkg] returns
    the message of the throw, and reports nothing of the host package. *)
Lemma updateAllPkg_one_throw_no_report :
  let late := Example.missing_foo Example.last_pending in
  let early := Example.missing_foo Example.first_pending in
  fst (fst (run late (getPkgVersion (E:=Node.engine) "foo") tt (boot 0)))
    = Raised (not_installed "foo")
  /\ fst (fst (run late (checkPkgUpdate (E:=Node.engine) "node-karin") tt (boot 0)))
     = Returned (CheckYes (Some "1.4.0") "1.4.1")
  /\ option_map fst (updateAllPkg (E:=Node.engine) late 6 (boot 0))
     = Some (Returned "获取失败，foo 未安装")
  /\ option_map fst (updateAllPkg (E:=Node.engine) early 6 (boot 0))
     = Some (Returned "获取失败，foo 未安装")
  /\ includes "node-karin" "获取失败，foo 未安装" = false.
Proof. repeat split; reflexivity. Qed.

Lemma updateAllPkg_nothing_to_update_witness :
  let h := Example.current Example.last_pending in
  exists m',
    updateAllPkg (E:=Node.engine) h 6 (boot 0) = Some (Returned nothing_to_update, m')
    /\ filter is_upgrade (calls m') = filter is_upgrade (calls (boot 0)).
Proof.
  intros h.
  apply (updateAllPkg_nothing_to_update (E:=Node.engine) h
           (Example.answers_of h) (fun _ => false)
           (current_stable Example.last_pending)
           ["npm:foo"] (Some (Example.manifest [])) 6 (boot 0)).
  - reflexivity.
  - reflexivity.
  - intros name [<-|[<-|[]]].
    + exists (Some "1.2.3"). split; reflexivity.
    + exists (Some "1.4.1"). split; reflexivity.
  - simpl. lia.
Defined.

Lemma updateAllPkg_report_order_witness :
  fst (fst (run Example.two_upgrades
                (try_catch (upgrade_planned (E:=Node.engine) Example.two_planned)
                           report_error) tt (boot 0)))
  = Returned (join nl [success_line "beta" (Some "2.0.0") (Some "2.0.1");
                       success_line "alpha" (Some "1.0.0") (Some "1.0.1")]).
Proof.
  rewrite (updateAllPkg_report_order Example.two_upgrades Example.two_planned (boot 0)
             (Example.succeeded "Done in 3.4s") 1
             (Example.manifest [("alpha", "1.0.1"); ("beta", "2.0.1")]) 2).
  - reflexivity.
  - reflexivity.
  - reflexivity.
  - reflexivity.
  - reflexivity.
  - simpl. lia.
Defined.

(** C6 as stated fails: [alpha] and [beta] are both upgraded and their
    lines are built in this order; in the report the line of [beta] stands
    before the line of [alpha]. *)
Lemma updateAllPkg_report_reverses_successes :
  let alpha := success_line "alpha" (Some "1.0.0") (Some "1.0.1") in
  let beta := success_line "beta" (Some "2.0.0") (Some "2.0.1") in
  let pkg := Example.manifest [("alpha", "1.0.1"); ("beta", "2.0.1")] in
  let listed := {| world := 2; calls := [ReqPlugins npm; ReqRequire false];
                   journal := [] |} in
  option_map (fun r => state (snd (fst r)))
             (gather Example.two_upgrades FailFast 9
                     (map (probe (E:=Node.engine) (Some pkg))
                          ["npm:alpha"; "npm:beta"; "node-karin"])
                     plan0 listed)
    = Some (state Example.two_planned)
  /\ map (verdict pkg) (object_entries (state Example.two_planned)) = [alpha; beta]
  /\ sort (Engine:=Node.engine) success_first [alpha; beta] = [beta; alpha]
  /\ option_map fst (updateAllPkg (E:=Node.engine) Example.two_upgrades 9 (boot 0))
     = Some (Returned (join nl [beta; alpha])).
Proof. repeat split; reflexivity. Qed.

(* ================================================================== *)
(** ** Further properties of the single calls *)
(* ================================================================== *)

Section Calls.
Context {W : Type} (h : Host W).

(** A call only adds to the requests started, and what it adds is what its
    body can start. *)
Lemma run_started {St A} (P : Request -> Prop) (t : Async St A) s m :
  only_requests P t ->
  exists new, started_by m (snd (run h t s m)) new /\ Forall P new.
Proof.
  unfold started_by. revert s m.
  induction t as [a|e|q k IH|q k IH|p k IH|ev k IH|g k IH]; intros s m Ht; simpl in *.
  - exists []. now rewrite app_nil_r.
  - exists []. now rewrite app_nil_r.
  - destruct Ht as [Hq Hk].
    destruct (host_answer h q _) as [a w].
    destruct (IH a s (moved w (started h q m)) (Hk a)) as (new & Hc & Hn).
    exists (q :: new). split; [|constructor; assumption].
    rewrite Hc. simpl. now rewrite <- app_assoc.
  - destruct Ht as [Hq Hk].
    destruct (IH s (started h q m) Hk) as (new & Hc & Hn).
    exists (q :: new). split; [|constructor; assumption].
    rewrite Hc. simpl. now rewrite <- app_assoc.
  - apply IH, Ht.
  - apply (IH s (noted ev m) Ht).
  - apply IH, Ht.
Qed.

(** A body that cannot throw returns, and leaves the closure variables. *)
Lemma run_quiet {St A} (t : Async St A) s m :
  quiet t -> exists a m', run h t s m = (Returned a, s, m').
Proof.
  revert s m.
  induction t as [a|e|q k IH|q k IH|p k IH|ev k IH|g k IH]; intros s m Ht; simpl in *;
    try contradiction; eauto.
  destruct (host_answer h q _) as [a w]. apply IH, Ht.
Qed.

(** Nothing that runs removes a request from those started. *)
Lemma run_grows {St A} (t : Async St A) s m :
  incl (calls m) (calls (snd (run h t s m))).
Proof.
  destruct (run_started (fun _ => True) t s m) as (new & Hc & _).
  - clear. induction t; simpl; auto.
  - unfold started_by in Hc. rewrite Hc. apply incl_appl, incl_refl.
Qed.

End Calls.

(* ================================================================== *)
(** ** Substrings *)
(* ================================================================== *)

Lemma prefix_split (a s : string) :
  prefix a s = true <-> exists q, s = a ++ q.
Proof.
  revert s. induction a as [|c a IH]; intros s; simpl.
  - split; [intros _; now exists s | intros _; now destruct s].
  - destruct s as [|c' s]; simpl.
    + split; [discriminate | intros [q Hq]; discriminate].
    + destruct (Ascii.ascii_dec c c') as [->|Hne].
      * rewrite IH. split; intros [q Hq]; exists q; congruence.
      * split; [discriminate | intros [q Hq]; congruence].
Qed.

Lemma append_assoc (a b c : string) : (a ++ b) ++ c = a ++ b ++ c.
Proof. induction a as [|x a IH]; simpl; congruence. Qed.

Lemma includes_split (a s : string) :
  includes a s = true <-> exists p q, s = p ++ a ++ q.
Proof.
  split.
  - induction s as [|c s IH]; cbn [includes].
    + destruct (prefix a EmptyString) eqn:Hp; [|discriminate].
      intros _. apply prefix_split in Hp as [q Hq]. now exists EmptyString, q.
    + destruct (prefix a (String c s)) eqn:Hp.
      * intros _. apply prefix_split in Hp as [q Hq]. now exists EmptyString, q.
      * intros H. destruct (IH H) as (p & q & ->). now exists (String c p), q.
  - intros (p & q & ->). apply includes_app_r.
    assert (Hp : prefix a (a ++ q) = true) by (apply prefix_split; now exists q).
    destruct (a ++ q); cbn [includes]; now rewrite Hp.
Qed.

(** A part of a part is a part. *)
Lemma includes_trans (a b c : string) :
  includes a b = true -> includes b c = true -> includes a c = true.
Proof.
  rewrite !includes_split. intros (p & q & ->) (p' & q' & ->).
  exists (p' ++ p), (q ++ q'). now rewrite !append_assoc.
Qed.


(* ================================================================== *)
(** ** npm packages: the resolution of versions *)
(* ================================================================== *)

Section Resolution.
Context {E : Engine} {W : Type} (h : Host W) {St : Type}.

(** [getPkgVersion] when the output of the list command holds a marker. *)
Lemma run_getPkgVersion_marked name (s : St) m r w :
  let q := ReqExec (list_cmd name) None in
  host_answer h q (world (started h q m)) = (r, w) ->
  includes "empty" (stdout r) || includes "extraneous" (stdout r) = true ->
  run h (getPkgVersion name) s m
  = (Raised (not_installed name), s, moved w (started h q m)).
Proof.
  intros q Ha Hm.
  assert (Ht : truthy (stdout r) = true).
  { destruct (stdout r); [discriminate Hm|reflexivity]. }
  unfold getPkgVersion. rewrite run_exec_bind. cbv zeta. fold q. rewrite Ha.
  unfold version_in_stdout. rewrite Ht, Hm. reflexivity.
Qed.

(** X1. The version printed by the list command is the answer whatever the
    runner reports besides: when the output holds no marker and a version
    match, [getPkgVersion] returns the match, also when the runner reports an
    error, and does not read the manifest. *)
Theorem getPkgVersion_listed_first name (s : St) m r w v :
  let q := ReqExec (list_cmd name) None in
  host_answer h q (world (started h q m)) = (r, w) ->
  truthy (stdout r) = true ->
  includes "empty" (stdout r) = false ->
  includes "extraneous" (stdout r) = false ->
  exec_version name (stdout r) = RxMatch v ->
  truthy v = true ->
  run h (getPkgVersion name) s m = (Returned (Some v), s, moved w (started h q m)).
Proof.
  intros q Ha Ht Hempty Hextra Hrx Hv.
  unfold getPkgVersion. rewrite run_exec_bind. cbv zeta. fold q. rewrite Ha.
  unfold version_in_stdout. rewrite Ht, Hempty, Hextra, Hrx, Hv. reflexivity.
Qed.

(** X2. An output of the list command that holds [empty] or [extraneous]
    anywhere makes [getPkgVersion] throw "not installed", whatever else it
    holds and whatever the runner reports. So does an output that names a
    package whose own name holds one of the two words. *)
Theorem getPkgVersion_marked_not_installed name (s : St) m r w :
  let q := ReqExec (list_cmd name) None in
  host_answer h q (world (started h q m)) = (r, w) ->
  (includes "empty" (stdout r) = true \/ includes "extraneous" (stdout r) = true
   \/ ((includes "empty" name = true \/ includes "extraneous" name = true)
       /\ includes name (stdout r) = true)) ->
  run h (getPkgVersion name) s m
  = (Raised (not_installed name), s, moved w (started h q m)).
Proof.
  intros q Ha Hm. apply (run_getPkgVersion_marked name s m r w Ha).
  apply orb_true_iff.
  destruct Hm as [Hm|[Hm|[[Hn|Hn] Hin]]]; auto.
  - left. exact (includes_trans _ _ _ Hn Hin).
  - right. exact (includes_trans _ _ _ Hn Hin).
Qed.

(** X3. When the output gives no version and the runner reports an error,
    [getPkgVersion] throws: "not installed" if the stack of the error holds a
    marker, the error itself if not. The manifest is not read. *)
Theorem getPkgVersion_runner_error name (s : St) m r w e :
  let q := ReqExec (list_cmd name) None in
  host_answer h q (world (started h q m)) = (r, w) ->
  (truthy (stdout r) = false
   \/ (includes "empty" (stdout r) = false /\ includes "extraneous" (stdout r) = false
       /\ exec_version name (stdout r) = RxNull)) ->
  error r = Some e ->
  run h (getPkgVersion name) s m
  = (Raised (if stack_includes "empty" (Some e) || stack_includes "extraneous" (Some e)
             then not_installed name else ThrownError e),
     s, moved w (started h q m)).
Proof.
  intros q Ha Hout He.
  unfold getPkgVersion. rewrite run_exec_bind. cbv zeta. fold q. rewrite Ha.
  unfold version_in_stdout.
  destruct Hout as [Ht|(Hempty & Hextra & Hrx)].
  - rewrite Ht. simpl. rewrite He. destruct (_ || _); reflexivity.
  - rewrite Hempty, Hextra, Hrx.
    destruct (truthy (stdout r)); simpl; rewrite He; destruct (_ || _); reflexivity.
Qed.

(** X4. The last resort of [getPkgVersion], taken when the output gives no
    version and the runner reports no error, for a name that is not the name
    of a member of [Object.prototype]: the entry of the manifest, the first
    that is not empty of [dependencies], [devDependencies] and
    [peerDependencies]; a manifest that cannot be read makes it throw. *)
Theorem getPkgVersion_manifest_order name (s : St) m r w1 :
  let q := ReqExec (list_cmd name) None in
  let m1 := moved w1 (started h q m) in
  prototype_member name = false ->
  host_answer h q (world (started h q m)) = (r, w1) ->
  (truthy (stdout r) = false
   \/ (includes "empty" (stdout r) = false /\ includes "extraneous" (stdout r) = false
       /\ exec_version name (stdout r) = RxNull)) ->
  error r = None ->
  forall a w2,
    host_answer h (ReqRequire false) (world (started h (ReqRequire false) m1)) = (a, w2) ->
    let m2 := moved w2 (started h (ReqRequire false) m1) in
    match a with
    | Raised e => run h (getPkgVersion name) s m = (Raised e, s, m2)
    | Returned pkg =>
      exists v, run h (getPkgVersion name) s m = (Returned v, s, m2)
        /\ let dep := manifest_entry pkg dependencies name in
           let dev := manifest_entry pkg devDependencies name in
           let peer := manifest_entry pkg peerDependencies name in
           (truthy_opt dep = true -> v = dep)
           /\ (truthy_opt dep = false -> truthy_opt dev = true -> v = dev)
           /\ (truthy_opt dep = false -> truthy_opt dev = false -> v = peer)
    end.
Proof.
  intros q m1 _ Ha Hout He a w2 Hp m2.
  assert (Hrun : run h (getPkgVersion name) s m
                 = match a with
                   | Raised e => (Raised e, s, m2)
                   | Returned pkg =>
                     (Returned (or (or (manifest_entry pkg dependencies name)
                                       (manifest_entry pkg devDependencies name))
                                   (manifest_entry pkg peerDependencies name)), s, m2)
                   end).
  { unfold getPkgVersion. rewrite run_exec_bind. cbv zeta. fold q. rewrite Ha.
    unfold version_in_stdout. subst m2 m1. simpl in Hp.
    destruct Hout as [Ht|(Hempty & Hextra & Hrx)].
    - rewrite Ht. simpl. rewrite He. simpl. rewrite Hp. destruct a; reflexivity.
    - rewrite Hempty, Hextra, Hrx.
      destruct (truthy (stdout r)); simpl; rewrite He; simpl; rewrite Hp;
        destruct a; reflexivity. }
  destruct a as [pkg|e]; [|exact Hrun].
  eexists. split; [exact Hrun|]. cbv zeta. unfold or.
  repeat split.
  - intros Hd. rewrite Hd. cbv iota. now rewrite Hd.
  - intros Hd Hv. rewrite Hd. cbv iota. now rewrite Hv.
  - intros Hd Hv. rewrite Hd. cbv iota. now rewrite Hv.
Qed.

(** X5. [getRemotePkgVersion] goes by the status of the command alone: with a
    true status it returns the output, trimmed, whatever error the runner
    reports besides; with a false status it throws, "not installed" if the
    stack of the error holds a marker, and if not the error the runner
    reports, which is [null] when it reports none. *)
Theorem getRemotePkgVersion_by_status name tag (s : St) m r w :
  let q := ReqExec (show_cmd name (default "latest" tag)) None in
  host_answer h q (world (started h q m)) = (r, w) ->
  run h (getRemotePkgVersion name tag) s m
  = (if status r then Returned (trim (stdout r))
     else if stack_includes "empty" (error r) || stack_includes "extraneous" (error r)
          then Raised (not_installed name)
          else Raised (rethrow (error r)),
     s, moved w (started h q m)).
Proof.
  intros q Ha. unfold getRemotePkgVersion. rewrite run_exec_bind. cbv zeta.
  fold q. rewrite Ha. destruct (status r); simpl; [reflexivity|].
  destruct (_ || _); reflexivity.
Qed.

End Resolution.


(* ================================================================== *)
(** ** npm packages: the versions on Node.js *)
(* ================================================================== *)

Lemma trim_start_first (s : string) :
  match first_char (Node.trim_start s) with
  | Some c => Node.is_space c = false
  | None => True
  end.
Proof.
  induction s as [|c s IH]; [exact I|].
  cbn [Node.trim_start]. destruct (Node.is_space c) eqn:Hc; [exact IH|exact Hc].
Qed.

Lemma trim_end_first (s : string) :
  match first_char s with
  | Some c => Node.is_space c = false -> first_char (Node.trim_end s) = Some c
  | None => True
  end.
Proof.
  destruct s as [|c s]; [exact I|].
  cbn [first_char Node.trim_end]. intros Hc.
  destruct (Node.trim_end s); [rewrite Hc|]; reflexivity.
Qed.

Lemma trim_end_last (s : string) :
  match last_char (Node.trim_end s) with
  | Some c => Node.is_space c = false
  | None => True
  end.
Proof.
  induction s as [|c s IH]; [exact I|].
  cbn [Node.trim_end]. destruct (Node.trim_end s) as [|c' kept].
  - destruct (Node.is_space c) eqn:Hc; [exact I|exact Hc].
  - exact IH.
Qed.

(** What [trim] returns neither begins nor ends with white space. *)
Lemma trim_not_padded (s : string) : padded (trim (Engine:=Node.engine) s) = false.
Proof.
  unfold padded. cbn [trim Node.engine].
  pose proof (trim_start_first s) as Hs.
  pose proof (trim_end_first (Node.trim_start s)) as Hf.
  pose proof (trim_end_last (Node.trim_start s)) as Hl.
  destruct (Node.trim_start s) as [|c t]; [reflexivity|].
  cbn [first_char] in Hs, Hf. rewrite (Hf Hs).
  destruct (last_char _) as [c'|]; [|reflexivity].
  now rewrite Hs, Hl.
Qed.

Lemma digits_prefix_split (s : string) :
  forall d r, Node.digits_prefix s = (d, r) -> s = d ++ r.
Proof.
  induction s as [|c s IH]; intros d r; cbn [Node.digits_prefix].
  - intros [= <- <-]. reflexivity.
  - destruct (Node.is_digit c).
    + destruct (Node.digits_prefix s) as [d' r'] eqn:Hs. intros [= <- <-].
      simpl. now rewrite (IH d' r' eq_refl).
    + intros [= <- <-]. reflexivity.
Qed.

(** The digits found are found again, whatever follows them that is not a
    digit. *)
Lemma digits_prefix_again (s : string) :
  forall d r t, Node.digits_prefix s = (d, r) ->
    match t with String c _ => Node.is_digit c = false | EmptyString => True end ->
    Node.digits_prefix (d ++ t) = (d, t).
Proof.
  induction s as [|c s IH]; intros d r t; cbn [Node.digits_prefix].
  - intros [= <- <-] Ht. simpl. destruct t as [|c t]; [reflexivity|].
    cbn [Node.digits_prefix]. now rewrite Ht.
  - destruct (Node.is_digit c) eqn:Hc.
    + destruct (Node.digits_prefix s) as [d' r'] eqn:Hs. intros [= <- <-] Ht.
      simpl. rewrite Hc. now rewrite (IH d' r' t eq_refl Ht).
    + intros [= <- <-] Ht. simpl. destruct t as [|c' t]; [reflexivity|].
      cbn [Node.digits_prefix]. now rewrite Ht.
Qed.

Lemma append_nil_r (s : string) : s ++ EmptyString = s.
Proof. induction s; simpl; congruence. Qed.

(** Three runs of digits with dots between them are read as a version. *)
Lemma semver_here_whole (a b c : string) :
  a <> EmptyString -> b <> EmptyString -> c <> EmptyString ->
  (forall t, match t with String x _ => Node.is_digit x = false | EmptyString => True end ->
             Node.digits_prefix (a ++ t) = (a, t)) ->
  (forall t, match t with String x _ => Node.is_digit x = false | EmptyString => True end ->
             Node.digits_prefix (b ++ t) = (b, t)) ->
  Node.digits_prefix c = (c, EmptyString) ->
  Node.semver_here (a ++ String "." (b ++ String "." c))
  = Some (a ++ "." ++ b ++ "." ++ c).
Proof.
  intros Na Nb Nc Ha Hb Hc. unfold Node.semver_here.
  rewrite Ha by reflexivity. destruct a; [contradiction|].
  rewrite Hb by reflexivity. destruct b; [contradiction|].
  rewrite Hc. destruct c; [contradiction|]. reflexivity.
Qed.

(** What [semver_here] finds stands at the head, and is three numbers. *)
Lemma semver_here_shape (s v : string) :
  Node.semver_here s = Some v ->
  (exists rest, s = v ++ rest) /\ three_numbers v = true.
Proof.
  intros H. unfold three_numbers. unfold Node.semver_here in H. revert H.
  destruct (Node.digits_prefix s) as [a r1] eqn:Ha.
  destruct a as [|a0 a]; [discriminate|].
  destruct r1 as [|c1 r2]; [discriminate|].
  destruct (Ascii.ascii_dec c1 ".") as [->|Hne];
    [|destruct c1 as [[] [] [] [] [] [] [] []]; try discriminate; congruence].
  destruct (Node.digits_prefix r2) as [b r3] eqn:Hb.
  destruct b as [|b0 b]; [discriminate|].
  destruct r3 as [|c3 r4]; [discriminate|].
  destruct (Ascii.ascii_dec c3 ".") as [->|Hne];
    [|destruct c3 as [[] [] [] [] [] [] [] []]; try discriminate; congruence].
  destruct (Node.digits_prefix r4) as [c r5] eqn:Hc.
  destruct c as [|c0 c]; [discriminate|].
  intros [= <-].
  pose proof (digits_prefix_split _ _ _ Ha) as Ea.
  pose proof (digits_prefix_split _ _ _ Hb) as Eb.
  pose proof (digits_prefix_split _ _ _ Hc) as Ec.
  split.
  - exists r5. rewrite Ea, Eb, Ec. cbn [append].
    repeat (rewrite append_assoc; cbn [append]). reflexivity.
  - pose proof (digits_prefix_again _ _ _ EmptyString Hc I) as Hc'.
    rewrite append_nil_r in Hc'.
    pose proof (semver_here_whole (String a0 a) (String b0 b) (String c0 c)
                  ltac:(discriminate) ltac:(discriminate) ltac:(discriminate)
                  (fun t => digits_prefix_again _ _ _ t Ha)
                  (fun t => digits_prefix_again _ _ _ t Hb) Hc') as X.
    cbn [append] in X |- *. rewrite X.
    apply String.eqb_refl.
Qed.

Lemma drop_app (a q : string) : drop (String.length a) (a ++ q) = q.
Proof. induction a as [|c a IH]; simpl; [now destruct q|exact IH]. Qed.

Lemma length_append (a b : string) :
  String.length (a ++ b) = String.length a + String.length b.
Proof. induction a; simpl; congruence. Qed.

(** The version the pattern finds follows the name in the text, and is
    three numbers. *)
Lemma find_version_shape (name data v : string) :
  Node.find_version name data = Some v ->
  includes (name ++ "@" ++ v) data = true /\ three_numbers v = true.
Proof.
  induction data as [|c data IH]; cbn [Node.find_version].
  - destruct (prefix (name ++ "@") EmptyString) eqn:Hp.
    + apply prefix_split in Hp as [q Hq].
      destruct name; discriminate.
    + discriminate.
  - destruct (prefix (name ++ "@") (String c data)) eqn:Hp.
    + destruct (Node.semver_here _) as [v'|] eqn:Hv.
      * intros [= ->]. apply prefix_split in Hp as [q Hq].
        rewrite Hq in Hv.
        replace (String.length name + 1) with (String.length (name ++ "@")) in Hv
          by (rewrite length_append; reflexivity).
        rewrite drop_app in Hv.
        apply semver_here_shape in Hv as [[rest ->] Hshape].
        split; [|exact Hshape].
        rewrite Hq. apply includes_split. exists EmptyString, rest.
        simpl. now rewrite !append_assoc.
      * intros H. destruct (IH H) as [Hin Hshape]. split; [|exact Hshape].
        exact (includes_app_r _ (String c EmptyString) data Hin).
    + intros H. destruct (IH H) as [Hin Hshape]. split; [|exact Hshape].
      exact (includes_app_r _ (String c EmptyString) data Hin).
Qed.

Section NodeVersions.
Context {W : Type} (h : Host W) {St : Type}.

(** X6. On Node.js the remote version [getRemotePkgVersion] returns is the
    output of the command without the white space around it: it neither begins
    nor ends with a blank or a line end. *)
Theorem getRemotePkgVersion_trimmed name tag (s : St) m v s' m' :
  run h (getRemotePkgVersion (E:=Node.engine) name tag) s m = (Returned v, s', m') ->
  padded v = false.
Proof.
  unfold getRemotePkgVersion. rewrite run_exec_bind. cbv zeta.
  destruct (host_answer h _ _) as [r w].
  destruct (negb (status r)).
  - destruct (_ || _); discriminate.
  - intros [= <- _ _]. apply trim_not_padded.
Qed.

(** X7. On Node.js, for a name without characters special in a pattern: a
    version [getPkgVersion] returns after the list command alone, the manifest
    not read, is three numbers with dots between them, and stands after
    [name@] in the output of the command. *)
Theorem getPkgVersion_listed_shape name (s : St) m r w v s' m' :
  let q := ReqExec (list_cmd name) None in
  literal name = true ->
  host_answer h q (world (started h q m)) = (r, w) ->
  run h (getPkgVersion (E:=Node.engine) name) s m = (Returned (Some v), s', m') ->
  started_by m m' [q] ->
  three_numbers v = true /\ includes (name ++ "@" ++ v) (stdout r) = true.
Proof.
  intros q _ Ha Hrun Hcalls. unfold started_by in Hcalls.
  unfold getPkgVersion in Hrun. rewrite run_exec_bind in Hrun. cbv zeta in Hrun.
  fold q in Hrun. rewrite Ha in Hrun.
  assert (Hfall :
    run h (match error r with
           | Some e =>
             if stack_includes "empty" (Some e) || stack_includes "extraneous" (Some e)
             then Throw (not_installed name) else Throw (ThrownError e)
           | None =>
             pkg <- getPkg false ;;
             Ret (or (or (manifest_entry pkg dependencies name)
                         (manifest_entry pkg devDependencies name))
                     (manifest_entry pkg peerDependencies name))
           end) s (moved w (started h q m)) = (Returned (Some v), s', m') -> False).
  { destruct (error r) as [e|].
    - destruct (_ || _); discriminate.
    - unfold getPkg. simpl. destruct (host_answer h (ReqRequire false) _) as [[p|e] w2]; simpl.
      + intros [= _ _ <-]. simpl in Hcalls.
        rewrite <- app_assoc in Hcalls. apply app_inv_head in Hcalls. discriminate.
      + discriminate. }
  unfold version_in_stdout in Hrun.
  destruct (truthy (stdout r)); [|exact (False_ind _ (Hfall Hrun))].
  destruct (_ || _); [discriminate Hrun|].
  cbn [exec_version Node.engine] in Hrun.
  destruct (Node.find_version name (stdout r)) as [g|] eqn:Hg;
    [|exact (False_ind _ (Hfall Hrun))].
  destruct (truthy g); [|exact (False_ind _ (Hfall Hrun))].
  simpl in Hrun. injection Hrun as <- _ _.
  destruct (find_version_shape _ _ _ Hg) as [Hin Hshape]. now split.
Qed.

End NodeVersions.


(* ================================================================== *)
(** ** npm packages: the check and the update of one *)
(* ================================================================== *)

Section CheckAndUpdate.
Context {E : Engine} {W : Type} (h : Host W) {St : Type}.

Lemma getPkgVersion_resolves name tag :
  only_requests (resolves name tag) (getPkgVersion (St:=St) name).
Proof.
  unfold getPkgVersion. simpl. split; [now left|]. intros r.
  apply only_requests_bind.
  - unfold version_in_stdout.
    destruct (truthy (stdout r)); simpl; auto.
    destruct (_ || _); simpl; auto.
    destruct (exec_version name (stdout r)); simpl; auto.
    destruct (truthy group1); simpl; auto.
  - intros [v|]; simpl; auto.
    destruct (error r); simpl.
    + destruct (_ || _); simpl; auto.
    + split; [now right; right|]. intros [p|e]; simpl; auto.
Qed.

Lemma getRemotePkgVersion_resolves name tag :
  only_requests (resolves name (default "latest" tag))
                (getRemotePkgVersion (St:=St) name tag).
Proof.
  unfold getRemotePkgVersion. simpl. split; [now right; left|].
  intros r. destruct (negb (status r)); simpl; auto.
  destruct (_ || _); simpl; auto.
Qed.

Lemma only_requests_weaken {A} (P Q : Request -> Prop) (t : Async St A) :
  (forall q, P q -> Q q) -> only_requests P t -> only_requests Q t.
Proof.
  intros HPQ. induction t as [a|e|q k IH|q k IH|p k IH|ev k IH|g k IH];
    simpl; intuition auto.
Qed.

Lemma checkPkgUpdate_resolves name :
  only_requests (resolves name "latest") (checkPkgUpdate (St:=St) name).
Proof.
  unfold checkPkgUpdate. apply only_requests_try_catch.
  - apply only_requests_bind; [apply getPkgVersion_resolves|]. intros local.
    apply only_requests_bind; [apply (getRemotePkgVersion_resolves name None)|].
    intros remote. destruct (strict_eq _ _); exact I.
  - intros e. exact I.
Qed.

(** X8. A check is only a check: the requests [checkPkgUpdate] starts are the
    list command and the show command of the package and the reading of the
    manifest, and no other; no upgrade command among them. *)
Theorem checkPkgUpdate_only_resolves name (s : St) m :
  exists new,
    started_by m (snd (run h (checkPkgUpdate name) s m)) new
    /\ Forall (resolves name "latest") new
    /\ filter is_upgrade new = [].
Proof.
  destruct (run_started h (resolves name "latest") (checkPkgUpdate name) s m
              (checkPkgUpdate_resolves name)) as (new & Hc & Hall).
  exists new. split; [exact Hc|]. split; [exact Hall|].
  clear Hc. induction Hall as [|q new Hq _ IH]; [reflexivity|].
  simpl. rewrite IH.
  destruct Hq as [ -> | [ -> | -> ] ]; reflexivity.
Qed.

Lemma updatePkg_quiet name tag : quiet (updatePkg (St:=St) name tag).
Proof.
  unfold updatePkg. apply quiet_try_catch; [|intros e; exact I].
  apply no_modify_bind; [apply getPkgVersion_no_modify|]. intros local.
  apply no_modify_bind.
  - unfold getRemotePkgVersion, exec. simpl. intros r.
    destruct (negb (status r)); simpl; auto. destruct (_ || _); exact I.
  - intros remote. destruct (strict_eq _ _); [exact I|].
    apply no_modify_bind; [simpl; auto|].
    intros r. destruct (error r); [exact I|].
    apply no_modify_bind; [apply getPkgVersion_no_modify|].
    intros updated. destruct (negb _); exact I.
Qed.

(** X9. [updatePkg] never rejects: whatever the commands and the manifest
    answer, it returns a result, [ok] or [failed]. *)
Theorem updatePkg_never_rejects name tag (s : St) m :
  exists r m', run h (updatePkg name tag) s m = (Returned r, s, m').
Proof. apply run_quiet, updatePkg_quiet. Qed.

(** X10. When the upgrade command reports an error, [updatePkg] returns
    [failed] with that error: it is not logged, and the local version is not
    resolved again. *)
Theorem updatePkg_upgrade_error name tag (s : St) m local remote s1 m1 s2 m2 r w3 e :
  let q := ReqExec (upgrade_cmd name remote) None in
  run h (getPkgVersion name) s m = (Returned local, s1, m1) ->
  run h (getRemotePkgVersion name (Some (default "latest" tag))) s1 m1
    = (Returned remote, s2, m2) ->
  local <> Some remote ->
  host_answer h q (world (started h q m2)) = (r, w3) ->
  error r = Some e ->
  run h (updatePkg name tag) s m
  = (Returned (PkgFailed (FailValue (ThrownError e))), s2,
     {| world := w3; calls := (calls m2 ++ [q])%list; journal := journal m2 |}).
Proof.
  intros q Hl Hr Hne Ha He.
  rewrite run_updatePkg, Hl, Hr.
  apply strict_eq_false in Hne. rewrite Hne. cbv zeta. fold q. rewrite Ha, He.
  reflexivity.
Qed.

Lemma updatePkg_upgrades name tag :
  only_requests (upgrades name (default "latest" tag)) (updatePkg (St:=St) name tag).
Proof.
  unfold updatePkg. apply only_requests_try_catch; [|intros e; exact I].
  apply only_requests_bind.
  { eapply only_requests_weaken; [|apply getPkgVersion_resolves]. intros q Hq; left; exact Hq. }
  intros local. apply only_requests_bind.
  { eapply only_requests_weaken;
      [|apply (getRemotePkgVersion_resolves name (Some (default "latest" tag)))].
    intros q Hq; left; exact Hq. }
  intros remote. destruct (strict_eq _ _); [exact I|].
  apply only_requests_bind; [simpl; split; [right; now exists remote|auto]|].
  intros r. destruct (error r); [exact I|].
  apply only_requests_bind.
  { eapply only_requests_weaken; [|apply getPkgVersion_resolves]. intros q Hq; left; exact Hq. }
  intros updated. destruct (negb _); exact I.
Qed.

Lemma resolves_no_upgrade name tag (new : list Request) :
  Forall (resolves name tag) new -> filter is_upgrade new = [].
Proof.
  induction 1 as [|q new Hq _ IH]; [reflexivity|].
  simpl. rewrite IH.
  destruct Hq as [ -> | [ -> | -> ] ]; try reflexivity.
  unfold show_cmd. destruct (String.eqb tag "latest"); reflexivity.
Qed.

(** X11. Besides the requests of the version check, with the tag it was given,
    [updatePkg] starts one upgrade at most, and only when the local and the
    remote version it resolved differ: the command is then [pnpm up
    name@remote], with the name it was given and the remote version resolved
    in this call. *)
Theorem updatePkg_only_upgrades name tag (s : St) m :
  exists new,
    started_by m (snd (run h (updatePkg name tag) s m)) new
    /\ Forall (upgrades name (default "latest" tag)) new
    /\ (filter is_upgrade new = []
        \/ exists local s1 m1 remote s2 m2,
             run h (getPkgVersion name) s m = (Returned local, s1, m1)
             /\ run h (getRemotePkgVersion name (Some (default "latest" tag))) s1 m1
                = (Returned remote, s2, m2)
             /\ local <> Some remote
             /\ filter is_upgrade new = [ReqExec (upgrade_cmd name remote) None]).
Proof.
  destruct (run_started h _ (updatePkg name tag) s m (updatePkg_upgrades name tag))
    as (new & Hc & Hall).
  exists new. split; [exact Hc|]. split; [exact Hall|].
  unfold started_by in Hc.
  assert (Hf : filter is_upgrade (calls (snd (run h (updatePkg name tag) s m)))
               = (filter is_upgrade (calls m) ++ filter is_upgrade new)%list)
    by (rewrite Hc; apply filter_app).
  clear Hc Hall. revert Hf. rewrite run_updatePkg.
  pose proof (run_keeps_calls h is_upgrade (getPkgVersion name) s m
                (getPkgVersion_requests name)) as K1.
  destruct (run h (getPkgVersion name) s m) as [[[local|e] s1] m1]; cbn [snd] in K1.
  2:{ unfold caught_update, noted. cbn [snd calls]. rewrite K1. intros Hf. left.
      apply (app_inv_head (filter is_upgrade (calls m))). now rewrite app_nil_r. }
  pose proof (run_keeps_calls h is_upgrade
                (getRemotePkgVersion name (Some (default "latest" tag))) s1 m1
                (getRemotePkgVersion_requests name _)) as K2.
  destruct (run h (getRemotePkgVersion name (Some (default "latest" tag))) s1 m1)
    as [[[remote|e] s2] m2] eqn:E2; cbn [snd] in K2.
  2:{ unfold caught_update, noted. cbn [snd calls]. rewrite K2, K1. intros Hf. left.
      apply (app_inv_head (filter is_upgrade (calls m))). now rewrite app_nil_r. }
  destruct (strict_eq local (Some remote)) eqn:Heq.
  { cbn [snd]. rewrite K2, K1. intros Hf. left.
    apply (app_inv_head (filter is_upgrade (calls m))). now rewrite app_nil_r. }
  apply strict_eq_false in Heq. cbv zeta.
  assert (Hq : forall m' : Machine W,
             filter is_upgrade (calls m')
             = (filter is_upgrade (calls m2) ++ [ReqExec (upgrade_cmd name remote) None])%list ->
             filter is_upgrade (calls m')
             = (filter is_upgrade (calls m) ++ filter is_upgrade new)%list ->
             filter is_upgrade new = [ReqExec (upgrade_cmd name remote) None]).
  { intros m' H1 H2. rewrite H1, K2, K1 in H2.
    symmetry. exact (app_inv_head _ _ _ H2). }
  assert (Hstart : forall w3,
             filter is_upgrade
               (calls (moved w3 (started h (ReqExec (upgrade_cmd name remote) None) m2)))
             = (filter is_upgrade (calls m2)
                ++ [ReqExec (upgrade_cmd name remote) None])%list).
  { intros w3. simpl. rewrite filter_app. reflexivity. }
  destruct (host_answer h (ReqExec (upgrade_cmd name remote) None) _) as [r w3].
  intros Hf. right. exists local, s1, m1, remote, s2, m2.
  split; [reflexivity|]. split; [exact E2|]. split; [exact Heq|].
  destruct (error r) as [e|].
  - exact (Hq _ (Hstart w3) Hf).
  - unfold verify_upgrade in Hf.
    pose proof (run_keeps_calls h is_upgrade (getPkgVersion name) s2
                  (moved w3 (started h (ReqExec (upgrade_cmd name remote) None) m2))
                  (getPkgVersion_requests name)) as K3.
    destruct (run h (getPkgVersion name) s2 _) as [[[updated|e] s4] m4]; cbn [snd] in K3.
    + apply (Hq m4); [rewrite K3; apply Hstart|exact Hf].
    + apply (Hq m4); [rewrite K3; apply Hstart|].
      unfold caught_update, noted in Hf. exact Hf.
Qed.

(** X12. From the same state of the world the update agrees with the check:
    when [checkPkgUpdate] answers [no], [updatePkg] returns [failed] with the
    "no update" line and has started the same requests; when it answers
    [error], [updatePkg] returns [failed] with the same thrown value; when it
    answers [yes], [updatePkg] starts the upgrade to the remote version of the
    check. *)
Theorem updatePkg_agrees_with_check name (s : St) m :
  (forall local s' m',
     run h (checkPkgUpdate name) s m = (Returned (CheckNo local), s', m') ->
     run h (updatePkg name None) s m
     = (Returned (PkgFailed (FailText (no_update_line name local local))), s', m'))
  /\ (forall e s' m',
        run h (checkPkgUpdate name) s m = (Returned (CheckError e), s', m') ->
        run h (updatePkg name None) s m = (Returned (PkgFailed (FailValue e)), s', m'))
  /\ (forall local remote s' m',
        run h (checkPkgUpdate name) s m = (Returned (CheckYes local remote), s', m') ->
        In (ReqExec (upgrade_cmd name remote) None)
           (calls (snd (run h (updatePkg name None) s m)))).
Proof.
  rewrite run_checkPkgUpdate, run_updatePkg.
  change (getRemotePkgVersion name (Some (default "latest" None)))
    with (getRemotePkgVersion (St:=St) name None).
  destruct (run h (getPkgVersion name) s m) as [[[local|e] s1] m1].
  - destruct (run h (getRemotePkgVersion name None) s1 m1) as [[[remote|e] s2] m2].
    + destruct (strict_eq local (Some remote)) eqn:Heq.
      * apply strict_eq_true in Heq. subst local.
        repeat split; intros; try discriminate.
        match goal with H : _ = _ |- _ => injection H as <- <- <- end. reflexivity.
      * repeat split; intros; try discriminate.
        match goal with H : _ = _ |- _ => injection H as <- <- _ _ end.
        cbv zeta.
        destruct (host_answer h (ReqExec (upgrade_cmd name remote) None) _) as [r w3].
        assert (Hin : In (ReqExec (upgrade_cmd name remote) None)
                         (calls (moved w3 (started h (ReqExec (upgrade_cmd name remote) None) m2)))).
        { simpl. apply in_or_app. right. now left. }
        destruct (error r); [exact Hin|].
        unfold verify_upgrade.
        pose proof (run_grows h (getPkgVersion name) s2
                      (moved w3 (started h (ReqExec (upgrade_cmd name remote) None) m2)))
          as Hg.
        destruct (run h (getPkgVersion name) s2 _) as [[[updated|e] s4] m4];
          simpl in Hg |- *.
        -- apply Hg, Hin.
        -- apply Hg, Hin.
    + repeat split; intros; try discriminate.
      unfold caught_check, caught_update in *.
      match goal with H : _ = _ |- _ => injection H as <- <- <- end. reflexivity.
  - repeat split; intros; try discriminate.
    unfold caught_check, caught_update in *.
    match goal with H : _ = _ |- _ => injection H as <- <- <- end. reflexivity.
Qed.

End CheckAndUpdate.


(* ================================================================== *)
(** ** git repositories: the check and the update of one *)
(* ================================================================== *)

Lemma behind_count_positive {E : Engine} (out : string) : (1 <= behind_count out)%N.
Proof.
  unfold behind_count. destruct (match_behind out) as [digits|]; [|lia].
  destruct (N.eqb (to_number digits) 0) eqn:Hz; [lia|].
  apply N.eqb_neq in Hz. lia.
Qed.

Lemma last_call_started {W} (h : Host W) (m : Machine W) q :
  last_call (started h q m) = Some q.
Proof. unfold last_call. simpl. rewrite map_app. simpl. apply last_last. Qed.

Section Inspection.
Context {E : Engine} {W : Type} (h : Host W) {St : Type}.
Implicit Types (s : St) (m : Machine W).

(** [checkGitPluginUpdate] on a repository. *)
Lemma run_checkGitPluginUpdate filePath time s m :
  host_existsSync h filePath (world m) = true ->
  host_existsSync h (filePath ++ "/.git") (world m) = true ->
  run h (checkGitPluginUpdate filePath time) s m =
  let m0 := noted (SetTimeout (default 120%N time * 1000)) m in
  let q1 := ReqExec "git fetch origin" (Some filePath) in
  let (r1, w1) := host_answer h q1 (world (started h q1 m0)) in
  let m1 := moved w1 (started h q1 m0) in
  match error r1 with
  | Some e => (Returned (GitCheckError (ThrownError e)), s, m1)
  | None =>
    let q2 := ReqExec "git status -uno" (Some filePath) in
    let (r2, w2) := host_answer h q2 (world (started h q2 m1)) in
    let m2 := noted ClearTimeout (moved w2 (started h q2 m1)) in
    if includes "Your branch is up to date with" (stdout r2) then
      let q3 := ReqExec time_cmd (Some filePath) in
      let (r3, w3) := host_answer h q3 (world (started h q3 m2)) in
      (Returned (GitNo (latest_text (match error r3 with
                                     | Some _ => time_unknown
                                     | None => stdout r3
                                     end))),
       s, moved w3 (started h q3 m2))
    else
      let n := behind_count (stdout r2) in
      let q4 := ReqExec (log_branch n "origin") (Some filePath) in
      let (r4, w4) := host_answer h q4 (world (started h q4 m2)) in
      let m4 := moved w4 (started h q4 m2) in
      match error r4 with
      | Some e => (Returned (GitCheckError (ThrownError e)), s,
                   noted (LogError (LValue (ThrownError e))) m4)
      | None => (Returned (GitYes (stdout r4) n), s, noted ClearTimeout m4)
      end
  end.
Proof.
  intros Hthere Hrepo. unfold checkGitPluginUpdate.
  rewrite run_try_catch, run_existsSync, Hthere. cbv beta iota delta [negb].
  rewrite run_existsSync, Hrepo. cbv beta iota delta [negb].
  rewrite run_emit_bind, run_exec_bind. cbv zeta.
  destruct (host_answer h _ _) as [r1 w1].
  destruct (error r1) as [e|]; [reflexivity|].
  rewrite run_exec_bind. cbv zeta.
  destruct (host_answer h _ _) as [r2 w2].
  rewrite run_emit_bind.
  destruct (includes _ (stdout r2)).
  - rewrite run_bind. unfold getTime. rewrite run_exec_bind. cbv zeta.
    change ("git log -1 --format=%cd --date=format:" ++ dq ++ "%Y-%m-%d %H:%M:%S" ++ dq)
      with time_cmd.
    destruct (host_answer h _ _) as [r3 w3].
    destruct (error r3); reflexivity.
  - rewrite run_bind. unfold getCommit. rewrite run_exec_bind. cbv zeta.
    change (getCommit_cmd _) with (log_branch (behind_count (stdout r2)) "origin").
    cbn [path].
    destruct (host_answer h _ _) as [r4 w4].
    destruct (error r4); reflexivity.
Qed.

(** X13. A fetch that fails ends the check: the result is [error] with the
    error of the runner, which is not logged, and the status is not asked for. *)
Theorem checkGitPluginUpdate_fetch_error filePath time s m r w e :
  let m0 := noted (SetTimeout (default 120%N time * 1000)) m in
  let q := ReqExec "git fetch origin" (Some filePath) in
  host_existsSync h filePath (world m) = true ->
  host_existsSync h (filePath ++ "/.git") (world m) = true ->
  host_answer h q (world (started h q m0)) = (r, w) ->
  error r = Some e ->
  run h (checkGitPluginUpdate filePath time) s m
  = (Returned (GitCheckError (ThrownError e)), s,
     {| world := w; calls := (calls m ++ [q])%list;
        journal := (journal m ++ [SetTimeout (default 120%N time * 1000)])%list |}).
Proof.
  intros m0 q Hthere Hrepo Ha He.
  rewrite (run_checkGitPluginUpdate _ _ _ _ Hthere Hrepo). cbv zeta.
  fold m0 q. rewrite Ha, He. reflexivity.
Qed.

(** X14. A repository whose status says it is up to date is reported as [no],
    never as [error]: when the time of the last commit cannot be read, the
    text says so in its place. *)
Theorem checkGitPluginUpdate_up_to_date filePath time s m r1 w1 r2 w2 :
  let m0 := noted (SetTimeout (default 120%N time * 1000)) m in
  let q1 := ReqExec "git fetch origin" (Some filePath) in
  let m1 := moved w1 (started h q1 m0) in
  let q2 := ReqExec "git status -uno" (Some filePath) in
  host_existsSync h filePath (world m) = true ->
  host_existsSync h (filePath ++ "/.git") (world m) = true ->
  host_answer h q1 (world (started h q1 m0)) = (r1, w1) ->
  error r1 = None ->
  host_answer h q2 (world (started h q2 m1)) = (r2, w2) ->
  includes "Your branch is up to date with" (stdout r2) = true ->
  exists time' m',
    run h (checkGitPluginUpdate filePath time) s m
    = (Returned (GitNo (latest_text time')), s, m')
    /\ last_call m' = Some (ReqExec time_cmd (Some filePath))
    /\ forall r3 w3,
         host_answer h (ReqExec time_cmd (Some filePath))
           (world (started h (ReqExec time_cmd (Some filePath))
                     (noted ClearTimeout (moved w2 (started h q2 m1))))) = (r3, w3) ->
         time' = match error r3 with Some _ => time_unknown | None => stdout r3 end.
Proof.
  intros m0 q1 m1 q2 Hthere Hrepo Ha1 He1 Ha2 Hup.
  rewrite (run_checkGitPluginUpdate _ _ _ _ Hthere Hrepo). cbv zeta.
  fold m0 q1. rewrite Ha1, He1. fold m1 q2. rewrite Ha2, Hup.
  destruct (host_answer h (ReqExec time_cmd (Some filePath)) _) as [r3 w3] eqn:Ha3.
  eexists _, _. split; [reflexivity|]. split.
  - apply (last_call_started h).
  - intros r3' w3' [= <- _]. reflexivity.
Qed.

(** X15. A result [yes] counts at least one commit, also when the status names
    no number, and the log that was read is that of the last [count] commits
    of [origin]; reading it was the last request. *)
Theorem checkGitPluginUpdate_behind filePath time s m data n s' m' :
  run h (checkGitPluginUpdate filePath time) s m = (Returned (GitYes data n), s', m') ->
  (1 <= n)%N
  /\ last_call m' = Some (ReqExec (log_branch n "origin") (Some filePath)).
Proof.
  destruct (host_existsSync h filePath (world m)) eqn:Hthere.
  2:{ unfold checkGitPluginUpdate. simpl. rewrite Hthere. discriminate. }
  destruct (host_existsSync h (filePath ++ "/.git") (world m)) eqn:Hrepo.
  2:{ unfold checkGitPluginUpdate. simpl. rewrite Hthere. simpl. rewrite Hrepo.
      discriminate. }
  rewrite (run_checkGitPluginUpdate _ _ _ _ Hthere Hrepo). cbv zeta.
  destruct (host_answer h _ _) as [r1 w1].
  destruct (error r1); [discriminate|].
  destruct (host_answer h _ _) as [r2 w2].
  destruct (includes _ _).
  - destruct (host_answer h _ _) as [r3 w3]. discriminate.
  - destruct (host_answer h _ _) as [r4 w4].
    destruct (error r4); [discriminate|].
    intros [= _ <- _ <-]. split; [apply behind_count_positive|].
    apply (last_call_started h).
Qed.

Lemma checkGitPluginUpdate_quiet filePath time :
  quiet (checkGitPluginUpdate (St:=St) filePath time).
Proof.
  unfold checkGitPluginUpdate, getTime, getCommit, exec, emit. walk.
Qed.

(** X16. [checkGitPluginUpdate] never rejects: whatever the file system and
    the commands answer, it returns a result. *)
Theorem checkGitPluginUpdate_never_rejects filePath time s m :
  exists r m', run h (checkGitPluginUpdate filePath time) s m = (Returned r, s, m').
Proof. apply run_quiet, checkGitPluginUpdate_quiet. Qed.

Lemma checkGitPluginUpdate_inspects filePath time :
  only_requests (inspects filePath) (checkGitPluginUpdate (St:=St) filePath time).
Proof.
  unfold checkGitPluginUpdate, getTime, getCommit, exec, emit.
  repeat (simpl; intros;
          match goal with
          | |- _ /\ _ => split
          | |- True => exact I
          | |- inspects _ _ =>
            unfold inspects;
            first [ left; reflexivity
                  | right; left; reflexivity
                  | right; right; left; reflexivity
                  | right; right; right; eexists;
                    split; [apply behind_count_positive|reflexivity] ]
          | |- context [match error ?r with _ => _ end] => destruct (error r)
          | |- context [if ?b then _ else _] => destruct b
          end); auto.
Qed.

(** X17. The requests [checkGitPluginUpdate] starts are, in the directory of
    the plugin, the fetch, the status, the time of the last commit and the log
    of [origin], and no other: nothing that changes the working tree. *)
Theorem checkGitPluginUpdate_only_inspects filePath time s m :
  exists new,
    started_by m (snd (run h (checkGitPluginUpdate filePath time) s m)) new
    /\ Forall (inspects filePath) new.
Proof. apply run_started, checkGitPluginUpdate_inspects. Qed.

(** X18. [updateGitPlugin] never rejects: whatever the file system and the
    commands answer, it returns a result, [ok] or [failed]. *)
Theorem updateGitPlugin_never_rejects filePath cmd time s m :
  exists r m', run h (updateGitPlugin filePath cmd time) s m = (Returned r, s, m').
Proof. apply run_quiet, updateGitPlugin_quiet. Qed.

Lemma updateGitPlugin_in_directory filePath cmd time :
  only_requests (in_directory filePath) (updateGitPlugin (St:=St) filePath cmd time).
Proof.
  unfold updateGitPlugin, getHash, getCommit, exec, emit.
  repeat (simpl; intros;
          match goal with
          | |- _ /\ _ => split
          | |- True => exact I
          | |- in_directory _ _ => eexists; reflexivity
          | |- context [match error ?r with _ => _ end] => destruct (error r)
          | |- context [if ?b then _ else _] => destruct b
          end); auto.
Qed.

(** X19. Every request [updateGitPlugin] starts is a command run in the
    directory of the plugin: it reads neither the manifest nor the list of
    plugins, and runs nothing elsewhere. *)
Theorem updateGitPlugin_stays_in_directory filePath cmd time s m :
  exists new,
    started_by m (snd (run h (updateGitPlugin filePath cmd time) s m)) new
    /\ Forall (in_directory filePath) new.
Proof. apply run_started, updateGitPlugin_in_directory. Qed.

(** X20. When HEAD cannot be read, nothing is pulled: [updateGitPlugin]
    returns [failed] with the error of the runner, which it logs, after that
    one command. *)
Theorem updateGitPlugin_head_unreadable filePath cmd time s m r w e :
  let m0 := noted (SetTimeout (default 120%N time * 1000)) m in
  let q := ReqExec "git rev-parse --short HEAD" (Some filePath) in
  host_existsSync h filePath (world m) = true ->
  host_existsSync h (filePath ++ "/.git") (world m) = true ->
  host_answer h q (world (started h q m0)) = (r, w) ->
  error r = Some e ->
  run h (updateGitPlugin filePath cmd time) s m
  = (Returned (GitFailed (FailValue (ThrownError e))), s,
     {| world := w; calls := (calls m ++ [q])%list;
        journal := (journal m ++ [SetTimeout (default 120%N time * 1000);
                                  LogError (LValue (ThrownError e))])%list |}).
Proof.
  intros m0 q Hthere Hrepo Ha He.
  rewrite (run_updateGitPlugin h _ _ _ _ _ Hthere Hrepo).
  unfold getHash. rewrite run_exec_bind. cbv zeta. cbn [default].
  fold m0 q. rewrite Ha, He. unfold caught_pull, noted, moved, started. simpl.
  rewrite <- app_assoc. reflexivity.
Qed.

End Inspection.


(* ================================================================== *)
(** ** The batch updates: their edges *)
(* ================================================================== *)

Lemma insert_index_length {V} n (kv : string * V) l :
  length (insert_index n kv l) = S (length l).
Proof.
  induction l as [|[n' kv'] l IH]; simpl; [reflexivity|].
  destruct (N.ltb n n'); simpl; congruence.
Qed.

(** [Object.keys] lists every key of the object. *)
Lemma object_entries_length {V} (o : list (string * V)) :
  length (object_entries o) = length o.
Proof.
  unfold object_entries. rewrite length_app, length_map.
  assert (H : forall acc,
    length (fold_left (fun acc kv =>
                         match array_index (fst kv) with
                         | Some n => insert_index n kv acc
                         | None => acc
                         end) o acc)
    + length (filter (fun kv => match array_index (fst kv) with
                                | Some _ => false | None => true end) o)
    = length acc + length o).
  { induction o as [|kv o IH]; intros acc; simpl; [lia|].
    destruct (array_index (fst kv)) as [n|]; simpl.
    - specialize (IH (insert_index n kv acc)).
      rewrite insert_index_length in IH. lia.
    - specialize (IH acc). lia. }
  rewrite H. reflexivity.
Qed.

Section BatchEdges.
Context {E : Engine} {W : Type} (h : Host W).

(** X21. With no git plugin listed, [updateAllGitPlugin] returns the text
    "nothing to update" at once: it logs the three lines and runs no command. *)
Theorem updateAllGitPlugin_empty_listing cmd time fuel (m : Machine W) w :
  host_answer h (ReqPlugins git) (world (started h (ReqPlugins git) m))
    = (Returned [], w) ->
  updateAllGitPlugin h cmd time fuel m
  = Some (Returned nothing_to_update,
          {| world := w;
             calls := (calls m ++ [ReqPlugins git])%list;
             journal := (journal m
                         ++ [LogInfo (join nl [(nl ++ "------- 更新git插件 --------")%string;
                                               nothing_to_update;
                                               "----------------------------"])])%list |}).
Proof.
  intros Ha. unfold updateAllGitPlugin, getPlugins. simpl in Ha |- *.
  rewrite Ha. reflexivity.
Qed.

(** X22. When the list of plugins or the manifest cannot be read,
    [updateAllPkg] ends there: it logs the throw and returns the message of
    the error, or the fixed text if it has none, and runs no command. *)
Theorem updateAllPkg_setup_failure fuel (m : Machine W) :
  (forall e w,
     host_answer h (ReqPlugins npm) (world (started h (ReqPlugins npm) m))
       = (Raised e, w) ->
     updateAllPkg h fuel m
     = Some (error_report e,
             {| world := w; calls := (calls m ++ [ReqPlugins npm])%list;
                journal := (journal m ++ [LogError (LValue e)])%list |}))
  /\ (forall listing w e w',
        host_answer h (ReqPlugins npm) (world (started h (ReqPlugins npm) m))
          = (Returned listing, w) ->
        host_answer h (ReqRequire false)
          (world (started h (ReqRequire false) (moved w (started h (ReqPlugins npm) m))))
          = (Raised e, w') ->
        updateAllPkg h fuel m
        = Some (error_report e,
                {| world := w';
                   calls := (calls m ++ [ReqPlugins npm; ReqRequire false])%list;
                   journal := (journal m ++ [LogError (LValue e)])%list |})).
Proof.
  split.
  - intros e w Ha. unfold updateAllPkg, getPlugins. simpl in Ha |- *.
    rewrite Ha. destruct e; reflexivity.
  - intros listing w e w' Ha Hp. unfold updateAllPkg, getPlugins, getPkg.
    simpl in Ha, Hp |- *. rewrite Ha. simpl. rewrite Hp. simpl.
    destruct e; unfold conclude, noted, moved, started; simpl;
      rewrite <- app_assoc; reflexivity.
Qed.

(** X27. When the list of git plugins cannot be read, [updateAllGitPlugin]
    runs no command; what follows depends on the global [logger], which its
    [catch] block reads because its own [logger] is declared inside the [try]
    block: with one set, the throw is logged and the message of the error
    returned, or the fixed text if it has none; with none set, the call
    rejects with the [ReferenceError] of [logger]. *)
Theorem updateAllGitPlugin_listing_failure cmd time fuel (m : Machine W) e w :
  host_answer h (ReqPlugins git) (world (started h (ReqPlugins git) m))
    = (Raised e, w) ->
  updateAllGitPlugin h cmd time fuel m
  = Some (if host_logger h w
          then (error_report e,
                {| world := w; calls := (calls m ++ [ReqPlugins git])%list;
                   journal := (journal m ++ [LogError (LValue e)])%list |})
          else (Raised (not_defined "logger"),
                {| world := w; calls := (calls m ++ [ReqPlugins git])%list;
                   journal := journal m |})).
Proof.
  intros Ha. unfold updateAllGitPlugin, getPlugins. simpl in Ha |- *.
  rewrite Ha. simpl. destruct (host_logger h w); [|reflexivity].
  destruct e; reflexivity.
Qed.

(** X23. When the upgrade command of [updateAllPkg] reports an error, the
    report is a first line with the number of packages that were to be
    upgraded, followed by one line for each of them with the command to run by
    hand; the manifest is not read again. *)
Theorem updateAllPkg_upgrade_failure (pl : Plan) (m : Machine W) r w e :
  let q := ReqExec (join " " (cmd pl)) None in
  length (cmd pl) <> 1 ->
  host_answer h q (world (started h q m)) = (r, w) ->
  error r = Some e ->
  exists lines m',
    run h (try_catch (upgrade_planned pl) report_error) tt m
    = (Returned (join nl (failure_count_line (length (state pl)) :: lines)), tt, m')
    /\ lines = map (fun '(name, (_, remote)) => manual_line name remote)
                   (object_entries (state pl))
    /\ length lines = length (state pl)
    /\ started_by m m' [q].
Proof.
  intros q Hlen Ha He.
  apply Nat.eqb_neq in Hlen.
  eexists _, _. split; [|split; [reflexivity|split]].
  - rewrite run_try_catch. unfold upgrade_planned. rewrite Hlen.
    rewrite !run_emit_bind, run_exec_bind. cbv zeta. fold q.
    match goal with
    | |- context [host_answer h q ?x] =>
      change (host_answer h q x) with (host_answer h q (world (started h q m)))
    end.
    rewrite Ha, He. rewrite !run_emit_bind. cbn [run].
    rewrite length_map, object_entries_length.
    reflexivity.
  - now rewrite length_map, object_entries_length.
  - unfold started_by. simpl. reflexivity.
Qed.

End BatchEdges.


(* ================================================================== *)
(** ** The batch update of packages: what it always asks *)
(* ================================================================== *)

Section Growth.
Context {W : Type} (h : Host W) {St : Type}.

Lemma advance_grows (t : Async St unit) s m :
  incl (calls m) (calls (snd (advance h t s m))).
Proof.
  revert s m.
  induction t as [a|e|q k IH|q k IH|p k IH|ev k IH|g k IH]; intros s m; simpl.
  - apply incl_refl.
  - apply incl_refl.
  - apply incl_appl, incl_refl.
  - eapply incl_tran; [|apply IH]. simpl. apply incl_appl, incl_refl.
  - apply IH.
  - apply (IH s (noted ev m)).
  - apply IH.
Qed.

Lemma launch_grows (ts : list (Async St unit)) s m :
  incl (calls m) (calls (snd (launch h ts s m))).
Proof.
  revert s m. induction ts as [|t ts IH]; intros s m; simpl; [apply incl_refl|].
  pose proof (advance_grows t s m) as Ht.
  destruct (advance h t s m) as [[[[a|e]|p] s1] m1]; simpl in Ht;
    specialize (IH s1 m1);
    destruct (launch h ts s1 m1) as [[[ps es] s2] m2]; simpl in *;
    eapply incl_tran; eassumption.
Qed.

Lemma drain_grows mode fuel :
  forall (ps : list (Parked St)) s m c s' m',
    drain h mode fuel ps s m = Some (c, s', m') -> incl (calls m) (calls m').
Proof.
  induction fuel as [|fuel IH]; intros ps s m c s' m'; simpl.
  - destruct ps; [intros [= _ _ <-]; apply incl_refl|discriminate].
  - destruct ps as [|p0 ps]; [intros [= _ _ <-]; apply incl_refl|].
    destruct (host_answer h _ _) as [a w].
    match goal with
    | |- context [advance h ?t ?s0 ?m0] =>
      pose proof (advance_grows t s0 m0) as Ht;
      destruct (advance h t s0 m0) as [[[[u|e]|p'] s1] m1]
    end; simpl in Ht.
    + intros H. eapply incl_tran; [exact Ht|]. eapply IH, H.
    + destruct mode.
      * intros [= _ _ <-]. exact Ht.
      * intros H. eapply incl_tran; [exact Ht|]. eapply IH, H.
    + intros H. eapply incl_tran; [exact Ht|]. eapply IH, H.
Qed.

Lemma gather_grows mode fuel (ts : list (Async St unit)) s m c s' m' :
  gather h mode fuel ts s m = Some (c, s', m') ->
  incl (calls (snd (launch h ts s m))) (calls m').
Proof.
  unfold gather. destruct (launch h ts s m) as [[[ps es] s1] m1]. simpl.
  destruct mode.
  - destruct es as [|e es].
    + apply drain_grows.
    + intros [= _ _ <-]. apply incl_refl.
  - apply drain_grows.
Qed.

End Growth.

Section Probes.
Context {E : Engine} {W : Type} (h : Host W).

(** A callback of [updateAllPkg] starts its list command and waits. *)
Lemma advance_probe pkg name s (m : Machine W) :
  exists p, advance h (probe pkg name) s m
            = (Waiting p, s, started h (list_request name) m).
Proof. unfold probe, getPkgVersion, exec. simpl. eexists. reflexivity. Qed.

(** Every callback has started its list command before any request
    completes. *)
Lemma launch_probes pkg (names : list string) :
  forall s (m : Machine W),
    Forall (fun name =>
              In (list_request name) (calls (snd (launch h (map (probe pkg) names) s m))))
           names.
Proof.
  induction names as [|name names IH]; intros s m; [constructor|].
  cbn [map launch].
  destruct (advance_probe pkg name s m) as [p ->].
  specialize (IH s (started h (list_request name) m)).
  pose proof (launch_grows h (map (probe pkg) names) s (started h (list_request name) m))
    as Hg.
  destruct (launch h (map (probe pkg) names) s _) as [[[ps es] s2] m2].
  simpl in *. constructor.
  - apply Hg, in_or_app. right. now left.
  - exact IH.
Qed.

Lemma awaiting_start pkg :
  start_ok h (string * nat) awaiting snd (fun _ _ (_ : Machine W) => True) (probing pkg).
Proof.
  intros gs1 g gs2 t s m [-> Hg] _.
  pose proof (advance_awaits h 3 (probe pkg (fst g)) s m (probe_awaits pkg (fst g))) as H.
  destruct (advance_probe pkg (fst g) s m) as [p Ew]. rewrite Ew in *.
  destruct H as (n' & [= <-] & Hp).
  exists g. split; [|split; [lia|exact I]].
  unfold awaiting. rewrite Hg. exact Hp.
Qed.

Lemma awaiting_step :
  step_ok h (string * nat) FailFast (awaiting (St:=Plan)) snd
          (fun _ _ (_ : Machine W) => True) (fun _ _ _ => True).
Proof.
  intros gs1 g gs2 p s m a w Hp _ _.
  pose proof (advance_awaits h (snd g) (resume p a) s (moved w m) (Hp a)) as H.
  destruct (advance h (resume p a) s (moved w m)) as [[[[u|e]|p'] s1] m1]; try exact I.
  destruct H as (n' & Hn & Hp').
  exists (fst g, n'). split; [exact Hp'|]. split; [simpl; lia|exact I].
Qed.

(** X24. Whatever the order in which the commands complete and whatever they
    answer, once the list of plugins and the manifest are read [updateAllPkg]
    comes to an end, after at most three completions for each package, and it
    has asked for the local version of every listed plugin and of
    [node-karin], which it adds to the list itself. *)
Theorem updateAllPkg_probes_all fuel (m : Machine W) listing w pkg w' :
  let names := (listing ++ ["node-karin"])%list in
  host_answer h (ReqPlugins npm) (world (started h (ReqPlugins npm) m))
    = (Returned listing, w) ->
  host_answer h (ReqRequire false)
    (world (started h (ReqRequire false) (moved w (started h (ReqPlugins npm) m))))
    = (Returned pkg, w') ->
  3 * length names <= fuel ->
  exists c m',
    updateAllPkg h fuel m = Some (c, m')
    /\ Forall (fun name => In (list_request name) (calls m')) names.
Proof.
  intros names Ha Hp Hfuel. unfold updateAllPkg, getPlugins, getPkg.
  simpl in Ha, Hp |- *. rewrite Ha. simpl. rewrite Hp. simpl. fold names.
  set (gs := map (fun name : string => (name, 2)) names).
  assert (HF : Forall2 (probing pkg) gs (map (probe pkg) names)).
  { subst gs. clear. induction names as [|x l IH]; simpl; constructor; auto.
    split; reflexivity. }
  assert (Hload : load snd gs <= fuel).
  { assert (Hq : load snd gs = 3 * length names).
    { subst gs. unfold load. rewrite map_map. simpl. clear.
      induction names as [|x l IH]; simpl in *; lia. }
    lia. }
  match goal with
  | |- context [gather h FailFast fuel ?ts ?s0 ?m0] =>
    pose proof (launch_probes pkg names s0 m0) as Hl;
    pose proof (gather_grows h FailFast fuel ts s0 m0) as Hg;
    destruct (gather_rule h _ FailFast _ _ _ _ _ (awaiting_start pkg) awaiting_step
                fuel ts gs s0 m0 HF I Hload) as (c & pl & m2 & Eg & _)
  end.
  rewrite Eg in *. specialize (Hg _ _ _ eq_refl).
  destruct c as [u|e]; eexists _, _; (split; [reflexivity|]);
    unfold conclude; cbn [snd];
    (eapply Forall_impl; [|exact Hl]); intros name Hin;
    apply run_grows, Hg, Hin.
Qed.

Lemma resolving_start pkg calls0 :
  start_ok h (string * nat) resolving snd (upgrades_are (W:=W) calls0) (probing pkg).
Proof.
  intros gs1 g gs2 t s m [-> Hg] HJ.
  pose proof (advance_awaits h 3 (probe pkg (fst g)) s m (probe_awaits pkg (fst g))) as H.
  pose proof (advance_calls h is_upgrade (probe pkg (fst g)) s m
                (probe_requests pkg (fst g))) as Hc.
  destruct (advance_probe pkg (fst g) s m) as [p Ew]. rewrite Ew in *.
  destruct H as (n' & [= <-] & Hp). destruct Hc as [Hc Hq].
  exists g. split; [|split; [lia|]].
  - split; [unfold awaiting; rewrite Hg; exact Hp|exact Hq].
  - unfold upgrades_are in *. congruence.
Qed.

Lemma resolving_step calls0 :
  step_ok h (string * nat) FailFast (resolving (St:=Plan)) snd
          (upgrades_are (W:=W) calls0) (fun _ _ m => filter is_upgrade (calls m) = calls0).
Proof.
  intros gs1 g gs2 p s m a w [Hp Hq] HJ _.
  pose proof (advance_awaits h (snd g) (resume p a) s (moved w m) (Hp a)) as H.
  pose proof (advance_calls h is_upgrade (resume p a) s (moved w m) (Hq a)) as Hc.
  unfold upgrades_are in *.
  destruct (advance h (resume p a) s (moved w m)) as [[[[u|e]|p'] s1] m1];
    simpl in Hc; try congruence.
  destruct H as (n' & Hn & Hp'). destruct Hc as [Hc Hq'].
  exists (fst g, n'). split; [split; assumption|]. split; [simpl; lia|congruence].
Qed.

Lemma run_verdicts up entries (m : Machine W) :
  exists c, run h (verdicts up entries) tt m = (c, tt, m).
Proof.
  unfold verdicts. destruct entries; [eexists; reflexivity|].
  destruct up; eexists; reflexivity.
Qed.

Lemma run_report_error e (m : Machine W) :
  calls (snd (run h (report_error e) tt m)) = calls m.
Proof. destruct e; reflexivity. Qed.

(** What follows the resolutions starts one upgrade at most. *)
Lemma upgrade_planned_one_upgrade pl (m : Machine W) :
  exists after,
    filter is_upgrade (calls (snd (run h (try_catch (upgrade_planned pl) report_error) tt m)))
    = (filter is_upgrade (calls m) ++ after)%list
    /\ length after <= 1.
Proof.
  rewrite run_try_catch. unfold upgrade_planned.
  destruct (Nat.eqb (length (cmd pl)) 1).
  - exists []. split; [|simpl; lia]. simpl. now rewrite app_nil_r.
  - rewrite !run_emit_bind, run_exec_bind. cbv zeta.
    set (shell := ReqExec (join " " (cmd pl)) None).
    destruct (host_answer h shell _) as [r w3].
    exists (filter is_upgrade [shell]).
    split; [|cbn [filter]; destruct (is_upgrade shell); simpl; lia].
    destruct (error r) as [e|].
    + simpl. now rewrite filter_app.
    + rewrite run_bind. unfold getPkg. simpl.
      destruct (host_answer h (ReqRequire true) _) as [[up|e] w4]; simpl.
      * rewrite run_bind.
        match goal with
        | |- context [run h (verdicts up ?es) tt ?m0] =>
          destruct (run_verdicts up es m0) as [c4 ->]
        end.
        destruct c4 as [lines|e4].
        -- simpl. rewrite !filter_app. simpl. now rewrite app_nil_r.
        -- destruct e4; simpl; rewrite !filter_app; simpl; now rewrite app_nil_r.
      * destruct e; simpl; rewrite !filter_app; simpl; now rewrite app_nil_r.
Qed.

(** X25. One batch, one upgrade: whatever the order in which the commands
    complete and whatever they answer, [updateAllPkg] starts no upgrade
    command while it resolves the versions, and at most one after. *)
Theorem updateAllPkg_one_upgrade fuel (m : Machine W) listing w pkg w' :
  let names := (listing ++ ["node-karin"])%list in
  host_answer h (ReqPlugins npm) (world (started h (ReqPlugins npm) m))
    = (Returned listing, w) ->
  host_answer h (ReqRequire false)
    (world (started h (ReqRequire false) (moved w (started h (ReqPlugins npm) m))))
    = (Returned pkg, w') ->
  3 * length names <= fuel ->
  exists c m' after,
    updateAllPkg h fuel m = Some (c, m')
    /\ filter is_upgrade (calls m') = (filter is_upgrade (calls m) ++ after)%list
    /\ length after <= 1.
Proof.
  intros names Ha Hp Hfuel. unfold updateAllPkg, getPlugins, getPkg.
  simpl in Ha, Hp |- *. rewrite Ha. simpl. rewrite Hp. simpl. fold names.
  clear Ha Hp.
  set (gs := map (fun name : string => (name, 2)) names).
  assert (HF : Forall2 (probing pkg) gs (map (probe pkg) names)).
  { subst gs. clear. induction names as [|x l IH]; simpl; constructor; auto.
    split; reflexivity. }
  assert (Hload : load snd gs <= fuel).
  { assert (Hq : load snd gs = 3 * length names).
    { subst gs. unfold load. rewrite map_map. simpl. clear.
      induction names as [|x l IH]; simpl in *; lia. }
    lia. }
  match goal with
  | |- context [gather h FailFast fuel ?ts ?s0 ?m0] =>
    assert (HJ : upgrades_are (filter is_upgrade (calls m)) gs s0 m0)
      by (unfold upgrades_are; simpl; rewrite !filter_app; simpl;
          now rewrite !app_nil_r);
    destruct (gather_rule h _ FailFast _ _ _ _ _
                (resolving_start pkg (filter is_upgrade (calls m)))
                (resolving_step (filter is_upgrade (calls m)))
                fuel ts gs s0 m0 HF HJ Hload) as (c & pl & m2 & Eg & Hpost)
  end.
  rewrite Eg. destruct c as [u|e].
  - unfold upgrades_are in Hpost.
    destruct (upgrade_planned_one_upgrade pl m2) as (after & Hc & Hlen).
    eexists _, _, after. split; [reflexivity|]. split; [|exact Hlen].
    unfold conclude. cbn [snd]. rewrite Hc, Hpost. reflexivity.
  - destruct Hpost as [_ Hpost].
    eexists _, _, []. split; [reflexivity|]. split; [|simpl; lia].
    unfold conclude. cbn [snd].
    change (filter is_upgrade (calls (snd (run h (report_error e) tt m2)))
            = (filter is_upgrade (calls m) ++ [])%list).
    rewrite run_report_error, app_nil_r. exact Hpost.
Qed.

End Probes.


(* ================================================================== *)
(** ** The batch update of repositories: what it logs *)
(* ================================================================== *)

Section Logged.
Context {W : Type} (h : Host W).
Variables (cmd : string) (time : N).

Lemma following_start :
  start_ok h (string * nat) (pulling_parked cmd time) snd (tips_follow (W:=W))
           (pulling cmd time).
Proof.
  intros gs1 g gs2 t s m [Hr Hb] HJ. unfold tips_follow in *.
  pose proof (advance_reports h _ _ t s m Hr Hb) as H.
  destruct (advance h t s m) as [[[c|p] s1] m1].
  - destruct c as [u|e]; [|contradiction].
    destruct H as (line & _ & ->). unfold push_line. cbn [git_tips git_result].
    now rewrite HJ, <- app_assoc.
  - destruct H as (-> & n' & Hn & Ha). injection Hn as <-.
    exists g. split; [exact Ha|]. split; [lia|exact HJ].
Qed.

Lemma following_step :
  step_ok h (string * nat) SettleAll (pulling_parked cmd time) snd (tips_follow (W:=W))
          (fun _ _ _ => False).
Proof.
  intros gs1 g gs2 p s m a w Hp HJ Ha. unfold tips_follow in *.
  destruct (Hp a) as [Hr Hb].
  pose proof (advance_reports h _ _ (resume p a) s (moved w m) Hr Hb) as H.
  destruct (advance h (resume p a) s (moved w m)) as [[[c|p'] s1] m1].
  - destruct c as [u|e]; [|contradiction].
    destruct H as (line & _ & ->). unfold push_line. cbn [git_tips git_result].
    now rewrite HJ, <- app_assoc.
  - destruct H as (-> & n' & Hn & Ha').
    exists (fst g, n'). simpl. split; [exact Ha'|]. split; [lia|exact HJ].
Qed.

Lemma gather_following listing fuel (m : Machine W) :
  4 * length listing <= fuel ->
  exists g m',
    gather h SettleAll fuel (map (pull cmd time) listing) git_report0 m
      = Some (Returned tt, g, m')
    /\ git_tips g = (git_tips git_report0 ++ git_result g)%list.
Proof.
  intros Hfuel.
  set (gs := map (fun name => (replace "git:" EmptyString name, 3)) listing).
  assert (HF : Forall2 (pulling cmd time) gs (map (pull cmd time) listing)).
  { subst gs. clear Hfuel. induction listing as [|x l IH]; simpl; constructor.
    - apply pull_pulling.
    - apply IH. }
  assert (Hload : load snd gs <= fuel).
  { assert (Hl : load snd gs = 4 * length listing).
    { subst gs. unfold load. rewrite map_map. simpl.
      clear. induction listing as [|x l IH]; simpl in *; lia. }
    lia. }
  destruct (gather_rule h _ SettleAll _ _ _ _ _ following_start following_step
              fuel _ gs git_report0 m HF eq_refl Hload)
    as (c & g & m' & Eg & Hpost).
  destruct c as [[]|e]; [|destruct Hpost as [Hm _]; discriminate].
  exists g, m'. split; [exact Eg|exact Hpost].
Qed.

End Logged.

(** X26. What [updateAllGitPlugin] logs is what it returns: the last entry it
    writes to the log is the heading, the lines of the report in the same
    order, and the closing rule. *)
Theorem updateAllGitPlugin_logs_report {W} (h : Host W) cmd time fuel (m : Machine W)
  first rest w :
  let listing := first :: rest in
  host_answer h (ReqPlugins git) (world (started h (ReqPlugins git) m))
    = (Returned listing, w) ->
  4 * length listing <= fuel ->
  exists lines m',
    updateAllGitPlugin h cmd time fuel m = Some (Returned (join nl lines), m')
    /\ exists before,
         journal m'
         = (before
            ++ [LogInfo (join nl ((nl ++ "------- 更新git插件 --------")%string
                                  :: lines ++ ["----------------------------"]))])%list.
Proof.
  intros listing Hlist Hfuel. unfold updateAllGitPlugin.
  unfold getPlugins. cbn [run]. rewrite Hlist. cbn [settle run]. fold listing.
  destruct (gather_following h (default "git pull" cmd) (default 120%N time) listing fuel
              (moved w (started h (ReqPlugins git) m)) Hfuel)
    as (g & m' & Eg & Hpost).
  subst listing. cbv zeta. rewrite Eg. cbn [emit bind run conclude fst snd].
  eexists (git_result g), _. split; [reflexivity|].
  unfold noted. cbn [journal snd]. rewrite Hpost. eexists. reflexivity.
Qed.

(* ================================================================== *)
(** ** The further statements on the example hosts *)
(* ================================================================== *)

Lemma getPkgVersion_listed_first_witness :
  fst (fst (run Example.upgrading (getPkgVersion (E:=Node.engine) "foo") tt (boot 0)))
  = Returned (Some "1.2.3").
Proof.
  erewrite (getPkgVersion_listed_first (E:=Node.engine) Example.upgrading "foo");
    reflexivity.
Defined.

Lemma getPkgVersion_marked_not_installed_witness :
  fst (fst (run Scene.named_empty (getPkgVersion (E:=Node.engine) "is-empty") tt (boot 0)))
  = Raised (not_installed "is-empty").
Proof.
  erewrite (getPkgVersion_marked_not_installed (E:=Node.engine) Scene.named_empty
              "is-empty"); [reflexivity|reflexivity|].
  right; right. split; [left|]; reflexivity.
Defined.

Lemma getPkgVersion_runner_error_witness :
  fst (fst (run (Scene.offline []) (getPkgVersion (E:=Node.engine) "foo") tt (boot 0)))
  = Raised (rethrow (error (Example.failed "Command failed: npm list foo --depth=0"))).
Proof.
  rewrite (getPkgVersion_runner_error (E:=Node.engine) (Scene.offline []) "foo" tt (boot 0)
             _ _ _ eq_refl (or_introl eq_refl) eq_refl).
  reflexivity.
Defined.

Lemma getPkgVersion_manifest_order_witness :
  fst (fst (run Scene.declared (getPkgVersion (E:=Node.engine) "foo") tt (boot 0)))
  = Returned (Some "^1.2.0").
Proof.
  destruct (getPkgVersion_manifest_order (E:=Node.engine) Scene.declared "foo" tt (boot 0)
              (Example.succeeded (Example.tree [])) 1
              eq_refl eq_refl (or_intror (conj eq_refl (conj eq_refl eq_refl))) eq_refl
              (Returned (Some (Example.manifest [("foo", "^1.2.0")]))) 2 eq_refl)
    as (v & Hrun & Hdep & _).
  rewrite Hrun. cbn [fst]. rewrite (Hdep eq_refl). reflexivity.
Defined.

Lemma getRemotePkgVersion_trimmed_witness :
  padded (trim (Engine:=Node.engine) ("1.3.0" ++ nl)) = false.
Proof.
  apply (getRemotePkgVersion_trimmed Example.upgrading "foo" None tt (boot 0)
           _ tt (snd (run Example.upgrading
                          (getRemotePkgVersion (E:=Node.engine) "foo" None) tt (boot 0)))).
  reflexivity.
Defined.

Lemma getPkgVersion_listed_shape_witness :
  three_numbers "1.2.3" = true
  /\ includes "foo@1.2.3" (Example.tree ["└── foo@1.2.3"]) = true.
Proof.
  apply (getPkgVersion_listed_shape Example.upgrading "foo" tt (boot 0)
           (Example.succeeded (Example.tree ["└── foo@1.2.3"])) 1 "1.2.3" tt
           (snd (run Example.upgrading (getPkgVersion (E:=Node.engine) "foo") tt (boot 0))));
    reflexivity.
Defined.

Lemma getRemotePkgVersion_by_status_witness :
  fst (fst (run Example.upgrading (getRemotePkgVersion (E:=Node.engine) "foo" None)
                tt (boot 0)))
  = Returned "1.3.0".
Proof.
  rewrite (getRemotePkgVersion_by_status (E:=Node.engine) Example.upgrading "foo" None
             tt (boot 0) _ _ eq_refl).
  reflexivity.
Defined.

Lemma updatePkg_upgrade_error_witness :
  fst (fst (run Scene.blocked (updatePkg (E:=Node.engine) "foo" None) tt (boot 0)))
  = Returned (PkgFailed (FailValue
      (rethrow (error (Example.failed "Command failed: pnpm up foo@1.3.0"))))).
Proof.
  rewrite (updatePkg_upgrade_error (E:=Node.engine) Scene.blocked "foo" None tt (boot 0)
             (Some "1.2.3") "1.3.0" _ _ _ _ _ _ _ eq_refl eq_refl
             ltac:(discriminate) eq_refl eq_refl).
  reflexivity.
Defined.

Lemma updatePkg_agrees_with_check_witness :
  In (ReqExec "pnpm up foo@1.3.0" None)
     (calls (snd (run Example.upgrading (updatePkg (E:=Node.engine) "foo" None) tt (boot 0)))).
Proof.
  destruct (updatePkg_agrees_with_check (E:=Node.engine) Example.upgrading "foo" tt (boot 0))
    as (_ & _ & Hyes).
  apply (Hyes (Some "1.2.3") "1.3.0" tt
              (snd (run Example.upgrading (checkPkgUpdate (E:=Node.engine) "foo") tt (boot 0)))).
  reflexivity.
Defined.

Lemma checkGitPluginUpdate_fetch_error_witness :
  fst (fst (run (Scene.offline ["./plugins/alpha"; "./plugins/alpha/.git"])
                (checkGitPluginUpdate (E:=Node.engine) "./plugins/alpha" None) tt (boot 0)))
  = Returned (GitCheckError
      (rethrow (error (Example.failed "Command failed: git fetch origin")))).
Proof.
  rewrite (checkGitPluginUpdate_fetch_error (E:=Node.engine)
             (Scene.offline ["./plugins/alpha"; "./plugins/alpha/.git"])
             "./plugins/alpha" None tt (boot 0) _ _ _ eq_refl eq_refl eq_refl eq_refl).
  reflexivity.
Defined.

Lemma checkGitPluginUpdate_up_to_date_witness :
  exists time' m',
    run (Scene.inspected Scene.status_synced)
        (checkGitPluginUpdate (E:=Node.engine) "./plugins/alpha" None) tt (boot 0)
    = (Returned (GitNo (latest_text time')), tt, m')
    /\ time' = "2024-11-03 10:00:00".
Proof.
  destruct (checkGitPluginUpdate_up_to_date (E:=Node.engine)
              (Scene.inspected Scene.status_synced) "./plugins/alpha" None tt (boot 0)
              (Example.succeeded EmptyString) 1 (Example.succeeded Scene.status_synced) 2
              eq_refl eq_refl eq_refl eq_refl eq_refl eq_refl)
    as (time' & m' & Hrun & _ & Htime).
  exists time', m'. split; [exact Hrun|].
  apply (Htime (Example.succeeded "2024-11-03 10:00:00") 3). reflexivity.
Defined.

Lemma checkGitPluginUpdate_behind_witness :
  (1 <= 3)%N
  /\ last_call (snd (run (Scene.inspected Scene.status_behind)
                         (checkGitPluginUpdate (E:=Node.engine) "./plugins/alpha" None)
                         tt (boot 0)))
     = Some (ReqExec (log_branch 3 "origin") (Some "./plugins/alpha")).
Proof.
  apply (checkGitPluginUpdate_behind (E:=Node.engine) (Scene.inspected Scene.status_behind)
           "./plugins/alpha" None tt (boot 0) ("[11-03 10:00] fix typo " ++ nl) 3 tt).
  reflexivity.
Defined.

Lemma updateGitPlugin_head_unreadable_witness :
  fst (fst (run (Scene.offline ["./plugins/alpha"; "./plugins/alpha/.git"])
                (@updateGitPlugin unit "./plugins/alpha" None None) tt (boot 0)))
  = Returned (GitFailed (FailValue
      (rethrow (error (Example.failed "Command failed: git rev-parse --short HEAD"))))).
Proof.
  rewrite (updateGitPlugin_head_unreadable
             (Scene.offline ["./plugins/alpha"; "./plugins/alpha/.git"])
             "./plugins/alpha" None None tt (boot 0) _ _ _ eq_refl eq_refl eq_refl eq_refl).
  reflexivity.
Defined.

Lemma updateAllGitPlugin_empty_listing_witness :
  option_map fst (updateAllGitPlugin (Example.silent []) None None 0 (boot 0))
  = Some (Returned nothing_to_update).
Proof.
  rewrite (updateAllGitPlugin_empty_listing (Example.silent []) None None 0 (boot 0)
             _ eq_refl).
  reflexivity.
Defined.

Lemma updateAllPkg_setup_failure_witness :
  option_map fst (updateAllPkg (E:=Node.engine) Scene.no_registry 0 (boot 0))
  = Some (Returned "EACCES").
Proof.
  destruct (updateAllPkg_setup_failure (E:=Node.engine) Scene.no_registry 0 (boot 0))
    as (Hnpm & _).
  rewrite (Hnpm _ _ eq_refl). reflexivity.
Defined.

Lemma updateAllGitPlugin_listing_failure_witness :
  option_map fst (updateAllGitPlugin Scene.no_registry None None 0 (boot 0))
  = Some (Returned "EACCES")
  /\ option_map fst (updateAllGitPlugin Scene.no_registry_no_logger None None 0 (boot 0))
     = Some (Raised (not_defined "logger")).
Proof.
  split.
  - rewrite (updateAllGitPlugin_listing_failure Scene.no_registry None None 0 (boot 0)
               _ _ eq_refl).
    reflexivity.
  - rewrite (updateAllGitPlugin_listing_failure Scene.no_registry_no_logger None None 0
               (boot 0) _ _ eq_refl).
    reflexivity.
Defined.

Lemma updateAllPkg_upgrade_failure_witness :
  fst (fst (run (Scene.offline [])
                (try_catch (upgrade_planned (E:=Node.engine) Example.two_planned) report_error)
                tt (boot 0)))
  = Returned (join nl ["[更新失败] 更新数量: 2";
                       manual_line "alpha" (Some "1.0.1");
                       manual_line "beta" (Some "2.0.1")]).
Proof.
  destruct (updateAllPkg_upgrade_failure (E:=Node.engine) (Scene.offline [])
              Example.two_planned (boot 0)
              (Example.failed "Command failed: pnpm up alpha@1.0.1 beta@2.0.1") 1
              {| error_name := "Error";
                 message := "Command failed: pnpm up alpha@1.0.1 beta@2.0.1";
                 stack := Some "Error: Command failed: pnpm up alpha@1.0.1 beta@2.0.1" |})
    as (lines & m' & Hrun & -> & _); [discriminate|reflexivity|reflexivity|].
  rewrite Hrun. reflexivity.
Defined.

Lemma updateAllPkg_probes_all_witness :
  exists c m',
    updateAllPkg (E:=Node.engine) (Example.current Example.last_pending) 6 (boot 0)
    = Some (c, m')
    /\ Forall (fun name => In (list_request name) (calls m')) ["npm:foo"; "node-karin"].
Proof.
  apply (updateAllPkg_probes_all (E:=Node.engine) (Example.current Example.last_pending)
           6 (boot 0) ["npm:foo"] 1 (Some (Example.manifest [])) 2);
    [reflexivity|reflexivity|simpl; lia].
Defined.

Lemma updateAllPkg_one_upgrade_witness :
  exists c m' after,
    updateAllPkg (E:=Node.engine) Example.two_upgrades 9 (boot 0) = Some (c, m')
    /\ filter is_upgrade (calls m') = after
    /\ length after <= 1.
Proof.
  apply (updateAllPkg_one_upgrade (E:=Node.engine) Example.two_upgrades 9 (boot 0)
           ["npm:alpha"; "npm:beta"] 1
           (Some (Example.manifest [("alpha", "1.0.1"); ("beta", "2.0.1")])) 2);
    [reflexivity|reflexivity|simpl; lia].
Defined.

Lemma updateAllGitPlugin_logs_report_witness :
  exists lines m',
    updateAllGitPlugin (Example.repository ["git:alpha"; "git:beta"] Example.one_entry 2)
                       None None 8 (boot 0)
    = Some (Returned (join nl lines), m')
    /\ exists before,
         journal m'
         = (before
            ++ [LogInfo (join nl ((nl ++ "------- 更新git插件 --------")%string
                                  :: lines ++ ["----------------------------"]))])%list.
Proof.
  apply (updateAllGitPlugin_logs_report
           (Example.repository ["git:alpha"; "git:beta"] Example.one_entry 2)
           None None 8 (boot 0) "git:alpha" ["git:beta"] 1);
    [reflexivity|simpl; lia].
Defined.
